(** * EM-Tracker-Utility: the replay / consume pipeline of [em_util.py]

    A shallow embedding of the core of [em_util.py]: the frame codec
    ([pack_sensor_data], [unpack_sensor_data]), the publisher [replay] and
    the subscriber [consume], followed by the properties proved about them.

    Modelling conventions.
    - Python integers are [Z]; the [struct] module's [i] and [q] codes are
      written out with their range check and two's complement wrap.
    - A Python [float] is an IEEE-754 binary64 value, modelled by the
      Standard Library's [spec_float] (no NaN payload); the [f] code is the
      C conversion to binary32 (round to nearest even, [binary_round 24 128])
      with CPython's overflow check.
    - [bytes] objects are [list byte]; topics are [string].
    - Exceptions are an error result; the socket, [time.sleep] and [print]
      are recorded as a trace of events, and an interruption by the user
      falls on one of the blocking calls.
    - The record source is the list of rows [df.iterrows()] yields, the
      [time] column being an [int64] column with the timestamps of the
      rows; the delays [np.diff(...) / 1000.0] are exact rationals.
    - The channel is ZeroMQ's: a [SUB] socket receives the messages whose
      first part starts with one of its subscriptions.
    - The interactive front end ([file_explorer], [cli] and the main block)
      runs on a desk: the file system, the keyboard as the list of answers
      still to come, and what the program did so far. The operating system
      is a record of the calls the code makes; paths are POSIX paths. A
      [str] is a [string] of code points below 256. The two threads appear
      as the actions that start and join them. *)

From Stdlib Require Import ZArith List Bool Lia String Ascii QArith Qabs Qpower.
From Stdlib Require Import Strings.Byte Floats.SpecFloat.
From Stdlib Require DecimalString DecimalZ DecimalPos.
Import ListNotations.

Local Open Scope Z_scope.

(** ** Exceptions and results *)

(** The exception classes the modelled code can meet. [SourceError] stands
    for whatever [pd.read_csv] and the column selection raise on an
    unreadable log (a subclass of [Exception]). *)
Inductive exn : Type :=
| StructError
| OverflowError
| IndexError
| SourceError
| KeyboardInterrupt
| SystemExit.

(** [except Exception] catches everything but the two [BaseException]s. *)
Definition is_Exception (e : exn) : bool :=
  match e with
  | KeyboardInterrupt | SystemExit => false
  | _ => true
  end.

Inductive result (A : Type) : Type :=
| Ok (a : A)
| Raise (e : exn).
Arguments Ok {A} a.
Arguments Raise {A} e.

Definition rbind {A B : Type} (r : result A) (k : A -> result B) : result B :=
  match r with
  | Ok a => k a
  | Raise e => Raise e
  end.

Declare Scope result_scope.
Delimit Scope result_scope with result.
Notation "'let*' x ':=' r 'in' k" := (rbind r (fun x => k))
  (at level 10, x name, r at level 100, k at level 200) : result_scope.
Local Open Scope result_scope.

(** ** Bytes and little-endian integers *)

Definition byte_of_Z (z : Z) : byte :=
  match Byte.of_N (Z.to_N (z mod 256)) with
  | Some b => b
  | None => Byte.x00
  end.

Definition Z_of_byte (b : byte) : Z := Z.of_N (Byte.to_N b).

(** The [n] low-order bytes of [z], least significant first. *)
Fixpoint le_bytes (n : nat) (z : Z) : list byte :=
  match n with
  | O => []
  | S k => byte_of_Z (z mod 256) :: le_bytes k (z / 256)
  end.

(** The unsigned value of a little-endian byte string. *)
Fixpoint le_value (bs : list byte) : Z :=
  match bs with
  | [] => 0
  | b :: rest => Z_of_byte b + 256 * le_value rest
  end.

Definition in_int32 (z : Z) : bool := (- 2 ^ 31 <=? z) && (z <? 2 ^ 31).
Definition in_int64 (z : Z) : bool := (- 2 ^ 63 <=? z) && (z <? 2 ^ 63).

(** [struct] code [<i]: 4 bytes, signed, little-endian; out of range is
    [struct.error]. *)
Definition pack_i (z : Z) : result (list byte) :=
  if in_int32 z then Ok (le_bytes 4 (z mod 2 ^ 32)) else Raise StructError.

(** [struct] code [<q]: 8 bytes, signed, little-endian. *)
Definition pack_q (z : Z) : result (list byte) :=
  if in_int64 z then Ok (le_bytes 8 (z mod 2 ^ 64)) else Raise StructError.

Definition unpack_i (bs : list byte) : Z :=
  let u := le_value bs in if u <? 2 ^ 31 then u else u - 2 ^ 32.

Definition unpack_q (bs : list byte) : Z :=
  let u := le_value bs in if u <? 2 ^ 63 then u else u - 2 ^ 64.

(** ** Floats: binary64 values and their binary32 frames *)

(** A Python float. *)
Definition pyfloat : Type := spec_float.

Definition is_infinity (x : spec_float) : bool :=
  match x with
  | S754_infinity _ => true
  | _ => false
  end.

(** The C conversion [(float)x]: round to nearest even into binary32. *)
Definition float_cast (x : pyfloat) : spec_float :=
  match x with
  | S754_finite s m e => binary_round 24 128 s m e
  | _ => x
  end.

(** The C conversion [(double)y] of a binary32 value: exact. *)
Definition double_cast (y : spec_float) : pyfloat :=
  match y with
  | S754_finite s m e => binary_round 53 1024 s m e
  | _ => y
  end.

Definition sign_bit (s : bool) : Z := if s then 2 ^ 31 else 0.

(** The 32-bit pattern of a binary32 value: sign, 8-bit biased exponent,
    23-bit fraction. NaN is the quiet NaN [0x7FC00000]. *)
Definition bits_of_b32 (y : spec_float) : Z :=
  match y with
  | S754_zero s => sign_bit s
  | S754_infinity s => sign_bit s + 255 * 2 ^ 23
  | S754_nan => 255 * 2 ^ 23 + 2 ^ 22
  | S754_finite s m e =>
      if Zpos m <? 2 ^ 23
      then sign_bit s + Zpos m
      else sign_bit s + (e + 149) * 2 ^ 23 + Zpos m
  end.

(** The binary32 value of a 32-bit pattern. *)
Definition b32_of_bits (b : Z) : spec_float :=
  let s := 2 ^ 31 <=? b in
  let ex := (b / 2 ^ 23) mod 256 in
  let fr := b mod 2 ^ 23 in
  if ex =? 0 then
    if fr =? 0 then S754_zero s else S754_finite s (Z.to_pos fr) (- 149)
  else if ex =? 255 then
    if fr =? 0 then S754_infinity s else S754_nan
  else S754_finite s (Z.to_pos (fr + 2 ^ 23)) (ex - 150).

(** CPython's [PyFloat_Pack4]: convert, and refuse a finite value that the
    conversion turned into an infinity
    ([OverflowError: float too large to pack with f format]). *)
Definition PyFloat_Pack4 (x : pyfloat) : result Z :=
  let y := float_cast x in
  if is_infinity y && negb (is_infinity x)
  then Raise OverflowError
  else Ok (bits_of_b32 y).

Definition PyFloat_Unpack4 (b : Z) : pyfloat := double_cast (b32_of_bits b).

(** [struct] code [<f]. *)
Definition pack_f (x : pyfloat) : result (list byte) :=
  let* b := PyFloat_Pack4 x in Ok (le_bytes 4 b).

Definition unpack_f (bs : list byte) : pyfloat := PyFloat_Unpack4 (le_value bs).

(** ** The frame codec *)

Module Row.

(** One record of the log, as [df.iterrows()] yields it after the column
    renaming: the fields [pack_sensor_data] reads. The integer fields hold
    integers, so [int(...)] returns them unchanged. *)
Record t : Type := mk {
  sensor_id : Z;
  time : Z;
  x : pyfloat;
  y : pyfloat;
  z : pyfloat;
  qw : pyfloat;
  qx : pyfloat;
  qy : pyfloat;
  qz : pyfloat
}.

End Row.

(** The tuple [struct.unpack] returns. *)
Definition sensor_tuple : Type :=
  (Z * Z * pyfloat * pyfloat * pyfloat * pyfloat * pyfloat * pyfloat * pyfloat)%type.

(** [struct.calcsize('<iqfffffff')]. *)
Definition frame_size : nat := 40.

(** [pack_sensor_data(row)]: [struct.pack('<iqfffffff', ...)] converts the
    arguments left to right, and the first failure is the one raised. *)
Definition pack_sensor_data (row : Row.t) : result (list byte) :=
  let* b_id := pack_i (Row.sensor_id row) in
  let* b_time := pack_q (Row.time row) in
  let* b_x := pack_f (Row.x row) in
  let* b_y := pack_f (Row.y row) in
  let* b_z := pack_f (Row.z row) in
  let* b_qw := pack_f (Row.qw row) in
  let* b_qx := pack_f (Row.qx row) in
  let* b_qy := pack_f (Row.qy row) in
  let* b_qz := pack_f (Row.qz row) in
  Ok (b_id ++ b_time ++ b_x ++ b_y ++ b_z ++ b_qw ++ b_qx ++ b_qy ++ b_qz).

(** [message_bytes[lo:hi]]. *)
Definition slice (lo hi : nat) (bs : list byte) : list byte :=
  firstn (hi - lo) (skipn lo bs).

(** [unpack_sensor_data(message_bytes)]: [struct.unpack] first checks the
    buffer length against the format size, then reads the fields. *)
Definition unpack_sensor_data (message_bytes : list byte) : result sensor_tuple :=
  if Nat.eqb (List.length message_bytes) frame_size then
    Ok (unpack_i (slice 0 4 message_bytes),
        unpack_q (slice 4 12 message_bytes),
        unpack_f (slice 12 16 message_bytes),
        unpack_f (slice 16 20 message_bytes),
        unpack_f (slice 20 24 message_bytes),
        unpack_f (slice 24 28 message_bytes),
        unpack_f (slice 28 32 message_bytes),
        unpack_f (slice 32 36 message_bytes),
        unpack_f (slice 36 40 message_bytes))
  else Raise StructError.

(** ** Topics *)

(** Python's decimal rendering of an integer, as an f-string writes it. *)
Definition str_of_int (i : Z) : string :=
  DecimalString.NilZero.string_of_int (Z.to_int i).

(** [f"sensor/em/{i}"]. *)
Definition sensor_topic (i : Z) : string := "sensor/em/" ++ str_of_int i.

Definition control_done : string := "control/done".

(** ** Effects: a trace of events, exceptions, and external interruption *)

(** The lines the two components print, by kind. *)
Inductive line : Type :=
| ReplayerFileNotFound
| ReplayerRunning
| ReplayerStarting (looping : bool)
| ReplayerSent (topic : string)
| ReplayerRestarting
| ReplayerFinished
| ReplayerInterrupted
| ReplayerError (e : exn)
| ReplayerShutDown
| ConsumerSubscribing (n : Z)
| ConsumerDone
| ConsumerReceived (topic : string) (data : sensor_tuple)
| ConsumerShuttingDown
| ConsumerShutDown.

Inductive event : Type :=
| Bind (endpoint : string)
| Connect (endpoint : string)
| Subscribe (prefix : string)
| Send (topic : string) (message : list byte)
| Sleep (seconds : Q)
| Print (l : line)
| Close
| Term.

(** How a call stands: it returned, it raised, or it has not returned
    (the model ran out of fuel, or the call blocks for ever). *)
Inductive outcome (A : Type) : Type :=
| Done (a : A)
| Raised (e : exn)
| Pending.
Arguments Done {A} a.
Arguments Raised {A} e.
Arguments Pending {A}.

(** The world a component runs in: the events so far, the number of
    blocking calls made so far, and the blocking call (counted from 0)
    during which the user interrupts the process, if any. *)
Record world : Type := mkWorld {
  trace : list event;
  clock : nat;
  signal : option nat
}.

Definition M (A : Type) : Type := world -> world * outcome A.

Definition ret {A : Type} (a : A) : M A := fun w => (w, Done a).

Definition bind {A B : Type} (m : M A) (k : A -> M B) : M B :=
  fun w =>
    match m w with
    | (w', Done a) => k a w'
    | (w', Raised e) => (w', Raised e)
    | (w', Pending) => (w', Pending)
    end.

Declare Scope M_scope.
Delimit Scope M_scope with M.
Notation "x <- m ;; k" := (bind m (fun x => k))
  (at level 61, m at next level, right associativity) : M_scope.
Notation "m ;; k" := (bind m (fun _ => k))
  (at level 61, right associativity) : M_scope.
Local Open Scope M_scope.

Definition raise {A : Type} (e : exn) : M A := fun w => (w, Raised e).

Definition pending {A : Type} : M A := fun w => (w, Pending).

(** An exception of pure code becomes an exception of the component. *)
Definition lift {A : Type} (r : result A) : M A :=
  match r with
  | Ok a => ret a
  | Raise e => raise e
  end.

(** An event that cannot be interrupted. *)
Definition emit (ev : event) : M unit :=
  fun w => (mkWorld (trace w ++ [ev]) (clock w) (signal w), Done tt).

(** A blocking call: [KeyboardInterrupt] is raised in place of the call the
    interruption falls on. *)
Definition blocking (ev : event) : M unit :=
  fun w =>
    match signal w with
    | Some k =>
        if Nat.eqb k (clock w)
        then (mkWorld (trace w) (S (clock w)) (signal w), Raised KeyboardInterrupt)
        else (mkWorld (trace w ++ [ev]) (S (clock w)) (signal w), Done tt)
    | None => (mkWorld (trace w ++ [ev]) (S (clock w)) (signal w), Done tt)
    end.

Definition print (l : line) : M unit := emit (Print l).
Definition sleep (seconds : Q) : M unit := blocking (Sleep seconds).
Definition send_multipart (topic : string) (message : list byte) : M unit :=
  blocking (Send topic message).

(** [try: body except ...: handler]: [handler e] is [None] when no clause
    matches [e]. *)
Definition try_except {A : Type} (body : M A) (handler : exn -> option (M A)) : M A :=
  fun w =>
    match body w with
    | (w', Raised e) =>
        match handler e with
        | Some h => h w'
        | None => (w', Raised e)
        end
    | r => r
    end.

(** [try: body finally: final]: [final] runs on every exit of [body], and
    an exception of [body] is raised again after it. *)
Definition try_finally {A : Type} (body : M A) (final : M unit) : M A :=
  fun w =>
    match body w with
    | (w', Pending) => (w', Pending)
    | (w', r) =>
        match final w' with
        | (w'', Done _) => (w'', r)
        | (w'', Raised e) => (w'', Raised e)
        | (w'', Pending) => (w'', Pending)
        end
    end.

(** ** The publisher *)

(** The record source: [os.path.exists] fails, or [pd.read_csv] and the
    column selection raise, or they yield the rows of the log in order. *)
Inductive source : Type :=
| Missing
| Unreadable
| Loaded (df : list Row.t).

Definition read_csv (src : source) : M (list Row.t) :=
  match src with
  | Loaded df => ret df
  | _ => raise SourceError
  end.

(** NumPy's [int64] subtraction wraps around. *)
Definition wrap_int64 (d : Z) : Z := (d + 2 ^ 63) mod 2 ^ 64 - 2 ^ 63.

(** [np.diff(a, prepend=p)]: the differences of consecutive elements of
    [p :: a]. *)
Fixpoint np_diff (p : Z) (a : list Z) : list Z :=
  match a with
  | [] => []
  | t :: rest => wrap_int64 (t - p) :: np_diff t rest
  end.

(** [df['time'].iloc[0]]. *)
Definition iloc0 (a : list Z) : result Z :=
  match a with
  | [] => Raise IndexError
  | t :: _ => Ok t
  end.

(** [np.diff(df['time'], prepend=df['time'].iloc[0]) / 1000.0], the delays
    in seconds (as exact rationals). *)
Definition time_diffs_of (df : list Row.t) : result (list Q) :=
  let times := map Row.time df in
  let* first := iloc0 times in
  Ok (map (fun d => d # 1000) (np_diff first times)).

(** [df.iterrows()]: the rows with their index labels. *)
Definition iterrows (df : list Row.t) : list (nat * Row.t) :=
  combine (seq 0 (List.length df)) df.

(** [q > 0]. *)
Definition Qpositive (q : Q) : bool := negb (Qle_bool q 0).

(** The [for] loop of [replay]. *)
Fixpoint replay_rows (rows : list (nat * Row.t)) (time_diffs : list Q) : M unit :=
  match rows with
  | [] => ret tt
  | (i, row) :: rest =>
      let topic := sensor_topic (Row.sensor_id row) in
      message <- lift (pack_sensor_data row) ;;
      send_multipart topic message ;;
      print (ReplayerSent topic) ;;
      (if Nat.ltb i (List.length time_diffs) && Qpositive (nth i time_diffs 0%Q)
       then sleep (nth i time_diffs 0%Q)
       else ret tt) ;;
      replay_rows rest time_diffs
  end.

(** The [while True] loop of [replay]; [fuel] bounds the number of passes
    the model follows. *)
Fixpoint replay_passes (fuel : nat) (df : list Row.t) (time_diffs : list Q)
    (loop_data : bool) : M unit :=
  match fuel with
  | O => pending
  | S fuel' =>
      replay_rows (iterrows df) time_diffs ;;
      if negb loop_data then ret tt
      else
        print ReplayerRestarting ;;
        sleep 1 ;;
        replay_passes fuel' df time_diffs loop_data
  end.

(** The [except] clauses of [replay], in order. *)
Definition replay_handler (e : exn) : option (M unit) :=
  match e with
  | KeyboardInterrupt | SystemExit => Some (print ReplayerInterrupted)
  | _ => if is_Exception e then Some (print (ReplayerError e)) else None
  end.

(** The [try] block of [replay]. *)
Definition replay_try (fuel : nat) (src : source) (loop_data : bool) : M unit :=
  df <- read_csv src ;;
  time_diffs <- lift (time_diffs_of df) ;;
  print (ReplayerStarting loop_data) ;;
  replay_passes fuel df time_diffs loop_data ;;
  print ReplayerFinished ;;
  send_multipart control_done [] ;;
  sleep 1.

(** The [finally] block of [replay]. *)
Definition replay_finally : M unit :=
  emit Close ;;
  emit Term ;;
  print ReplayerShutDown.

(** [replay(rel_path, loop_data)], with the file system read through
    [src]. *)
Definition replay (fuel : nat) (src : source) (loop_data : bool) : M unit :=
  match src with
  | Missing => print ReplayerFileNotFound
  | _ =>
      emit (Bind "tcp://*:5555") ;;
      print ReplayerRunning ;;
      sleep 1 ;;
      try_finally
        (try_except (replay_try fuel src loop_data) replay_handler)
        replay_finally
  end.

(** A run from the initial world. *)
Definition run {A : Type} (m : M A) (sig : option nat) : list event * outcome A :=
  let (w, r) := m (mkWorld [] 0 sig) in (trace w, r).

(** ** The subscriber *)

(** What the channel carries towards a subscriber: a two-part message, or
    an interruption of the pending receive. *)
Inductive arrival : Type :=
| Message (topic : string) (message_bytes : list byte)
| Interrupt (e : exn).

(** ZeroMQ's subscription filter: a message passes when one of the
    socket's subscriptions is a prefix of its first part. *)
Definition zmq_matches (subs : list string) (topic : string) : bool :=
  existsb (fun p => String.prefix p topic) subs.

(** [range(1, N + 1)]. *)
Definition range1 (N : Z) : list Z :=
  map (fun k => Z.of_nat k) (seq 1 (Z.to_nat N)).

(** The subscriptions [consume] sets, in order. *)
Definition subscriptions (N : Z) : list string :=
  map sensor_topic (range1 N) ++ [control_done].

Fixpoint subscribe_all (subs : list string) : M unit :=
  match subs with
  | [] => ret tt
  | p :: rest => emit (Subscribe p) ;; subscribe_all rest
  end.

(** The receive loop: [recv_multipart] returns the next arrival that
    passes the filter, and blocks when there is none. *)
Fixpoint consume_loop (subs : list string) (stream : list arrival) : M unit :=
  match stream with
  | [] => pending
  | Interrupt e :: _ => raise e
  | Message topic message_bytes :: rest =>
      if zmq_matches subs topic then
        if String.eqb topic control_done then print ConsumerDone
        else
          data <- lift (unpack_sensor_data message_bytes) ;;
          print (ConsumerReceived topic data) ;;
          consume_loop subs rest
      else consume_loop subs rest
  end.

Definition consume_handler (e : exn) : option (M unit) :=
  match e with
  | KeyboardInterrupt | SystemExit => Some (print ConsumerShuttingDown)
  | _ => None
  end.

(** [consume(N)], with the channel's traffic given as [stream]. *)
Definition consume (N : Z) (stream : list arrival) : M unit :=
  emit (Connect "tcp://localhost:5555") ;;
  print (ConsumerSubscribing N) ;;
  subscribe_all (subscriptions N) ;;
  try_finally
    (try_except (consume_loop (subscriptions N) stream) consume_handler)
    (emit Close ;;
     emit Term ;;
     print ConsumerShutDown).

(** ** Well-formed samples and their frames *)

(** A valid binary32 value. *)
Definition valid_b32 (y : spec_float) : bool := valid_binary 24 128 y.

(** The float converts to binary32 without overflow: the test of
    [PyFloat_Pack4], negated. *)
Definition fits_f32 (x : pyfloat) : bool :=
  negb (is_infinity (float_cast x) && negb (is_infinity x)).

(** A finite binary64 value [m * 2^e] (with [m] of 53 bits) lies below
    [2^128 - 2^103 = (2^53 - 2^28) * 2^75], the least magnitude binary32
    rounds to an infinity. *)
Definition below_f32_overflow (x : pyfloat) : bool :=
  match x with
  | S754_finite _ m e => (e <? 75) || ((e =? 75) && (Zpos m <? 2 ^ 53 - 2 ^ 28))
  | _ => true
  end.

(** The float fields of a row, in frame order. *)
Definition floats (row : Row.t) : list pyfloat :=
  [Row.x row; Row.y row; Row.z row; Row.qw row; Row.qx row; Row.qy row; Row.qz row].

(** A well-formed sample: every field is representable in its wire type,
    the identifier in 32 bits, the timestamp in 64 bits and each float
    within the binary32 range. *)
Definition well_formed (row : Row.t) : bool :=
  in_int32 (Row.sensor_id row) && in_int64 (Row.time row)
  && forallb fits_f32 (floats row).

(** A float as the frame carries it: rounded to binary32. *)
Definition to_single (x : pyfloat) : pyfloat := double_cast (float_cast x).

(** The row a decoded tuple stands for. *)
Definition row_of (data : sensor_tuple) : Row.t :=
  let '(i, t, x, y, z, qw, qx, qy, qz) := data in Row.mk i t x y z qw qx qy qz.

(** The frame of a row that encodes, field by field. *)
Definition frame_of (row : Row.t) : list byte :=
  le_bytes 4 (Row.sensor_id row mod 2 ^ 32) ++
  le_bytes 8 (Row.time row mod 2 ^ 64) ++
  le_bytes 4 (bits_of_b32 (float_cast (Row.x row))) ++
  le_bytes 4 (bits_of_b32 (float_cast (Row.y row))) ++
  le_bytes 4 (bits_of_b32 (float_cast (Row.z row))) ++
  le_bytes 4 (bits_of_b32 (float_cast (Row.qw row))) ++
  le_bytes 4 (bits_of_b32 (float_cast (Row.qx row))) ++
  le_bytes 4 (bits_of_b32 (float_cast (Row.qy row))) ++
  le_bytes 4 (bits_of_b32 (float_cast (Row.qz row))).


(** The timestamp is small enough for the difference of two such
    timestamps to fit [int64]. *)
Definition timestamp_ok (row : Row.t) : Prop :=
  - 2 ^ 62 <= Row.time row < 2 ^ 62.

(** ** Reading traces *)

(** The messages a trace sends, in order. *)
Fixpoint sends (tr : list event) : list (string * list byte) :=
  match tr with
  | [] => []
  | Send topic message :: rest => (topic, message) :: sends rest
  | _ :: rest => sends rest
  end.

(** For each message a trace sends, the time slept since the message
    before it (since the start, for the first). *)
Fixpoint waits_from (slept : Q) (tr : list event) : list Q :=
  match tr with
  | [] => []
  | Send _ _ :: rest => slept :: waits_from 0 rest
  | Sleep seconds :: rest => waits_from (Qred (slept + seconds)) rest
  | _ :: rest => waits_from slept rest
  end.

Definition waits (tr : list event) : list Q := waits_from 0 tr.

(** The time slept between consecutive messages: entry [i] is the pause
    between message [i] and message [i + 1]. *)
Definition pauses (tr : list event) : list Q := tl (waits tr).

(** Within the tolerance allowed for scheduling jitter (50 ms). *)
Definition approximately (a b : Q) : Prop := (Qabs (a - b) < 1 # 20)%Q.



(** ** The publisher's traces, as the specification words them *)

(** The events of [replay] up to the start of the loop. *)
Definition prologue (loop_data : bool) : list event :=
  [Bind "tcp://*:5555"; Print ReplayerRunning; Sleep 1;
   Print (ReplayerStarting loop_data)].

(** The sentinel message. *)
Definition sentinel : event := Send control_done [].

(** The release of the publisher's channel. *)
Definition release : list event := [Close; Term; Print ReplayerShutDown].

(** The events of [replay] after a loop that ran to its end. *)
Definition epilogue : list event :=
  [Print ReplayerFinished; sentinel; Sleep 1] ++ release.

(** The release of the subscriber's channel. *)
Definition consumer_release : list event := [Close; Term; Print ConsumerShutDown].

(** The events of one row of the [for] loop, read off the code. *)
Definition row_events (time_diffs : list Q) (ir : nat * Row.t) : list event :=
  let topic := sensor_topic (Row.sensor_id (snd ir)) in
  [Send topic (frame_of (snd ir)); Print (ReplayerSent topic)] ++
  (if Nat.ltb (fst ir) (List.length time_diffs)
      && Qpositive (nth (fst ir) time_diffs 0%Q)
   then [Sleep (nth (fst ir) time_diffs 0%Q)] else []).

(** The specification's pacing: each sample is emitted on its topic, then
    the publisher sleeps for the time since the sample before it,
    [(current - previous) / 1000] seconds, when that is positive. *)
Fixpoint paced_emissions (previous : Z) (rows : list Row.t) : list event :=
  match rows with
  | [] => []
  | row :: rest =>
      let topic := sensor_topic (Row.sensor_id row) in
      [Send topic (frame_of row); Print (ReplayerSent topic)] ++
      (if 0 <? Row.time row - previous
       then [Sleep ((Row.time row - previous) # 1000)] else []) ++
      paced_emissions (Row.time row) rest
  end.

(** A world nobody interrupts. *)
Definition quiet (tr : list event) (c : nat) : world := mkWorld tr c None.

(** [w'] is [w] after the events [evs]. *)
Definition extends (w w' : world) (evs : list event) : Prop :=
  trace w' = trace w ++ evs /\ signal w' = signal w.

(** The events of the replay loop. *)
Definition loop_event (ev : event) : bool :=
  match ev with
  | Send topic _ => negb (String.eqb topic control_done)
  | Sleep _ => true
  | Print (ReplayerSent _) => true
  | Print ReplayerRestarting => true
  | _ => false
  end.

(** The events of the [try] block before the loop ends. *)
Definition early_event (ev : event) : bool :=
  match ev with
  | Print (ReplayerStarting _) => true
  | _ => loop_event ev
  end.

(** How the [try] block of [replay] can end: the events it leaves and its
    outcome. *)
Inductive try_ends (loop_data : bool) : list event -> outcome unit -> Prop :=
| try_fails (early : list event) (e : exn) :
    forallb early_event early = true ->
    try_ends loop_data early (Raised e)
| try_interrupted_at_sentinel (early : list event) :
    forallb early_event early = true -> loop_data = false ->
    try_ends loop_data (early ++ [Print ReplayerFinished])
      (Raised KeyboardInterrupt)
| try_interrupted_after_sentinel (early : list event) :
    forallb early_event early = true -> loop_data = false ->
    try_ends loop_data (early ++ [Print ReplayerFinished; sentinel])
      (Raised KeyboardInterrupt)
| try_completes (early : list event) :
    forallb early_event early = true -> loop_data = false ->
    try_ends loop_data (early ++ [Print ReplayerFinished; sentinel; Sleep 1])
      (Done tt)
| try_pending (evs : list event) :
    try_ends loop_data evs Pending.

(** The traces of [replay] once the [try] block is entered, after the
    three events before it. *)
Inductive replay_ends (loop_data : bool) : list event -> Prop :=
| replay_failed (early : list event) (e : exn) :
    forallb early_event early = true -> is_Exception e = true ->
    replay_ends loop_data (early ++ [Print (ReplayerError e)] ++ release)
| replay_interrupted (early : list event) :
    forallb early_event early = true ->
    replay_ends loop_data (early ++ [Print ReplayerInterrupted] ++ release)
| replay_interrupted_at_sentinel (early : list event) :
    forallb early_event early = true -> loop_data = false ->
    replay_ends loop_data
      (early ++ [Print ReplayerFinished; Print ReplayerInterrupted] ++ release)
| replay_interrupted_after_sentinel (early : list event) :
    forallb early_event early = true -> loop_data = false ->
    replay_ends loop_data
      (early ++ [Print ReplayerFinished; sentinel; Print ReplayerInterrupted]
             ++ release)
| replay_completed (early : list event) :
    forallb early_event early = true -> loop_data = false ->
    replay_ends loop_data
      (early ++ [Print ReplayerFinished; sentinel; Sleep 1] ++ release).

(** ** Sample data *)

(** 0.0 and 1.0 as Python floats. *)
Definition float_zero : pyfloat := S754_zero false.
Definition float_one : pyfloat := S754_finite false (2 ^ 52) (- 52).

(** 2^128, a binary64 value beyond the binary32 range. *)
Definition float_2_128 : pyfloat := S754_finite false (2 ^ 52) 76.

(** A sample at the origin with the identity orientation. *)
Definition sample (sensor_id time : Z) : Row.t :=
  Row.mk sensor_id time float_zero float_zero float_zero
         float_one float_zero float_zero float_zero.

(** A log with the timestamps 100, 220 and 500. *)
Definition log_100_220_500 : list Row.t :=
  [sample 1 100; sample 2 220; sample 3 500].

(** A payload of 10 bytes. *)
Definition truncated_payload : list byte := repeat Byte.x00 10.

(** ** The life of a socket *)

(** The states a ZeroMQ socket and its context go through. *)
Inductive socket_state : Type :=
| Fresh
| Open
| Closed
| Terminated.

(** What an event asks of the socket: [bind] and [connect] open it, a
    message or a subscription needs it open, [close] closes an open socket
    and [term] ends the context of a closed one ([term] would block on an
    open socket). [None] is a misuse. *)
Definition socket_step (st : socket_state) (ev : event) : option socket_state :=
  match ev with
  | Bind _ | Connect _ =>
      match st with Fresh => Some Open | _ => None end
  | Subscribe _ | Send _ _ =>
      match st with Open => Some Open | _ => None end
  | Close =>
      match st with Open => Some Closed | _ => None end
  | Term =>
      match st with Closed => Some Terminated | _ => None end
  | Sleep _ | Print _ => Some st
  end.

Fixpoint socket_run (st : socket_state) (tr : list event) : option socket_state :=
  match tr with
  | [] => Some st
  | ev :: rest =>
      match socket_step st ev with
      | Some st' => socket_run st' rest
      | None => None
      end
  end.

(** [time.sleep] accepts the duration: it is not negative (the publisher
    only ever sleeps for a positive time). *)
Definition sleeps_positive (ev : event) : bool :=
  match ev with
  | Sleep seconds => Qpositive seconds
  | _ => true
  end.

(** The events of a component at work on an open socket. *)
Definition working_event (ev : event) : bool :=
  match ev with
  | Send _ _ | Print _ => true
  | Sleep seconds => Qpositive seconds
  | _ => false
  end.

(** [m] only adds events of the class [P] to the trace, and leaves the
    schedule of the interruption alone. *)
Definition emits {A : Type} (P : event -> bool) (m : M A) : Prop :=
  forall w, exists evs,
    extends w (fst (m w)) evs /\ forallb P evs = true.

(** An interruption only cuts [m] short: started from the trace [tr], [m]
    without interruption adds the events [evsQ] and ends as [oQ]; with an
    interruption pending it adds an initial segment of [evsQ], and either
    ends as it does without interruption, having added them all, or raises
    [KeyboardInterrupt]. *)
Definition cut {A : Type} (m : M A) : Prop :=
  forall tr, exists evsQ oQ,
    (forall c, exists c', m (quiet tr c) = (quiet (tr ++ evsQ) c', oQ)) /\
    (forall w, trace w = tr -> exists w' o n,
        m w = (w', o) /\ extends w w' (firstn n evsQ) /\
        (o = oQ /\ firstn n evsQ = evsQ \/ o = Raised KeyboardInterrupt)).

(** The events of a looping replay that are not the end of a replay. *)
Definition not_sentinel (ev : event) : bool :=
  match ev with
  | Send topic _ => negb (String.eqb topic control_done)
  | Print ReplayerFinished => false
  | _ => true
  end.

(** The time a trace sleeps, in seconds. *)
Fixpoint slept (tr : list event) : Q :=
  match tr with
  | [] => 0
  | Sleep seconds :: rest => seconds + slept rest
  | _ :: rest => slept rest
  end.



(** ** The channel between the two components *)




(** [math.isnan]. *)
Definition is_nan (x : pyfloat) : bool :=
  match x with
  | S754_nan => true
  | _ => false
  end.

(** The sign of a float as a rational. *)
Definition sign_Q (s : bool) : Q := if s then - (1) else 1.

(** The number a float stands for, as an exact rational (0 for what is
    not a number). *)
Definition value (x : pyfloat) : Q :=
  match x with
  | S754_finite s m e => sign_Q s * inject_Z (Zpos m) * Qpower 2 e
  | _ => 0
  end.

(** 1 + 2^-52, the binary64 value next above 1.0: not a binary32
    value. *)
Definition float_one_ulp : pyfloat := S754_finite false (2 ^ 52 + 1) (- 52).

(** ** Python strings *)

(** A [str] whose code points are all below 256 is a [string], each
    character standing for the code point of its number. *)

Definition ord (c : ascii) : N := N_of_ascii c.

(** [c.isspace()]: the white space [str.strip()] removes. *)
Definition isspace (c : ascii) : bool :=
  let n := ord c in
  ((9 <=? n) && (n <=? 13) || (28 <=? n) && (n <=? 32) || (n =? 133) || (n =? 160))%N.

Fixpoint lstrip_by (space : ascii -> bool) (s : string) : string :=
  match s with
  | String c rest => if space c then lstrip_by space rest else s
  | EmptyString => EmptyString
  end.

Fixpoint rstrip_by (space : ascii -> bool) (s : string) : string :=
  match s with
  | String c rest =>
      match rstrip_by space rest with
      | EmptyString => if space c then EmptyString else String c EmptyString
      | kept => String c kept
      end
  | EmptyString => EmptyString
  end.

(** [s.strip()]. *)
Definition strip (s : string) : string := rstrip_by isspace (lstrip_by isspace s).

Definition lower_char (c : ascii) : ascii :=
  let n := ord c in
  if ((65 <=? n) && (n <=? 90) || (192 <=? n) && (n <=? 222) && negb (n =? 215))%N
  then ascii_of_N (n + 32)
  else c.

(** [s.lower()]. *)
Fixpoint lower (s : string) : string :=
  match s with
  | String c rest => String (lower_char c) (lower rest)
  | EmptyString => EmptyString
  end.

(** The decimal digits [int] reads, 0 to 9. *)
Definition isdecimal_char (c : ascii) : bool :=
  let n := ord c in ((48 <=? n) && (n <=? 57))%N.

(** [c.isdigit()]: the decimal digits and the superscripts one, two and
    three. *)
Definition isdigit_char (c : ascii) : bool :=
  let n := ord c in
  (isdecimal_char c || (n =? 178) || (n =? 179) || (n =? 185))%N.

Fixpoint all_chars (p : ascii -> bool) (s : string) : bool :=
  match s with
  | String c rest => p c && all_chars p rest
  | EmptyString => true
  end.

(** [s.isdigit()]. *)
Definition isdigit (s : string) : bool :=
  negb (String.eqb s EmptyString) && all_chars isdigit_char s.

(** [s.endswith(suffix)]. *)
Definition endswith (s suffix : string) : bool :=
  (String.length suffix <=? String.length s)%nat
  && String.eqb (substring (String.length s - String.length suffix)
                           (String.length suffix) s) suffix.

(** The white space [int] accepts around a number: the C locale's, and
    the two non-ASCII spaces below 256. *)
Definition int_isspace (c : ascii) : bool :=
  let n := ord c in
  ((9 <=? n) && (n <=? 13) || (n =? 32) || (n =? 133) || (n =? 160))%N.

(** The digits of a decimal literal, single underscores allowed between
    digits: the value read and the number of digits, or [None]. *)
Fixpoint int_digits (s : string) (value : Z) (count : nat) (after_digit : bool)
    : option (Z * nat) :=
  match s with
  | EmptyString => if after_digit then Some (value, count) else None
  | String c rest =>
      if isdecimal_char c
      then int_digits rest (10 * value + (Z.of_N (ord c) - 48)) (S count) true
      else if Ascii.eqb c "_" && after_digit
           then int_digits rest value count false
           else None
  end.

(** [sys.get_int_max_str_digits()]. *)
Definition max_str_digits : nat := 4300.

(** [int(s)]; [None] is [ValueError]. *)
Definition int_of_str (s : string) : option Z :=
  let body := rstrip_by int_isspace (lstrip_by int_isspace s) in
  let '(negative, digits) :=
    match body with
    | String "+" rest => (false, rest)
    | String "-" rest => (true, rest)
    | _ => (false, body)
    end in
  match int_digits digits 0 0 false with
  | Some (value, count) =>
      if (max_str_digits <? count)%nat then None
      else Some (if negative then - value else value)
  | None => None
  end.

(** [sorted(names)]: the order of [str] is that of the code points. *)
Fixpoint insert_sorted (name : string) (names : list string) : list string :=
  match names with
  | [] => [name]
  | first :: rest =>
      if String.leb name first then name :: names
      else first :: insert_sorted name rest
  end.

Fixpoint sorted (names : list string) : list string :=
  match names with
  | [] => []
  | name :: rest => insert_sorted name (sorted rest)
  end.

(** ** Paths ([posixpath]) *)

(** [os.path.join(a, b)]. *)
Definition path_join (a b : string) : string :=
  if String.prefix "/" b then b
  else if String.eqb a EmptyString || endswith a "/" then a ++ b
  else a ++ "/" ++ b.

(** [path.split('/')]. *)
Fixpoint split_slash (path : string) : list string :=
  match path with
  | EmptyString => [EmptyString]
  | String c rest =>
      if Ascii.eqb c "/" then EmptyString :: split_slash rest
      else match split_slash rest with
           | first :: others => String c first :: others
           | [] => [String c EmptyString]
           end
  end.

(** One turn of the loop of [normpath] over the components. *)
Definition normpath_step (initial_slashes : nat) (new_comps : list string)
    (comp : string) : list string :=
  if String.eqb comp EmptyString || String.eqb comp "." then new_comps
  else if negb (String.eqb comp "..")
          || (Nat.eqb initial_slashes 0 && Nat.eqb (List.length new_comps) 0)
          || (negb (Nat.eqb (List.length new_comps) 0)
              && String.eqb (last new_comps EmptyString) "..")
       then new_comps ++ [comp]
       else removelast new_comps.

(** [os.path.normpath(path)]. *)
Definition normpath (path : string) : string :=
  if String.eqb path EmptyString then "."
  else
    let initial_slashes :=
      if String.prefix "/" path
      then if String.prefix "//" path && negb (String.prefix "///" path)
           then 2%nat else 1%nat
      else 0%nat in
    let comps := fold_left (normpath_step initial_slashes) (split_slash path) [] in
    let joined := String.concat "/" comps in
    let path' :=
      (String.concat EmptyString (repeat "/"%string initial_slashes) ++ joined)%string in
    if String.eqb path' EmptyString then "." else path'.

(** [os.path.abspath(path)], the working directory being [cwd]. *)
Definition abspath (cwd path : string) : string :=
  normpath (if String.prefix "/" path then path else path_join cwd path).

(** [os.path.basename(path)]. *)
Fixpoint basename (path : string) : string :=
  match path with
  | EmptyString => EmptyString
  | String c rest =>
      if Ascii.eqb c "/" || existsb (Ascii.eqb "/"%char) (list_ascii_of_string rest)
      then basename rest
      else path
  end.

(** ** The interactive front end: console, keyboard and file system *)

(** The exceptions the front end can meet. *)
Inductive failure : Type :=
| ValueError
| OSError
| EOFError
| UserInterrupt.

(** [except Exception] catches everything but [KeyboardInterrupt]. *)
Definition is_ordinary (e : failure) : bool :=
  match e with
  | UserInterrupt => false
  | _ => true
  end.

(** What the user does at a prompt: type a line, press Ctrl-C, or end the
    input. *)
Inductive keystroke : Type :=
| Line (text : string)
| CtrlC
| CtrlD.

(** The prompts of [console.input]. *)
Inductive prompt : Type :=
| AskChoice
| AskLoop
| AskSensors.

(** The messages of [console.print] and [print], by kind. *)
Inductive notice : Type :=
| InvalidInput
| IndexOutOfRange
| SelectedFile (path : string)
| NotCsv (name : string)
| ExplorerError (e : failure)
| CreatedDummy (file_path : string)
| Help
| Author
| Tip
| NoFileSelected
| UsingDefault (n : Z)
| PleasePositive
| InvalidInteger
| CaughtInterrupt
| HeadlessRunning
| HeadlessInterrupt
| HeadlessFinished.

(** The titles of [console.rule]. *)
Inductive title : Type :=
| InteractiveMode
| StartingReplay (name : string)
| ProgramFinished.

(** The threads of the program, with the arguments of their targets. *)
Inductive task : Type :=
| Publisher (rel_path : string) (loop_data : bool)
| Subscriber (N : Z).

(** A row of the explorer's table: index, type, name and style. *)
Definition table_row : Type := (string * string * string * option string)%type.

(** What the front end does, in order. *)
Inductive action : Type :=
| Say (n : notice)
| Rule (t : title)
| Table (path : string) (rows : list table_row)
| Ask (p : prompt)
| WriteCsv (file_path : string)
| Start (t : task)
| Join (t : task).

(** The operating system as the front end sees it, over a file system of
    type [fs]. A [None] is an [OSError]. [write_csv] is what
    [create_dummy_csv] does to the file system, opening the file for
    writing and writing the header and the rows: the file system it
    leaves, and whether it succeeded ([false] is an [OSError]). *)
Record system (fs : Type) : Type := mkSystem {
  getcwd : fs -> option string;
  listdir : fs -> string -> option (list string);
  isdir : fs -> string -> bool;
  isfile : fs -> string -> bool;
  write_csv : fs -> string -> list string -> list (list string) -> fs * bool
}.
Arguments getcwd {fs} s _.
Arguments listdir {fs} s _ _.
Arguments isdir {fs} s _ _.
Arguments isfile {fs} s _ _.
Arguments write_csv {fs} s _ _ _ _.

(** The state of the front end: the file system, what it did so far, and
    what the user has not typed yet. *)
Record desk (fs : Type) : Type := mkDesk {
  disk : fs;
  done : list action;
  keyboard : list keystroke
}.
Arguments mkDesk {fs} disk done keyboard.
Arguments disk {fs} d.
Arguments done {fs} d.
Arguments keyboard {fs} d.

(** How a call of the front end stands: it returned, it raised, or it
    waits for the user. *)
Inductive verdict (A : Type) : Type :=
| Returned (a : A)
| Failed (e : failure)
| Waiting.
Arguments Returned {A} a.
Arguments Failed {A} e.
Arguments Waiting {A}.

Definition C (fs A : Type) : Type := desk fs -> desk fs * verdict A.

Definition cret {fs A : Type} (a : A) : C fs A := fun d => (d, Returned a).

Definition cbind {fs A B : Type} (m : C fs A) (k : A -> C fs B) : C fs B :=
  fun d =>
    match m d with
    | (d', Returned a) => k a d'
    | (d', Failed e) => (d', Failed e)
    | (d', Waiting) => (d', Waiting)
    end.

Declare Scope C_scope.
Delimit Scope C_scope with C.
Notation "x <- m ;; k" := (cbind m (fun x => k))
  (at level 61, m at next level, right associativity) : C_scope.
Notation "m ;; k" := (cbind m (fun _ => k))
  (at level 61, right associativity) : C_scope.

Definition cfail {fs A : Type} (e : failure) : C fs A := fun d => (d, Failed e).

Definition act {fs : Type} (a : action) : C fs unit :=
  fun d => (mkDesk (disk d) (done d ++ [a]) (keyboard d), Returned tt).

(** [console.input(prompt)]: the next line the user types. *)
Definition console_input {fs : Type} (p : prompt) : C fs string :=
  fun d =>
    let d' := mkDesk (disk d) (done d ++ [Ask p]) (tl (keyboard d)) in
    match keyboard d with
    | [] => (mkDesk (disk d) (done d ++ [Ask p]) [], Waiting)
    | Line text :: _ => (d', Returned text)
    | CtrlC :: _ => (d', Failed UserInterrupt)
    | CtrlD :: _ => (d', Failed EOFError)
    end.

(** A call of the operating system that reads the file system. *)
Definition os_read {fs A : Type} (call : fs -> option A) : C fs A :=
  fun d =>
    match call (disk d) with
    | Some a => (d, Returned a)
    | None => (d, Failed OSError)
    end.

(** [try: body except ...: handler], the clause catching the exceptions
    of [caught]. *)
Definition try_catch {fs A : Type} (caught : failure -> bool) (body : C fs A)
    (handler : failure -> C fs A) : C fs A :=
  fun d =>
    match body d with
    | (d', Failed e) => if caught e then handler e d' else (d', Failed e)
    | r => r
    end.

(** [os.path.abspath(path)]: the working directory is asked for when the
    path is relative. *)
Definition os_abspath {fs : Type} (sys : system fs) (path : string) : C fs string :=
  if String.prefix "/" path then cret (normpath path)
  else fun d =>
         match getcwd sys (disk d) with
         | Some cwd => (d, Returned (abspath cwd path))
         | None => (d, Failed OSError)
         end.

(** ** The file explorer *)

(** The header and the rows [create_dummy_csv] writes, each cell as
    [csv.writer] renders it. *)
Definition dummy_header : list string :=
  ["SEU"; "FrErr"; "Frame"; "Sensor1"; "btn0_1"; "btn1_1"; "d1"; "aux(hex)_1";
   "X1 (M)"; "Y1"; "Z1"; "Qw1"; "Qx1"; "Qy1"; "Qz1"]%string.

Definition dummy_data : list (list string) :=
  [["1.0"; "0"; "100"; "1"; "0"; "0"; "0"; "0x0";
    "0.1"; "0.2"; "0.3"; "1.0"; "0.0"; "0.0"; "0.0"];
   ["2.0"; "0"; "220"; "2"; "0"; "0"; "0"; "0x0";
    "0.4"; "0.5"; "0.6"; "0.9"; "0.1"; "0.0"; "0.0"];
   ["1.0"; "0"; "350"; "1"; "0"; "0"; "0"; "0x0";
    "0.1"; "0.3"; "0.4"; "0.8"; "0.2"; "0.1"; "0.0"];
   ["3.0"; "0"; "500"; "3"; "0"; "0"; "0"; "0x0";
    "0.7"; "0.8"; "0.9"; "0.7"; "0.3"; "0.2"; "0.1"]]%string.

(** [create_dummy_csv(file_path)]. *)
Definition create_dummy_csv {fs : Type} (sys : system fs) (file_path : string)
    : C fs unit :=
  fun d =>
    match write_csv sys (disk d) file_path dummy_header dummy_data with
    | (disk', true) =>
        (mkDesk disk' (done d ++ [WriteCsv file_path; Say (CreatedDummy file_path)])
                (keyboard d),
         Returned tt)
    | (disk', false) =>
        (mkDesk disk' (done d ++ [WriteCsv file_path]) (keyboard d), Failed OSError)
    end.

(** [print_help_message(console)]. *)
Definition print_help_message {fs : Type} : C fs unit := act (Say Help).

(** The entries the explorer offers, in the order of their indices. *)
Definition display_items (dirs files : list string) : list (string * string) :=
  [("..", "[dir]")%string] ++ map (fun d => (d, "[dir]"%string)) dirs
    ++ map (fun f => (f, "[file]"%string)) files.

(** The style of a numbered row. *)
Definition row_style (name item_type : string) : string :=
  if endswith name ".csv" then "bold green"
  else if String.eqb item_type "[dir]" then "bold blue"
  else "white".

(** [enumerate(display_items)], from [i]. *)
Fixpoint enumerate_from {A : Type} (i : nat) (l : list A) : list (nat * A) :=
  match l with
  | [] => []
  | a :: rest => (i, a) :: enumerate_from (S i) rest
  end.

(** The rows of the table: the four fixed rows, then one row for each
    entry but the first. *)
Definition table_rows (items : list (string * string)) : list table_row :=
  [("0", "[dir]", ".. (Parent Directory)", None);
   ("h", "[opt]", "Help / Usage Information", None);
   ("g", "[opt]", "Generate dummy 'replay_data.csv'", None);
   ("q", "[opt]", "Quit", None)]%string
  ++ flat_map (fun entry : nat * (string * string) =>
                 let '(i, (name, item_type)) := entry in
                 if Nat.eqb i 0 then []
                 else [(str_of_int (Z.of_nat i), item_type, name,
                        Some (row_style name item_type))])
              (enumerate_from 0 items).

(** The body of the loop of [file_explorer], one turn. It returns
    [Some result] when the explorer returns [result], and [None] with the
    directory of the next turn otherwise. *)
Definition explorer_turn {fs : Type} (sys : system fs) (current_path : string)
    : C fs (option (option string) * string) :=
  (items <- os_read (fun disk => listdir sys disk current_path) ;;
   fun d =>
     let dirs := sorted (filter (fun name => isdir sys (disk d)
                                               (path_join current_path name)) items) in
     let files := sorted (filter (fun name => isfile sys (disk d)
                                                (path_join current_path name)) items) in
     let items' := display_items dirs files in
     (act (Table current_path (table_rows items')) ;;
      answer <- console_input AskChoice ;;
      let choice := strip (lower answer) in
      if String.eqb choice "q" then cret (Some None, current_path)
      else if String.eqb choice "g" then
        create_dummy_csv sys "replay_data.csv" ;; cret (None, current_path)
      else if String.eqb choice "h" then
        print_help_message ;; cret (None, current_path)
      else if negb (isdigit choice) then
        act (Say InvalidInput) ;; cret (None, current_path)
      else
        match int_of_str choice with
        | None => cfail ValueError
        | Some idx =>
            if negb ((0 <=? idx) && (idx <? Z.of_nat (List.length items'))) then
              act (Say IndexOutOfRange) ;; cret (None, current_path)
            else
              let '(selected_name, selected_type) :=
                nth (Z.to_nat idx) items' (EmptyString, EmptyString) in
              let selected_path := path_join current_path selected_name in
              if String.eqb selected_type "[dir]" then
                next_path <- os_abspath sys selected_path ;; cret (None, next_path)
              else if endswith selected_name ".csv" then
                act (Say (SelectedFile selected_path)) ;;
                cret (Some (Some selected_path), current_path)
              else
                act (Say (NotCsv selected_name)) ;; cret (None, current_path)
        end) d)%C.

(** The handler of the loop: [except Exception as e]. *)
Definition explorer_handler {fs : Type} (current_path : string) (e : failure)
    : C fs (option (option string) * string) :=
  (act (Say (ExplorerError e)) ;; cret (Some None, current_path))%C.

(** The [while True] loop of [file_explorer]; [fuel] bounds the turns
    followed (every turn that does not return reads one answer). *)
Fixpoint explorer_loop {fs : Type} (sys : system fs) (fuel : nat)
    (current_path : string) : C fs (option string) :=
  match fuel with
  | O => fun d => (d, Waiting)
  | S fuel' =>
      (turn <- try_catch is_ordinary (explorer_turn sys current_path)
                         (explorer_handler current_path) ;;
       match turn with
       | (Some result, _) => cret result
       | (None, next_path) => explorer_loop sys fuel' next_path
       end)%C
  end.

(** [file_explorer(console, start_path)]: there is a turn for every answer
    the user has typed, and one more. *)
Definition file_explorer {fs : Type} (sys : system fs) (start_path : string)
    : C fs (option string) :=
  (current_path <- os_abspath sys start_path ;;
   fun d => explorer_loop sys (S (List.length (keyboard d))) current_path d)%C.

(** ** The interactive command line *)

(** One turn of the loop that asks for the number of sensor topics:
    [Some n] when the loop ends with [n_sensors = n]. *)
Definition sensors_turn {fs : Type} : C fs (option Z) :=
  try_catch (fun e => match e with ValueError => true | _ => false end)
    (n_str <- console_input AskSensors ;;
     if String.eqb (strip n_str) EmptyString then
       act (Say (UsingDefault 4)) ;; cret (Some 4)
     else
       match int_of_str n_str with
       | None => cfail ValueError
       | Some n_sensors =>
           if 0 <? n_sensors then cret (Some n_sensors)
           else act (Say PleasePositive) ;; cret None
       end)%C
    (fun _ => act (Say InvalidInteger) ;; cret None)%C.

Fixpoint sensors_loop {fs : Type} (fuel : nat) : C fs Z :=
  match fuel with
  | O => fun d => (d, Waiting)
  | S fuel' =>
      (turn <- sensors_turn ;;
       match turn with
       | Some n_sensors => cret n_sensors
       | None => sensors_loop fuel'
       end)%C
  end.

(** [thread.join()]: the thread ends, unless the user interrupts the main
    thread first. *)
Definition join {fs : Type} (t : task) : C fs unit :=
  fun d =>
    match keyboard d with
    | CtrlC :: rest => (mkDesk (disk d) (done d) rest, Failed UserInterrupt)
    | _ => (mkDesk (disk d) (done d ++ [Join t]) (keyboard d), Returned tt)
    end.

(** Starting the two threads and waiting for them. *)
Definition run_threads {fs : Type} (rel_path : string) (loop_data : bool) (N : Z)
    (interrupted : notice) : C fs unit :=
  (act (Start (Publisher rel_path loop_data)) ;;
   act (Start (Subscriber N)) ;;
   try_catch (fun e => negb (is_ordinary e))
     (join (Publisher rel_path loop_data) ;; join (Subscriber N))
     (fun _ => act (Say interrupted)))%C.

(** [cli()]. *)
Definition cli {fs : Type} (sys : system fs) : C fs unit :=
  (act (Rule InteractiveMode) ;;
   act (Say Author) ;;
   act (Say Tip) ;;
   csv_path <- file_explorer sys "." ;;
   match csv_path with
   | None => act (Say NoFileSelected)
   | Some path =>
       if String.eqb path EmptyString then act (Say NoFileSelected)
       else
         answer <- console_input AskLoop ;;
         let should_loop := String.eqb (strip (lower answer)) "y" in
         n_sensors <- (fun d => sensors_loop (S (List.length (keyboard d))) d) ;;
         act (Rule (StartingReplay (basename path))) ;;
         run_threads path should_loop n_sensors CaughtInterrupt ;;
         act (Rule ProgramFinished)
   end)%C.

(** The command line arguments, as [argparse] returns them. *)
Record arguments : Type := mkArguments {
  file : option string;
  loop : bool;
  sensors : Z
}.

(** The main program: headless when a file is given, interactive
    otherwise. *)
Definition main {fs : Type} (sys : system fs) (args : arguments) : C fs unit :=
  match file args with
  | Some rel_path =>
      if String.eqb rel_path EmptyString then cli sys
      else
        (act (Say HeadlessRunning) ;;
         run_threads rel_path (loop args) (sensors args) HeadlessInterrupt ;;
         act (Say HeadlessFinished))%C
  | None => cli sys
  end.

(** The threads a run has started, in order. *)
Fixpoint started (acts : list action) : list task :=
  match acts with
  | [] => []
  | Start t :: rest => t :: started rest
  | _ :: rest => started rest
  end.

(** [main] runs headless: a file was given on the command line. *)
Definition headless (args : arguments) : bool :=
  match file args with
  | Some rel_path => negb (String.eqb rel_path EmptyString)
  | None => false
  end.

(** The number an answer to the question about the sensor topics stands
    for: 4 for a blank answer, the integer for a positive integer, none
    otherwise. *)
Definition sensors_answer (n_str : string) : option Z :=
  if String.eqb (strip n_str) EmptyString then Some 4
  else match int_of_str n_str with
       | Some n => if 0 <? n then Some n else None
       | None => None
       end.

(** What [cli] says of an answer it does not accept. *)
Definition sensors_complaint (n_str : string) : notice :=
  match int_of_str n_str with
  | Some _ => PleasePositive
  | None => InvalidInteger
  end.

(** A small system: one directory, [/], holding the file [log.csv] and
    the directory [data]; every write succeeds. *)
Definition toy_system : system unit :=
  mkSystem unit
    (fun _ => Some "/"%string)
    (fun _ path => if String.eqb path "/" then Some ["log.csv"; "data"]%string
                   else if String.eqb path "/data" then Some [] else None)
    (fun _ path => String.eqb path "/data")
    (fun _ path => String.eqb path "/log.csv")
    (fun _ _ _ _ => (tt, true)).

(** A desk with nothing done yet. *)
Definition toy_desk (keys : list keystroke) : desk unit := mkDesk tt [] keys.

(** A path holds no slash. *)
Definition slash_free (name : string) : bool :=
  negb (existsb (Ascii.eqb "/"%char) (list_ascii_of_string name)).

(** The name of a directory entry, as [os.listdir] gives them: not empty,
    without a slash, and neither [.] nor [..]. *)
Definition plain_name (name : string) : bool :=
  negb (String.eqb name EmptyString) && negb (String.eqb name ".")
  && negb (String.eqb name "..") && slash_free name.




(** ** What the front end writes *)

(** What a stretch of the program did to the file system, from the desk
    [d] to the desk [d']: it wrote no file but [replay_data.csv], and it
    left the file system as it was when it wrote none. *)
Definition only_dummy_written {fs : Type} (d d' : desk fs) : Prop :=
  exists acts,
    done d' = done d ++ acts /\
    (forall file_path,
        In (WriteCsv file_path) acts -> file_path = "replay_data.csv"%string) /\
    (~ In (WriteCsv "replay_data.csv") acts -> disk d' = disk d).

Definition writes_only_dummy {fs A : Type} (m : C fs A) : Prop :=
  forall d, only_dummy_written d (fst (m d)).


(** * Properties *)

(** ** Bytes and little-endian integers *)

Lemma Z_of_byte_range (b : byte) : 0 <= Z_of_byte b < 256.
Proof.
  unfold Z_of_byte. pose proof (Byte.to_N_bounded b). lia.
Qed.

Lemma byte_of_Z_of_byte (b : byte) : byte_of_Z (Z_of_byte b) = b.
Proof.
  unfold byte_of_Z, Z_of_byte.
  pose proof (Byte.to_N_bounded b) as Hb.
  rewrite Z.mod_small by lia.
  rewrite N2Z.id, Byte.of_to_N. reflexivity.
Qed.

Lemma Z_of_byte_of_Z (z : Z) : Z_of_byte (byte_of_Z z) = z mod 256.
Proof.
  unfold byte_of_Z, Z_of_byte.
  pose proof (Z.mod_pos_bound z 256 eq_refl) as Hz.
  destruct (Byte.of_N (Z.to_N (z mod 256))) as [b|] eqn:E.
  - apply Byte.to_of_N in E. rewrite E. lia.
  - apply Byte.of_N_None_iff in E. lia.
Qed.

Lemma le_bytes_length (n : nat) (z : Z) : List.length (le_bytes n z) = n.
Proof.
  revert z. induction n as [|n IH]; intros z; simpl; [reflexivity|].
  now rewrite IH.
Qed.

Lemma le_value_le_bytes (n : nat) (z : Z) :
  le_value (le_bytes n z) = z mod 2 ^ (8 * Z.of_nat n).
Proof.
  revert z. induction n as [|n IH]; intros z.
  - simpl. now rewrite Z.mod_1_r.
  - cbn [le_bytes le_value]. rewrite IH, Z_of_byte_of_Z.
    rewrite Z.mod_mod by lia.
    replace (8 * Z.of_nat (S n)) with (8 + 8 * Z.of_nat n) by lia.
    rewrite Z.pow_add_r by lia.
    change (2 ^ 8) with 256.
    rewrite Z.rem_mul_r by lia. reflexivity.
Qed.

Lemma le_value_range (bs : list byte) :
  0 <= le_value bs < 2 ^ (8 * Z.of_nat (List.length bs)).
Proof.
  induction bs as [|b bs IH].
  - simpl. lia.
  - cbn [le_value List.length].
    replace (8 * Z.of_nat (S (List.length bs)))
      with (8 + 8 * Z.of_nat (List.length bs)) by lia.
    rewrite Z.pow_add_r by lia. change (2 ^ 8) with 256.
    pose proof (Z_of_byte_range b). nia.
Qed.

Lemma le_bytes_le_value (bs : list byte) :
  le_bytes (List.length bs) (le_value bs) = bs.
Proof.
  induction bs as [|b bs IH]; [reflexivity|].
  cbn [le_value List.length le_bytes].
  pose proof (Z_of_byte_range b) as Hb.
  replace (Z_of_byte b + 256 * le_value bs)
    with (Z_of_byte b + le_value bs * 256) by lia.
  rewrite Z.mod_add, Z.div_add by lia.
  rewrite Z.mod_small, Z.div_small, Z.add_0_l by lia.
  now rewrite byte_of_Z_of_byte, IH.
Qed.

Lemma in_int32_spec (z : Z) : in_int32 z = true <-> - 2 ^ 31 <= z < 2 ^ 31.
Proof. unfold in_int32. rewrite andb_true_iff, Z.leb_le, Z.ltb_lt. tauto. Qed.

Lemma in_int64_spec (z : Z) : in_int64 z = true <-> - 2 ^ 63 <= z < 2 ^ 63.
Proof. unfold in_int64. rewrite andb_true_iff, Z.leb_le, Z.ltb_lt. tauto. Qed.

(** Two's complement on [w] bits and back. *)
Lemma signed_of_wrapped (w z u : Z) :
  0 < w -> - 2 ^ (w - 1) <= z < 2 ^ (w - 1) ->
  u = z mod 2 ^ w ->
  (if u <? 2 ^ (w - 1) then u else u - 2 ^ w) = z.
Proof.
  intros Hw Hz ->.
  assert (Hp : 2 ^ w = 2 * 2 ^ (w - 1)).
  { replace w with (1 + (w - 1)) at 1 by lia. rewrite Z.pow_add_r by lia. lia. }
  destruct (Z.ltb_spec z 0) as [Hneg | Hpos].
  - replace (z mod 2 ^ w) with (z + 2 ^ w).
    2:{ apply Z.mod_unique with (q := -1); lia. }
    destruct (Z.ltb_spec (z + 2 ^ w) (2 ^ (w - 1))); lia.
  - rewrite Z.mod_small by lia.
    destruct (Z.ltb_spec z (2 ^ (w - 1))); lia.
Qed.

Lemma unpack_i_le_bytes (z : Z) :
  in_int32 z = true -> unpack_i (le_bytes 4 (z mod 2 ^ 32)) = z.
Proof.
  intros Hz%in_int32_spec. unfold unpack_i.
  rewrite le_value_le_bytes. change (8 * Z.of_nat 4) with 32.
  rewrite Z.mod_mod by lia.
  apply (signed_of_wrapped 32); [lia | exact Hz | reflexivity].
Qed.

Lemma unpack_q_le_bytes (z : Z) :
  in_int64 z = true -> unpack_q (le_bytes 8 (z mod 2 ^ 64)) = z.
Proof.
  intros Hz%in_int64_spec. unfold unpack_q.
  rewrite le_value_le_bytes. change (8 * Z.of_nat 8) with 64.
  rewrite Z.mod_mod by lia.
  apply (signed_of_wrapped 64); [lia | exact Hz | reflexivity].
Qed.

(** ** Binary digits *)

Lemma digits2_pos_bounds (m : positive) :
  2 ^ (Zpos (digits2_pos m) - 1) <= Zpos m < 2 ^ Zpos (digits2_pos m).
Proof.
  induction m as [m IH|m IH|]; cbn [digits2_pos]; rewrite ?Pos2Z.inj_succ.
  - replace (Z.succ (Zpos (digits2_pos m)) - 1) with (Z.succ (Zpos (digits2_pos m) - 1)) by lia.
    rewrite !Z.pow_succ_r by lia. lia.
  - replace (Z.succ (Zpos (digits2_pos m)) - 1) with (Z.succ (Zpos (digits2_pos m) - 1)) by lia.
    rewrite !Z.pow_succ_r by lia. lia.
  - cbn. lia.
Qed.

Lemma Zdigits2_bounds (m : Z) :
  0 < m -> 0 < Zdigits2 m /\ 2 ^ (Zdigits2 m - 1) <= m < 2 ^ Zdigits2 m.
Proof.
  destruct m as [|p|p]; try lia. intros _. cbn [Zdigits2].
  split; [lia | apply digits2_pos_bounds].
Qed.

Lemma Zdigits2_unique (m k : Z) :
  0 < m -> 2 ^ (k - 1) <= m < 2 ^ k -> Zdigits2 m = k.
Proof.
  intros Hm Hk. destruct (Zdigits2_bounds m Hm) as [Hd Hb].
  assert (0 < k).
  { destruct (Z.ltb_spec 0 k); [assumption|].
    assert (2 ^ k <= 1); [|lia].
    destruct (Z.eq_dec k 0) as [->|]; [cbn; lia|].
    rewrite Z.pow_neg_r; lia. }
  destruct (Z.lt_trichotomy (Zdigits2 m) k) as [Hlt | [Heq | Hgt]]; [|assumption|].
  - assert (2 ^ Zdigits2 m <= 2 ^ (k - 1)) by (apply Z.pow_le_mono_r; lia). lia.
  - assert (2 ^ k <= 2 ^ (Zdigits2 m - 1)) by (apply Z.pow_le_mono_r; lia). lia.
Qed.

Lemma Zdigits2_div (m n : Z) :
  0 < m -> 0 <= n < Zdigits2 m ->
  0 < m / 2 ^ n /\ Zdigits2 (m / 2 ^ n) = Zdigits2 m - n.
Proof.
  intros Hm Hn. destruct (Zdigits2_bounds m Hm) as [Hd Hb].
  assert (Hp : 0 < 2 ^ n) by (apply Z.pow_pos_nonneg; lia).
  assert (Hlo : 2 ^ (Zdigits2 m - n - 1) <= m / 2 ^ n).
  { apply Z.div_le_lower_bound; [assumption|].
    rewrite <- Z.pow_add_r by lia.
    replace (n + (Zdigits2 m - n - 1)) with (Zdigits2 m - 1) by lia. lia. }
  assert (Hhi : m / 2 ^ n < 2 ^ (Zdigits2 m - n)).
  { apply Z.div_lt_upper_bound; [assumption|].
    rewrite <- Z.pow_add_r by lia.
    replace (n + (Zdigits2 m - n)) with (Zdigits2 m) by lia. lia. }
  assert (0 < 2 ^ (Zdigits2 m - n - 1)) by (apply Z.pow_pos_nonneg; lia).
  split; [lia|].
  apply Zdigits2_unique; [lia|]. split; [exact Hlo | exact Hhi].
Qed.

Lemma Zdigits2_div_small (m n : Z) :
  0 < m -> Zdigits2 m <= n -> m / 2 ^ n = 0.
Proof.
  intros Hm Hn. destruct (Zdigits2_bounds m Hm) as [Hd Hb].
  apply Z.div_small.
  assert (2 ^ Zdigits2 m <= 2 ^ n) by (apply Z.pow_le_mono_r; lia). lia.
Qed.

Lemma digits2_pos_shift (m d : positive) :
  Zpos (digits2_pos (Pos.iter xO m d)) = Zpos (digits2_pos m) + Zpos d.
Proof.
  induction d as [|d IH] using Pos.peano_ind.
  - cbn. lia.
  - rewrite Pos.iter_succ. cbn [digits2_pos]. rewrite Pos2Z.inj_succ, IH. lia.
Qed.

(** ** Shifting right *)

Lemma iter_pos_nat {A : Type} (f : A -> A) (p : positive) (x : A) :
  iter_pos f p x = Nat.iter (Pos.to_nat p) f x.
Proof.
  revert x. induction p as [p IH|p IH|]; intros x; cbn [iter_pos].
  - rewrite !IH, Pos2Nat.inj_xI, Nat.iter_succ_r.
    replace (2 * Pos.to_nat p)%nat with (Pos.to_nat p + Pos.to_nat p)%nat by lia.
    now rewrite Nat.iter_add.
  - rewrite !IH, Pos2Nat.inj_xO.
    replace (2 * Pos.to_nat p)%nat with (Pos.to_nat p + Pos.to_nat p)%nat by lia.
    now rewrite Nat.iter_add.
  - reflexivity.
Qed.

Lemma shr_1_m (mrs : shr_record) :
  0 <= shr_m mrs -> shr_m (shr_1 mrs) = shr_m mrs / 2.
Proof.
  destruct mrs as [m r s]. cbn [shr_m]. intros Hm.
  rewrite <- Z.div2_div.
  destruct m as [|[p|p|]|p]; try reflexivity; lia.
Qed.

Lemma shr_m_iter (n : nat) (mrs : shr_record) :
  0 <= shr_m mrs ->
  shr_m (Nat.iter n shr_1 mrs) = shr_m mrs / 2 ^ Z.of_nat n.
Proof.
  intros Hm. induction n as [|n IH].
  - cbn. now rewrite Z.div_1_r.
  - rewrite Nat.iter_succ, shr_1_m, IH.
    + rewrite Z.div_div by lia.
      now rewrite Nat2Z.inj_succ, Z.pow_succ_r, Z.mul_comm by lia.
    + rewrite IH. apply Z.div_pos; lia.
Qed.

Lemma shr_spec (mrs : shr_record) (e n : Z) :
  0 <= shr_m mrs ->
  shr_m (fst (shr mrs e n)) = shr_m mrs / 2 ^ Z.max 0 n /\
  snd (shr mrs e n) = e + Z.max 0 n.
Proof.
  intros Hm. destruct n as [|p|p]; cbn [shr fst snd].
  - cbn. rewrite Z.div_1_r. lia.
  - rewrite iter_pos_nat, shr_m_iter, positive_nat_Z by assumption.
    rewrite Z.max_r by lia. auto.
  - rewrite Z.max_l by lia. cbn. rewrite Z.div_1_r. lia.
Qed.

Lemma shr_1_exact (q : Z) :
  0 <= q ->
  shr_1 (Build_shr_record (2 * q) false false) = Build_shr_record q false false.
Proof. destruct q as [|p|p]; [reflexivity | reflexivity | lia]. Qed.

Lemma shr_iter_exact (n : nat) (q : Z) :
  0 <= q ->
  Nat.iter n shr_1 (Build_shr_record (q * 2 ^ Z.of_nat n) false false)
  = Build_shr_record q false false.
Proof.
  intros Hq. induction n as [|n IH].
  - cbn [Nat.iter]. now rewrite Z.mul_1_r.
  - rewrite Nat.iter_succ_r, Nat2Z.inj_succ, Z.pow_succ_r by lia.
    replace (q * (2 * 2 ^ Z.of_nat n)) with (2 * (q * 2 ^ Z.of_nat n)) by lia.
    rewrite shr_1_exact; [exact IH|].
    apply Z.mul_nonneg_nonneg; [lia | apply Z.pow_nonneg; lia].
Qed.

Lemma round_nearest_even_cases (m : Z) (l : location) :
  round_nearest_even m l = m \/ round_nearest_even m l = m + 1.
Proof.
  destruct l as [|[| |]]; cbn; auto. destruct (Z.even m); auto.
Qed.

(** ** Rounding to a binary format *)

Section Rounding.
Variables prec emax : Z.
Hypothesis prec_pos : 0 < prec.

Lemma shr_fexp_spec (m e : Z) (l : location) :
  0 <= m ->
  shr_m (fst (shr_fexp prec emax m e l))
  = m / 2 ^ Z.max 0 (fexp prec emax (Zdigits2 m + e) - e) /\
  snd (shr_fexp prec emax m e l) = e + Z.max 0 (fexp prec emax (Zdigits2 m + e) - e).
Proof.
  intros Hm. unfold shr_fexp.
  assert (Hr : shr_m (shr_record_of_loc m l) = m)
    by (destruct l as [|[| |]]; reflexivity).
  pose proof (shr_spec (shr_record_of_loc m l) e
                (fexp prec emax (Zdigits2 m + e) - e)) as H.
  rewrite Hr in H. apply H. exact Hm.
Qed.

(** After the first shift the exponent is [fexp] of the magnitude;
    rounding the shifted mantissa carries into one more bit at most, and
    the second shift leaves a canonical mantissa. *)
Lemma round_canonical (m e e1 m1' n2 : Z) :
  0 < m -> e1 = fexp prec emax (Zdigits2 m + e) -> e <= e1 ->
  (m1' = m / 2 ^ (e1 - e) \/ m1' = m / 2 ^ (e1 - e) + 1) ->
  n2 = Z.max 0 (fexp prec emax (Zdigits2 m1' + e1) - e1) ->
  0 < m1' ->
  (n2 = 0 \/ n2 = 1 /\ m1' = 2 ^ prec) /\
  0 < m1' / 2 ^ n2 /\
  fexp prec emax (Zdigits2 (m1' / 2 ^ n2) + (e1 + n2)) = e1 + n2.
Proof.
  intros Hm He1 He Hm1' Hn2 Hpos.
  set (emin := SpecFloat.emin prec emax) in *.
  assert (Hfexp : forall v, fexp prec emax v = Z.max (v - prec) emin)
    by reflexivity.
  rewrite Hfexp in He1.
  destruct (Z_lt_le_dec (e1 - e) (Zdigits2 m)) as [Hlt | Hge].
  - destruct (Zdigits2_div m (e1 - e) Hm) as [Hm1 Hd1]; [lia|].
    set (m1 := m / 2 ^ (e1 - e)) in *.
    set (k := Zdigits2 m - (e1 - e)) in *.
    destruct (Zdigits2_bounds m1 Hm1) as [_ Hb1]. rewrite Hd1 in Hb1.
    assert (Hk : 1 <= k <= prec) by lia.
    destruct (Z.eq_dec m1' (2 ^ k)) as [Heq | Hne].
    + assert (Hdk : Zdigits2 m1' = k + 1).
      { apply Zdigits2_unique; [lia|].
        replace (k + 1 - 1) with k by lia.
        rewrite Z.pow_add_r by lia. lia. }
      rewrite Hdk, Hfexp in Hn2.
      destruct (Z_le_gt_dec emin (Zdigits2 m + e - prec)) as [Hn | Hs].
      * assert (Hv : n2 = 1) by lia. clear Hn2. subst n2.
        assert (k = prec) by lia.
        assert (Hhalf : m1' / 2 ^ 1 = 2 ^ (k - 1)).
        { rewrite Heq, <- Z.pow_sub_r by lia. reflexivity. }
        assert (Hpk : 0 < 2 ^ (k - 1)) by (apply Z.pow_pos_nonneg; lia).
        assert (Hdh : Zdigits2 (2 ^ (k - 1)) = k).
        { apply Zdigits2_unique; [assumption|].
          split; [lia|]. apply Z.pow_lt_mono_r; lia. }
        rewrite Hhalf, Hdh, Hfexp.
        split; [right; split; [reflexivity | congruence] |].
        split; lia.
      * assert (Hv : n2 = 0) by lia. clear Hn2. subst n2.
        rewrite Z.pow_0_r, Z.div_1_r, Hdk, Hfexp.
        split; [left; reflexivity |]. split; lia.
    + assert (Hdk : Zdigits2 m1' = k) by (apply Zdigits2_unique; lia).
      rewrite Hdk, Hfexp in Hn2.
      assert (Hv : n2 = 0) by lia. clear Hn2. subst n2.
      rewrite Z.pow_0_r, Z.div_1_r, Hdk, Hfexp.
      split; [left; reflexivity |]. split; lia.
  - assert (Hz : m / 2 ^ (e1 - e) = 0) by (apply Zdigits2_div_small; lia).
    destruct (Zdigits2_bounds m Hm) as [Hd _].
    rewrite Hz in Hm1'.
    assert (m1' = 1) by lia. subst m1'.
    change (Zdigits2 1) with 1 in *. rewrite Hfexp in Hn2.
    assert (Hv : n2 = 0) by lia. clear Hn2. subst n2.
    rewrite Z.pow_0_r, Z.div_1_r. change (Zdigits2 1) with 1.
    rewrite Hfexp.
    split; [left; reflexivity |]. split; lia.
Qed.

(** The two shifts of [binary_round_aux], in arithmetic. *)
Lemma binary_round_aux_shifts (m e : Z) (l : location) :
  0 < m -> e <= fexp prec emax (Zdigits2 m + e) ->
  forall mrs1 e1 mrs2 e2,
    shr_fexp prec emax m e l = (mrs1, e1) ->
    shr_fexp prec emax
      (round_nearest_even (shr_m mrs1) (loc_of_shr_record mrs1)) e1 loc_Exact
    = (mrs2, e2) ->
    let m1' := round_nearest_even (shr_m mrs1) (loc_of_shr_record mrs1) in
    e1 = fexp prec emax (Zdigits2 m + e) /\
    shr_m mrs1 = m / 2 ^ (e1 - e) /\
    (0 < m1' ->
     (e2 = e1 /\ shr_m mrs2 = m1' \/
      e2 = e1 + 1 /\ m1' = 2 ^ prec /\ shr_m mrs2 = 2 ^ (prec - 1)) /\
     0 < shr_m mrs2 /\
     fexp prec emax (Zdigits2 (shr_m mrs2) + e2) = e2) /\
    (m1' = 0 -> shr_m mrs2 = 0).
Proof.
  intros Hm He mrs1 e1 mrs2 e2 E1 E2 m1'.
  destruct (shr_fexp_spec m e l) as [Hm1 He1]; [lia|].
  rewrite E1 in Hm1, He1. cbn [fst snd] in Hm1, He1.
  rewrite Z.max_r in Hm1, He1 by lia.
  assert (He1' : e1 = fexp prec emax (Zdigits2 m + e)) by lia.
  replace (fexp prec emax (Zdigits2 m + e) - e) with (e1 - e) in Hm1 by lia.
  assert (Hr : m1' = m / 2 ^ (e1 - e) \/ m1' = m / 2 ^ (e1 - e) + 1).
  { rewrite <- Hm1. apply round_nearest_even_cases. }
  assert (Hnn : 0 <= m1').
  { assert (0 <= m / 2 ^ (e1 - e)) by (apply Z.div_pos; lia). lia. }
  destruct (shr_fexp_spec m1' e1 loc_Exact Hnn) as [Hm2 He2].
  fold m1' in E2. rewrite E2 in Hm2, He2. cbn [fst snd] in Hm2, He2.
  split; [exact He1'|]. split; [exact Hm1|]. split.
  - intros Hpos.
    destruct (round_canonical m e e1 m1'
                (Z.max 0 (fexp prec emax (Zdigits2 m1' + e1) - e1)))
      as [Hc [Hp Hf]]; try assumption; try reflexivity; [lia|].
    rewrite <- Hm2, <- He2 in Hf. rewrite <- Hm2 in Hp.
    split; [|split; assumption].
    destruct Hc as [Hc | [Hc Hpw]]; rewrite Hc in *.
    + left. rewrite Z.pow_0_r, Z.div_1_r in Hm2. split; [lia | exact Hm2].
    + right. split; [lia|]. split; [exact Hpw|].
      rewrite Hm2, Hpw, <- Z.pow_sub_r by lia. reflexivity.
  - intros Hz. rewrite Hm2, Hz. apply Z.div_0_l.
    apply Z.pow_nonzero; lia.
Qed.

Lemma binary_round_aux_valid (s : bool) (m e : Z) (l : location) :
  0 < m -> e <= fexp prec emax (Zdigits2 m + e) ->
  valid_binary prec emax (binary_round_aux prec emax s m e l) = true.
Proof.
  intros Hm He. unfold binary_round_aux.
  destruct (shr_fexp prec emax m e l) as [mrs1 e1] eqn:E1.
  destruct (shr_fexp prec emax
              (round_nearest_even (shr_m mrs1) (loc_of_shr_record mrs1))
              e1 loc_Exact) as [mrs2 e2] eqn:E2.
  destruct (binary_round_aux_shifts m e l Hm He _ _ _ _ E1 E2)
    as [He1 [Hm1 [Hpos Hzero]]].
  destruct (shr_m mrs2) as [|p|p] eqn:Ep; try reflexivity.
  destruct (Z.leb_spec e2 (emax - prec)) as [Hle | Hgt]; [|reflexivity].
  cbn [valid_binary]. unfold bounded, canonical_mantissa.
  apply andb_true_intro. split; [|apply Z.leb_le; exact Hle].
  apply Z.eqb_eq.
  assert (Hnn : 0 <= round_nearest_even (shr_m mrs1) (loc_of_shr_record mrs1)).
  { assert (0 <= m / 2 ^ (e1 - e)) by (apply Z.div_pos; lia).
    destruct (round_nearest_even_cases (shr_m mrs1) (loc_of_shr_record mrs1));
      lia. }
  destruct (Z.eq_dec (round_nearest_even (shr_m mrs1) (loc_of_shr_record mrs1)) 0)
    as [Hz | Hnz].
  - apply Hzero in Hz. discriminate.
  - destruct Hpos as [_ [_ Hf]]; [lia|]. exact Hf.
Qed.

Lemma shl_align_fexp_spec (m : positive) (e : Z) :
  let '(mz, ez) := shl_align m e (fexp prec emax (Zpos (digits2_pos m) + e)) in
  ez <= fexp prec emax (Zpos (digits2_pos mz) + ez).
Proof.
  unfold shl_align.
  destruct (fexp prec emax (Zpos (digits2_pos m) + e) - e) as [|d|d] eqn:Ed; try lia.
  rewrite digits2_pos_shift.
  replace (Zpos (digits2_pos m) + Zpos d + fexp prec emax (Zpos (digits2_pos m) + e))
    with (Zpos (digits2_pos m) + e) by lia.
  lia.
Qed.

Lemma binary_round_valid (s : bool) (m : positive) (e : Z) :
  valid_binary prec emax (binary_round prec emax s m e) = true.
Proof.
  unfold binary_round.
  pose proof (shl_align_fexp_spec m e) as H.
  destruct (shl_align m e (fexp prec emax (Zpos (digits2_pos m) + e))) as [mz ez].
  apply binary_round_aux_valid; [lia | exact H].
Qed.

(** Rounding a value that is already in the format returns it. *)
Lemma binary_round_aux_canonical (s : bool) (m : positive) (e : Z) :
  bounded prec emax m e = true ->
  binary_round_aux prec emax s (Zpos m) e loc_Exact = S754_finite s m e.
Proof.
  unfold bounded, canonical_mantissa.
  intros [Hc Hb]%andb_prop. apply Z.eqb_eq in Hc.
  unfold binary_round_aux, shr_fexp. cbn [Zdigits2].
  rewrite Hc, Z.sub_diag. cbn [shr_record_of_loc shr shr_m loc_of_shr_record round_nearest_even].
  cbn [Zdigits2]. rewrite Hc, Z.sub_diag. cbn [shr shr_m].
  now rewrite Hb.
Qed.

Lemma binary_round_shifted (s : bool) (m k : positive) (e : Z) :
  bounded prec emax m e = true ->
  binary_round prec emax s (Pos.iter xO m k) (e - Zpos k) = S754_finite s m e.
Proof.
  intros Hv. pose proof Hv as Hv'.
  unfold bounded, canonical_mantissa in Hv'.
  apply andb_prop in Hv' as [Hc Hb]. apply Z.eqb_eq in Hc.
  unfold binary_round.
  rewrite digits2_pos_shift.
  replace (Zpos (digits2_pos m) + Zpos k + (e - Zpos k))
    with (Zpos (digits2_pos m) + e) by lia.
  rewrite Hc. unfold shl_align.
  replace (e - (e - Zpos k)) with (Zpos k) by lia.
  unfold binary_round_aux, shr_fexp. cbn [Zdigits2].
  rewrite digits2_pos_shift.
  replace (Zpos (digits2_pos m) + Zpos k + (e - Zpos k))
    with (Zpos (digits2_pos m) + e) by lia.
  rewrite Hc.
  replace (e - (e - Zpos k)) with (Zpos k) by lia.
  cbn [shr_record_of_loc shr].
  rewrite iter_pos_nat.
  assert (Hs : Zpos (Pos.iter xO m k) = Zpos m * 2 ^ Z.of_nat (Pos.to_nat k)).
  { rewrite positive_nat_Z. clear.
    induction k as [|k IH] using Pos.peano_ind.
    - cbn. lia.
    - rewrite Pos.iter_succ, Pos2Z.inj_xO, IH, Pos2Z.inj_succ, Z.pow_succ_r; lia. }
  rewrite Hs, shr_iter_exact by lia.
  cbn [shr_m loc_of_shr_record round_nearest_even Zdigits2].
  replace (e - Zpos k + Zpos k) with e by lia.
  rewrite Hc, Z.sub_diag. cbn [shr shr_m].
  now rewrite Hb.
Qed.
End Rounding.

(** ** binary32 *)

Lemma bounded_b32_inv (m : positive) (e : Z) :
  bounded 24 128 m e = true ->
  - 149 <= e <= 104 /\
  (Zpos m < 2 ^ 23 /\ e = - 149 \/ 2 ^ 23 <= Zpos m < 2 ^ 24).
Proof.
  unfold bounded, canonical_mantissa, fexp, emin.
  intros [Hc Hb]%andb_prop. apply Z.eqb_eq in Hc. apply Z.leb_le in Hb.
  pose proof (digits2_pos_bounds m) as Hd.
  set (d := Zpos (digits2_pos m)) in *.
  assert (Hd0 : 0 < d) by (unfold d; lia).
  split; [lia|].
  destruct (Z_lt_le_dec d 24) as [Hlt | Hge].
  - left. split; [|lia].
    assert (2 ^ d <= 2 ^ 23) by (apply Z.pow_le_mono_r; lia). lia.
  - right. assert (d = 24) by lia.
    replace d with 24 in Hd by lia. change (24 - 1) with 23 in Hd. lia.
Qed.

Lemma float_cast_valid (x : pyfloat) : valid_b32 (float_cast x) = true.
Proof.
  destruct x as [s|s| |s m e]; try reflexivity.
  apply binary_round_valid. lia.
Qed.

Lemma sign_bit_cases (s : bool) : sign_bit s = 0 \/ sign_bit s = 2 ^ 31.
Proof. destruct s; cbn; auto. Qed.

Lemma sign_bit_test (s : bool) (v : Z) :
  0 <= v < 2 ^ 31 -> (2 ^ 31 <=? sign_bit s + v) = s.
Proof.
  intros Hv. destruct s; cbn [sign_bit].
  - apply Z.leb_le. lia.
  - apply Z.leb_gt. lia.
Qed.

Lemma bits_of_b32_range (y : spec_float) :
  valid_b32 y = true -> 0 <= bits_of_b32 y < 2 ^ 32.
Proof.
  destruct y as [s|s| |s m e]; cbn [bits_of_b32 valid_b32 valid_binary].
  - intros _. destruct s; cbn; lia.
  - intros _. destruct s; cbn; lia.
  - intros _. cbn. lia.
  - intros [He Hm]%bounded_b32_inv.
    change (2 ^ 23) with 8388608 in *. change (2 ^ 24) with 16777216 in *.
    change (2 ^ 32) with 4294967296.
    destruct (sign_bit_cases s) as [-> | ->]; change (2 ^ 31) with 2147483648;
      destruct (Z.ltb_spec (Z.pos m) 8388608); lia.
Qed.

Lemma b32_of_bits_of_b32 (y : spec_float) :
  valid_b32 y = true -> b32_of_bits (bits_of_b32 y) = y.
Proof.
  destruct y as [s|s| |s m e]; cbn [bits_of_b32 valid_b32 valid_binary].
  - intros _. destruct s; reflexivity.
  - intros _. destruct s; reflexivity.
  - intros _. reflexivity.
  - intros [He Hm]%bounded_b32_inv.
    unfold b32_of_bits.
    change (2 ^ 23) with 8388608 in *. change (2 ^ 24) with 16777216 in *.
    destruct (Z.ltb_spec (Z.pos m) 8388608) as [Hsub | Hnorm].
    + rewrite sign_bit_test by (change (2 ^ 31) with 2147483648; lia).
      assert (Hex : ((sign_bit s + Z.pos m) / 8388608) mod 256 = 0).
      { destruct (sign_bit_cases s) as [-> | ->];
          change (2 ^ 31) with 2147483648;
          Z.div_mod_to_equations; lia. }
      assert (Hfr : (sign_bit s + Z.pos m) mod 8388608 = Z.pos m).
      { destruct (sign_bit_cases s) as [-> | ->];
          change (2 ^ 31) with 2147483648;
          Z.div_mod_to_equations; lia. }
      rewrite Hex, Hfr. cbn [Z.eqb].
      destruct Hm as [[_ ->] | Hm]; [reflexivity | lia].
    + destruct Hm as [[Hm _] | Hm]; [lia|].
      rewrite <- Z.add_assoc.
      rewrite sign_bit_test by (change (2 ^ 31) with 2147483648; lia).
      assert (Hex : ((sign_bit s + ((e + 149) * 8388608 + Z.pos m)) / 8388608) mod 256
                    = e + 150).
      { destruct (sign_bit_cases s) as [-> | ->];
          change (2 ^ 31) with 2147483648;
          Z.div_mod_to_equations; lia. }
      assert (Hfr : (sign_bit s + ((e + 149) * 8388608 + Z.pos m)) mod 8388608
                    = Z.pos m - 8388608).
      { destruct (sign_bit_cases s) as [-> | ->];
          change (2 ^ 31) with 2147483648;
          Z.div_mod_to_equations; lia. }
      rewrite Hex, Hfr.
      destruct (Z.eqb_spec (e + 150) 0); [lia|].
      destruct (Z.eqb_spec (e + 150) 255); [lia|].
      replace (Z.pos m - 8388608 + 8388608) with (Z.pos m) by lia.
      replace (e + 150 - 150) with e by lia.
      reflexivity.
Qed.

(** ** binary64 values of binary32 frames *)

Lemma double_cast_finite (s : bool) (m : positive) (e : Z) :
  bounded 24 128 m e = true ->
  exists p : positive,
    double_cast (S754_finite s m e) = S754_finite s (Pos.iter xO m p) (e - Zpos p).
Proof.
  intros Hv. pose proof Hv as Hv'.
  unfold bounded, canonical_mantissa, fexp, emin in Hv'.
  apply andb_prop in Hv' as [Hc Hb]. apply Z.eqb_eq in Hc. apply Z.leb_le in Hb.
  cbn [double_cast]. unfold binary_round, shl_align.
  set (d := Zpos (digits2_pos m)) in *.
  assert (Hd0 : 0 < d) by (unfold d; lia).
  assert (Hf : fexp 53 1024 (d + e) = d + e - 53) by (unfold fexp, emin; lia).
  rewrite Hf.
  destruct (d + e - 53 - e) as [|p|p] eqn:Ep; try lia.
  exists p.
  replace (d + e - 53) with (e - Zpos p) by lia.
  apply binary_round_aux_canonical.
  unfold bounded, canonical_mantissa.
  rewrite digits2_pos_shift. fold d.
  replace (d + Zpos p + (e - Zpos p)) with (d + e) by lia.
  rewrite Hf.
  apply andb_true_intro. split; [apply Z.eqb_eq | apply Z.leb_le]; lia.
Qed.

(** Widening a binary32 value and converting it back is the identity. *)
Lemma float_cast_double_cast (y : spec_float) :
  valid_b32 y = true -> float_cast (double_cast y) = y.
Proof.
  destruct y as [s|s| |s m e]; try reflexivity.
  cbn [valid_b32 valid_binary]. intros Hv.
  destruct (double_cast_finite s m e Hv) as [p ->].
  cbn [float_cast]. now apply binary_round_shifted.
Qed.

Lemma is_infinity_double_cast (y : spec_float) :
  valid_b32 y = true -> is_infinity (double_cast y) = is_infinity y.
Proof.
  destruct y as [s|s| |s m e]; try reflexivity.
  cbn [valid_b32 valid_binary]. intros Hv.
  destruct (double_cast_finite s m e Hv) as [p ->]. reflexivity.
Qed.

(** Decoding the frame of a float yields the float rounded to binary32. *)
Lemma PyFloat_Unpack4_bits (x : pyfloat) :
  PyFloat_Unpack4 (bits_of_b32 (float_cast x)) = double_cast (float_cast x).
Proof.
  unfold PyFloat_Unpack4. now rewrite b32_of_bits_of_b32 by apply float_cast_valid.
Qed.

(** ** The overflow threshold of binary32 *)

Lemma shr_1_r (mrs : shr_record) :
  0 <= shr_m mrs -> shr_r (shr_1 mrs) = Z.odd (shr_m mrs).
Proof.
  destruct mrs as [m r s]. cbn [shr_m].
  destruct m as [|[p|p|]|p]; try reflexivity; lia.
Qed.

Lemma shr_r_iter (n : nat) (m : Z) :
  0 <= m ->
  shr_r (Nat.iter (S n) shr_1 (Build_shr_record m false false))
  = Z.odd (m / 2 ^ Z.of_nat n).
Proof.
  intros Hm. rewrite Nat.iter_succ.
  pose proof (shr_m_iter n (Build_shr_record m false false) Hm) as Hq.
  cbn [shr_m] in Hq.
  rewrite shr_1_r, Hq; [reflexivity|].
  rewrite Hq. apply Z.div_pos; [lia | apply Z.pow_pos_nonneg; lia].
Qed.

Lemma shr_fexp_r (prec emax m e : Z) :
  0 <= m -> 0 < fexp prec emax (Zdigits2 m + e) - e ->
  shr_r (fst (shr_fexp prec emax m e loc_Exact))
  = Z.odd (m / 2 ^ (fexp prec emax (Zdigits2 m + e) - e - 1)).
Proof.
  intros Hm Hn. unfold shr_fexp.
  destruct (fexp prec emax (Zdigits2 m + e) - e) as [|p|p]; try lia.
  cbn [shr fst shr_record_of_loc]. rewrite iter_pos_nat.
  destruct (Pos2Nat.is_succ p) as [k Hk]. rewrite Hk, shr_r_iter by exact Hm.
  replace (Z.of_nat k) with (Zpos p - 1) by lia. reflexivity.
Qed.

Lemma round_nearest_even_odd (mrs : shr_record) :
  Z.odd (shr_m mrs) = true ->
  round_nearest_even (shr_m mrs) (loc_of_shr_record mrs)
  = shr_m mrs + (if shr_r mrs then 1 else 0).
Proof.
  destruct mrs as [q r s]. cbn [shr_m shr_r]. intros Hodd.
  destruct r, s; cbn [loc_of_shr_record round_nearest_even]; try lia.
  rewrite <- Z.negb_odd, Hodd. reflexivity.
Qed.

Lemma bounded_b64_inv (m : positive) (e : Z) :
  bounded 53 1024 m e = true ->
  - 1074 <= e <= 971 /\
  (Zpos (digits2_pos m) = 53 \/ Zpos (digits2_pos m) < 53 /\ e = - 1074).
Proof.
  unfold bounded, canonical_mantissa, fexp, emin.
  intros [Hc Hb]%andb_prop. apply Z.eqb_eq in Hc. apply Z.leb_le in Hb.
  assert (0 < Zpos (digits2_pos m)) by lia. lia.
Qed.

(** A finite binary64 value overflows binary32 exactly from
    [2^128 - 2^103 = (2^53 - 2^28) * 2^75] on. *)
Lemma fits_f32_finite (s : bool) (m : positive) (e : Z) :
  bounded 53 1024 m e = true ->
  fits_f32 (S754_finite s m e) = below_f32_overflow (S754_finite s m e).
Proof.
  intros Hv. destruct (bounded_b64_inv m e Hv) as [He Hd].
  unfold fits_f32, below_f32_overflow.
  cbn [float_cast is_infinity negb]. rewrite andb_true_r.
  pose proof (digits2_pos_bounds m) as Hb.
  set (d := Zpos (digits2_pos m)) in *.
  assert (Hf : fexp 24 128 (d + e) = Z.max (d + e - 24) (- 149)) by reflexivity.
  assert (Hsh : e < fexp 24 128 (d + e)) by lia.
  unfold binary_round, shl_align. fold d.
  destruct (fexp 24 128 (d + e) - e) as [|n|n] eqn:En; try lia.
  unfold binary_round_aux.
  destruct (shr_fexp 24 128 (Zpos m) e loc_Exact) as [mrs1 e1] eqn:E1.
  destruct (shr_fexp 24 128
              (round_nearest_even (shr_m mrs1) (loc_of_shr_record mrs1))
              e1 loc_Exact) as [mrs2 e2] eqn:E2.
  assert (Hm0 : 0 < Zpos m) by lia.
  assert (He0 : e <= fexp 24 128 (Zdigits2 (Zpos m) + e))
    by (cbn [Zdigits2]; fold d; lia).
  destruct (binary_round_aux_shifts 24 128 ltac:(lia) (Zpos m) e loc_Exact
              Hm0 He0 mrs1 e1 mrs2 e2 E1 E2) as [He1 [Hm1 [Hpos Hzero]]].
  cbn [Zdigits2] in He1. fold d in He1.
  set (m1' := round_nearest_even (shr_m mrs1) (loc_of_shr_record mrs1)) in *.
  assert (Hq : 0 <= shr_m mrs1).
  { rewrite Hm1. apply Z.div_pos; [lia | apply Z.pow_pos_nonneg; lia]. }
  assert (Hr : m1' = shr_m mrs1 \/ m1' = shr_m mrs1 + 1)
    by apply round_nearest_even_cases.
  destruct (Z.ltb_spec e 75) as [Hlt | Hge]; cbn [orb].
  - (* magnitude below 2^127: the rounded exponent stays in range *)
    destruct (Z.eq_dec m1' 0) as [Hz | Hnz].
    + rewrite (Hzero Hz). reflexivity.
    + destruct Hpos as [Hc [Hp _]]; [lia|].
      destruct (shr_m mrs2) as [|p|p]; try lia.
      assert (e2 <= 104) by lia.
      destruct (Z.leb_spec e2 (128 - 24)); [reflexivity | lia].
  - assert (Hd53 : d = 53) by lia.
    assert (He1v : e1 = e + 29) by lia.
    assert (Hm1v : shr_m mrs1 = Zpos m / 2 ^ 29).
    { rewrite Hm1. f_equal. f_equal. lia. }
    rewrite Hd53 in Hb. change (53 - 1) with 52 in Hb.
    change (2 ^ 52) with 4503599627370496 in Hb.
    change (2 ^ 53) with 9007199254740992 in Hb.
    change (2 ^ 29) with 536870912 in Hm1v.
    assert (Hq1 : 2 ^ 23 <= shr_m mrs1 < 2 ^ 24).
    { rewrite Hm1v. change (2 ^ 23) with 8388608. change (2 ^ 24) with 16777216.
      Z.div_mod_to_equations. lia. }
    destruct Hpos as [Hc [Hp Hcan]]; [lia|].
    destruct (Z.eqb_spec e 75) as [He75 | Hne]; cbn [andb].
    + (* magnitude in [2^127, 2^128): overflow iff the mantissa rounds up
         to 2^24 *)
      assert (Hrb : shr_r mrs1 = Z.odd (Zpos m / 2 ^ 28)).
      { pose proof (shr_fexp_r 24 128 (Zpos m) e ltac:(lia)) as H.
        cbn [Zdigits2] in H. fold d in H. rewrite E1 in H. cbn [fst] in H.
        rewrite H by lia. f_equal. f_equal. f_equal. lia. }
      change (2 ^ 28) with 268435456 in Hrb.
      change (2 ^ 53 - 2 ^ 28) with 9007198986305536.
      change (2 ^ 23) with 8388608 in *. change (2 ^ 24) with 16777216 in *.
      destruct (Z.ltb_spec (Zpos m) 9007198986305536) as [Hsmall | Hbig].
      * (* no carry *)
        assert (Hno : m1' <> 16777216).
        { intros Hcarry.
          assert (Hq2 : shr_m mrs1 = 16777215) by lia.
          assert (Hodd : Z.odd (shr_m mrs1) = true) by (rewrite Hq2; reflexivity).
          pose proof (round_nearest_even_odd mrs1 Hodd) as Hup.
          fold m1' in Hup.
          destruct (shr_r mrs1) eqn:Er; [|lia].
          symmetry in Hrb. apply Z.odd_spec in Hrb. destruct Hrb as [c Hc'].
          rewrite Hm1v in Hq2.
          Z.div_mod_to_equations. lia. }
        destruct Hc as [[He2 _] | [_ [Hcarry _]]]; [|contradiction].
        destruct (shr_m mrs2) as [|p|p]; try lia.
        destruct (Z.leb_spec e2 (128 - 24)); [reflexivity | lia].
      * (* carry into 2^24, hence into the exponent of the infinities *)
        assert (Hq2 : shr_m mrs1 = 16777215).
        { rewrite Hm1v. Z.div_mod_to_equations. lia. }
        assert (Hodd : Z.odd (shr_m mrs1) = true) by (rewrite Hq2; reflexivity).
        pose proof (round_nearest_even_odd mrs1 Hodd) as Hup.
        fold m1' in Hup.
        assert (Er : shr_r mrs1 = true).
        { rewrite Hrb. apply Z.odd_spec.
          exists 16777215. Z.div_mod_to_equations. lia. }
        rewrite Er, Hq2 in Hup. change (16777215 + 1) with (2 ^ 24) in Hup.
        destruct Hc as [[He2 Hm2] | [He2 _]].
        -- exfalso. rewrite Hm2, Hup in Hcan.
           change (Zdigits2 (2 ^ 24)) with 25 in Hcan.
           unfold fexp, emin in Hcan. lia.
        -- destruct (shr_m mrs2) as [|p|p]; try lia.
           destruct (Z.leb_spec e2 (128 - 24)); [lia | reflexivity].
    + (* magnitude from 2^128 on *)
      destruct (shr_m mrs2) as [|p|p]; try lia.
      destruct (Z.leb_spec e2 (128 - 24)); [lia | reflexivity].
Qed.

Lemma fits_f32_spec (x : pyfloat) :
  valid_binary 53 1024 x = true -> fits_f32 x = below_f32_overflow x.
Proof.
  destruct x as [s|s| |s m e]; try reflexivity.
  apply fits_f32_finite.
Qed.

(** ** Byte order, and the threshold as a magnitude *)

Lemma byte_of_Z_mod (z : Z) : byte_of_Z (z mod 256) = byte_of_Z z.
Proof. unfold byte_of_Z. now rewrite Z.mod_mod by lia. Qed.

(** Little-endian: byte [k] of a field carries the bits [8k .. 8k+7]. *)
Lemma le_bytes_nth (n k : nat) (v : Z) :
  (k < n)%nat ->
  nth k (le_bytes n v) Byte.x00 = byte_of_Z (v / 256 ^ Z.of_nat k).
Proof.
  revert k v. induction n as [|n IH]; intros k v Hk; [lia|].
  destruct k as [|k]; cbn [le_bytes nth].
  - now rewrite byte_of_Z_mod, Z.div_1_r.
  - rewrite IH by lia. rewrite Z.div_div by lia.
    now rewrite Nat2Z.inj_succ, Z.pow_succ_r by lia.
Qed.

(** In magnitude: a binary64 value with a non-negative exponent is below
    the overflow threshold exactly when it is below [2^128 - 2^103]. *)
Lemma below_f32_overflow_magnitude (s : bool) (m : positive) (e : Z) :
  bounded 53 1024 m e = true -> 0 <= e ->
  below_f32_overflow (S754_finite s m e) = true <->
  Zpos m * 2 ^ e < 2 ^ 128 - 2 ^ 103.
Proof.
  intros Hv He. destruct (bounded_b64_inv m e Hv) as [_ [Hd | [_ Hd]]]; [|lia].
  pose proof (digits2_pos_bounds m) as Hb. rewrite Hd in Hb.
  change (53 - 1) with 52 in Hb.
  cbn [below_f32_overflow].
  assert (H75 : 2 ^ 128 - 2 ^ 103 = (2 ^ 53 - 2 ^ 28) * 2 ^ 75) by reflexivity.
  rewrite orb_true_iff, andb_true_iff, Z.ltb_lt, Z.eqb_eq, Z.ltb_lt.
  split.
  - intros [Hlt | [-> Hm]].
    + assert (2 ^ e <= 2 ^ 74) by (apply Z.pow_le_mono_r; lia).
      assert (0 < 2 ^ e) by (apply Z.pow_pos_nonneg; lia).
      assert (Zpos m * 2 ^ e <= Zpos m * 2 ^ 74) by (apply Z.mul_le_mono_nonneg_l; lia).
      assert (Zpos m * 2 ^ 74 < 2 ^ 53 * 2 ^ 74) by (apply Z.mul_lt_mono_pos_r; lia).
      change (2 ^ 53 * 2 ^ 74) with (2 ^ 127) in *.
      assert (2 ^ 127 < 2 ^ 128 - 2 ^ 103) by reflexivity. lia.
    + rewrite H75. apply Z.mul_lt_mono_pos_r; lia.
  - intros Hlt.
    destruct (Z_lt_le_dec e 75) as [|Hge]; [now left|]. right.
    destruct (Z.eq_dec e 75) as [->|Hne].
    + split; [reflexivity|]. rewrite H75 in Hlt.
      apply Z.mul_lt_mono_pos_r in Hlt; lia.
    + exfalso.
      assert (2 ^ 76 <= 2 ^ e) by (apply Z.pow_le_mono_r; lia).
      assert (2 ^ 52 * 2 ^ 76 <= Zpos m * 2 ^ e) by (apply Z.mul_le_mono_nonneg; lia).
      change (2 ^ 52 * 2 ^ 76) with (2 ^ 128) in *.
      assert (0 < 2 ^ 103) by reflexivity. lia.
Qed.

(** ** The encoder, case by case *)

Lemma pack_f_fits (x : pyfloat) :
  pack_f x = if fits_f32 x then Ok (le_bytes 4 (bits_of_b32 (float_cast x)))
             else Raise OverflowError.
Proof.
  unfold pack_f, PyFloat_Pack4, fits_f32.
  destruct (is_infinity (float_cast x) && negb (is_infinity x)); reflexivity.
Qed.

Lemma pack_sensor_data_well_formed (row : Row.t) :
  well_formed row = true -> pack_sensor_data row = Ok (frame_of row).
Proof.
  unfold well_formed, floats, pack_sensor_data, frame_of, pack_i, pack_q.
  cbn [forallb]. rewrite !andb_true_iff.
  intros [[Hi Hq] [Hx [Hy [Hz [Hqw [Hqx [Hqy [Hqz _]]]]]]]].
  rewrite Hi, Hq, !pack_f_fits, Hx, Hy, Hz, Hqw, Hqx, Hqy, Hqz.
  reflexivity.
Qed.

Lemma pack_sensor_data_ints (row : Row.t) :
  in_int32 (Row.sensor_id row) && in_int64 (Row.time row) = false ->
  pack_sensor_data row = Raise StructError.
Proof.
  unfold pack_sensor_data, pack_i, pack_q.
  destruct (in_int32 (Row.sensor_id row)); [|reflexivity].
  destruct (in_int64 (Row.time row)); [discriminate | reflexivity].
Qed.

Lemma pack_sensor_data_floats (row : Row.t) :
  in_int32 (Row.sensor_id row) && in_int64 (Row.time row) = true ->
  forallb fits_f32 (floats row) = false ->
  pack_sensor_data row = Raise OverflowError.
Proof.
  unfold pack_sensor_data, pack_i, pack_q, floats. cbn [forallb].
  intros [-> ->]%andb_prop. rewrite !pack_f_fits. cbn [rbind].
  destruct (fits_f32 (Row.x row)); [|reflexivity].
  destruct (fits_f32 (Row.y row)); [|reflexivity].
  destruct (fits_f32 (Row.z row)); [|reflexivity].
  destruct (fits_f32 (Row.qw row)); [|reflexivity].
  destruct (fits_f32 (Row.qx row)); [|reflexivity].
  destruct (fits_f32 (Row.qy row)); [|reflexivity].
  destruct (fits_f32 (Row.qz row)); [discriminate | reflexivity].
Qed.

Lemma frame_of_length (row : Row.t) : List.length (frame_of row) = 40%nat.
Proof.
  unfold frame_of. rewrite !length_app, !le_bytes_length. reflexivity.
Qed.

(** ** Slices of a concatenation *)

Lemma slice_app_take (a rest : list byte) (hi : nat) :
  List.length a = hi -> slice 0 hi (a ++ rest) = a.
Proof.
  intros <-. unfold slice. cbn [skipn]. rewrite Nat.sub_0_r.
  rewrite firstn_app, Nat.sub_diag, firstn_all. cbn. apply app_nil_r.
Qed.

Lemma slice_app_skip (a rest : list byte) (n lo hi : nat) :
  List.length a = n ->
  slice (n + lo) (n + hi) (a ++ rest) = slice lo hi rest.
Proof.
  intros <-. unfold slice.
  rewrite skipn_app, skipn_all2 by lia.
  replace (List.length a + lo - List.length a)%nat with lo by lia.
  replace (List.length a + hi - (List.length a + lo))%nat with (hi - lo)%nat by lia.
  reflexivity.
Qed.

(** The field of width [n] at offset [lo] in a frame whose first [lo]
    bytes are [a]. *)
Lemma slice_field (a b rest : list byte) (lo hi : nat) :
  List.length a = lo -> (lo + List.length b = hi)%nat ->
  slice lo hi (a ++ b ++ rest) = b.
Proof.
  intros Ha Hb.
  replace lo with (lo + 0)%nat at 1 by lia. rewrite <- Hb.
  rewrite (slice_app_skip a (b ++ rest) lo 0 (List.length b) Ha).
  now apply slice_app_take.
Qed.

Lemma unpack_f_le_bytes (x : pyfloat) :
  unpack_f (le_bytes 4 (bits_of_b32 (float_cast x))) = to_single x.
Proof.
  unfold unpack_f. rewrite le_value_le_bytes. change (8 * Z.of_nat 4) with 32.
  rewrite Z.mod_small by (apply bits_of_b32_range, float_cast_valid).
  apply PyFloat_Unpack4_bits.
Qed.

Lemma unpack_sensor_data_frame_of (row : Row.t) :
  in_int32 (Row.sensor_id row) = true -> in_int64 (Row.time row) = true ->
  unpack_sensor_data (frame_of row)
  = Ok (Row.sensor_id row, Row.time row,
        to_single (Row.x row), to_single (Row.y row), to_single (Row.z row),
        to_single (Row.qw row), to_single (Row.qx row),
        to_single (Row.qy row), to_single (Row.qz row)).
Proof.
  intros Hi Hq. unfold unpack_sensor_data.
  rewrite frame_of_length. cbn [Nat.eqb frame_size].
  unfold frame_of.
  set (b0 := le_bytes 4 (Row.sensor_id row mod 2 ^ 32)).
  set (b1 := le_bytes 8 (Row.time row mod 2 ^ 64)).
  set (b2 := le_bytes 4 (bits_of_b32 (float_cast (Row.x row)))).
  set (b3 := le_bytes 4 (bits_of_b32 (float_cast (Row.y row)))).
  set (b4 := le_bytes 4 (bits_of_b32 (float_cast (Row.z row)))).
  set (b5 := le_bytes 4 (bits_of_b32 (float_cast (Row.qw row)))).
  set (b6 := le_bytes 4 (bits_of_b32 (float_cast (Row.qx row)))).
  set (b7 := le_bytes 4 (bits_of_b32 (float_cast (Row.qy row)))).
  set (b8 := le_bytes 4 (bits_of_b32 (float_cast (Row.qz row)))).
  assert (L0 : List.length b0 = 4%nat) by apply le_bytes_length.
  assert (L1 : List.length b1 = 8%nat) by apply le_bytes_length.
  assert (L2 : List.length b2 = 4%nat) by apply le_bytes_length.
  assert (L3 : List.length b3 = 4%nat) by apply le_bytes_length.
  assert (L4 : List.length b4 = 4%nat) by apply le_bytes_length.
  assert (L5 : List.length b5 = 4%nat) by apply le_bytes_length.
  assert (L6 : List.length b6 = 4%nat) by apply le_bytes_length.
  assert (L7 : List.length b7 = 4%nat) by apply le_bytes_length.
  assert (L8 : List.length b8 = 4%nat) by apply le_bytes_length.
  rewrite (slice_app_take b0 _ 4 L0).
  rewrite (slice_field b0 b1 _ 4 12) by (rewrite ?L0, ?L1; reflexivity).
  rewrite (app_assoc b0 b1).
  rewrite (slice_field (b0 ++ b1) b2 _ 12 16)
    by (rewrite ?length_app, ?L0, ?L1, ?L2; reflexivity).
  rewrite (app_assoc (b0 ++ b1) b2).
  rewrite (slice_field ((b0 ++ b1) ++ b2) b3 _ 16 20)
    by (rewrite ?length_app, ?L0, ?L1, ?L2, ?L3; reflexivity).
  rewrite (app_assoc ((b0 ++ b1) ++ b2) b3).
  rewrite (slice_field (((b0 ++ b1) ++ b2) ++ b3) b4 _ 20 24)
    by (rewrite ?length_app, ?L0, ?L1, ?L2, ?L3, ?L4; reflexivity).
  rewrite (app_assoc (((b0 ++ b1) ++ b2) ++ b3) b4).
  rewrite (slice_field ((((b0 ++ b1) ++ b2) ++ b3) ++ b4) b5 _ 24 28)
    by (rewrite ?length_app, ?L0, ?L1, ?L2, ?L3, ?L4, ?L5; reflexivity).
  rewrite (app_assoc ((((b0 ++ b1) ++ b2) ++ b3) ++ b4) b5).
  rewrite (slice_field (((((b0 ++ b1) ++ b2) ++ b3) ++ b4) ++ b5) b6 _ 28 32)
    by (rewrite ?length_app, ?L0, ?L1, ?L2, ?L3, ?L4, ?L5, ?L6; reflexivity).
  rewrite (app_assoc (((((b0 ++ b1) ++ b2) ++ b3) ++ b4) ++ b5) b6).
  rewrite (slice_field ((((((b0 ++ b1) ++ b2) ++ b3) ++ b4) ++ b5) ++ b6) b7 _ 32 36)
    by (rewrite ?length_app, ?L0, ?L1, ?L2, ?L3, ?L4, ?L5, ?L6, ?L7; reflexivity).
  rewrite (app_assoc ((((((b0 ++ b1) ++ b2) ++ b3) ++ b4) ++ b5) ++ b6) b7).
  rewrite <- (app_nil_r b8) at 1.
  rewrite (slice_field (((((((b0 ++ b1) ++ b2) ++ b3) ++ b4) ++ b5) ++ b6) ++ b7) b8 [] 36 40)
    by (rewrite ?length_app, ?L0, ?L1, ?L2, ?L3, ?L4, ?L5, ?L6, ?L7, ?L8; reflexivity).
  subst b0 b1 b2 b3 b4 b5 b6 b7 b8.
  rewrite unpack_i_le_bytes, unpack_q_le_bytes by assumption.
  rewrite !unpack_f_le_bytes. reflexivity.
Qed.

(** ** Floats that went through a frame *)




(** ** The publisher's loop without interruption *)

Lemma replay_rows_quiet (time_diffs : list Q) (rows : list (nat * Row.t)) :
  Forall (fun ir => well_formed (snd ir) = true) rows ->
  forall tr c, exists c',
    replay_rows rows time_diffs (quiet tr c)
    = (quiet (tr ++ flat_map (row_events time_diffs) rows) c', Done tt).
Proof.
  induction 1 as [|[i row] rest Hrow _ IH]; intros tr c.
  - exists c. cbn. now rewrite app_nil_r.
  - cbn [replay_rows flat_map]. cbn [snd] in Hrow.
    unfold bind at 1. rewrite (pack_sensor_data_well_formed row Hrow).
    cbn [lift ret].
    unfold bind at 1. cbn [send_multipart blocking quiet signal trace clock].
    unfold bind at 1. cbn [print emit signal trace clock].
    unfold row_events. cbn [fst snd].
    destruct (Nat.ltb i (List.length time_diffs)
              && Qpositive (nth i time_diffs 0%Q)).
    + unfold bind at 1. cbn [sleep blocking signal trace clock].
      destruct (IH (((tr ++ [Send (sensor_topic (Row.sensor_id row)) (frame_of row)])
                       ++ [Print (ReplayerSent (sensor_topic (Row.sensor_id row)))])
                      ++ [Sleep (nth i time_diffs 0%Q)]) (S (S c))) as [c' Hc'].
      exists c'. unfold quiet in Hc'. rewrite Hc'. unfold quiet.
      repeat rewrite <- app_assoc. reflexivity.
    + unfold bind at 1. cbn [ret].
      destruct (IH ((tr ++ [Send (sensor_topic (Row.sensor_id row)) (frame_of row)])
                       ++ [Print (ReplayerSent (sensor_topic (Row.sensor_id row)))])
                   (S c)) as [c' Hc'].
      exists c'. unfold quiet in Hc'. rewrite Hc'. unfold quiet.
      repeat rewrite <- app_assoc. reflexivity.
Qed.

(** ** Sequencing *)

Lemma bind_Done {A B : Type} (m : M A) (k : A -> M B) (w w' : world) (a : A) :
  m w = (w', Done a) -> bind m k w = k a w'.
Proof. unfold bind. now intros ->. Qed.

Lemma bind_Raised {A B : Type} (m : M A) (k : A -> M B) (w w' : world) (e : exn) :
  m w = (w', Raised e) -> bind m k w = (w', Raised e).
Proof. unfold bind. now intros ->. Qed.

Lemma bind_Pending {A B : Type} (m : M A) (k : A -> M B) (w w' : world) :
  m w = (w', Pending) -> bind m k w = (w', Pending).
Proof. unfold bind. now intros ->. Qed.

(** ** The delays of a log *)

Lemma Qpositive_ms (d : Z) : Qpositive (d # 1000) = (0 <? d).
Proof.
  unfold Qpositive, Qle_bool. cbn [Qnum Qden].
  destruct (Z.leb_spec (d * 1) (0 * 1000)), (Z.ltb_spec 0 d); cbn; lia || reflexivity.
Qed.

Lemma wrap_int64_small (d : Z) : - 2 ^ 63 <= d < 2 ^ 63 -> wrap_int64 d = d.
Proof.
  intros Hd. unfold wrap_int64.
  rewrite Z.mod_small; lia.
Qed.

Lemma iterrows_cons (n : nat) (row : Row.t) (rest : list Row.t) :
  combine (seq n (S (List.length rest))) (row :: rest)
  = (n, row) :: combine (seq (S n) (List.length rest)) rest.
Proof. reflexivity. Qed.

Lemma rows_paced (rows : list Row.t) :
  Forall timestamp_ok rows ->
  forall (before : list Q) (previous : Z),
    - 2 ^ 62 <= previous < 2 ^ 62 ->
    flat_map
      (row_events (before ++ map (fun d => d # 1000)
                                 (np_diff previous (map Row.time rows))))
      (combine (seq (List.length before) (List.length rows)) rows)
    = paced_emissions previous rows.
Proof.
  induction 1 as [|row rest Hrow _ IH]; intros before previous Hprev;
    [reflexivity|].
  cbn [List.length]. rewrite iterrows_cons.
  cbn [flat_map map np_diff paced_emissions].
  unfold timestamp_ok in Hrow.
  change (2 ^ 62) with 4611686018427387904 in *.
  rewrite wrap_int64_small
    by (change (2 ^ 63) with 9223372036854775808; lia).
  unfold row_events at 1. cbn [fst snd].
  rewrite <- app_assoc. f_equal.
  rewrite length_app. cbn [List.length].
  replace (Nat.ltb (List.length before) (List.length before + S _)) with true
    by (symmetry; apply Nat.ltb_lt; lia).
  rewrite app_nth2, Nat.sub_diag by lia. cbn [nth andb].
  rewrite Qpositive_ms. f_equal.
  specialize (IH (before ++ [(Row.time row - previous) # 1000]) (Row.time row)).
  rewrite length_app, <- app_assoc in IH. cbn [List.length app] in IH.
  rewrite Nat.add_1_r in IH. apply IH. lia.
Qed.

Lemma time_diffs_of_cons (row : Row.t) (rest : list Row.t) :
  time_diffs_of (row :: rest)
  = Ok (map (fun d => d # 1000)
            (np_diff (Row.time row) (map Row.time (row :: rest)))).
Proof. reflexivity. Qed.

(** ** One pass over a log that encodes, without interruption *)

Lemma replay_once_trace (fuel : nat) (df : list Row.t) (time_diffs : list Q) :
  Forall (fun row => well_formed row = true) df ->
  time_diffs_of df = Ok time_diffs ->
  run (replay (S fuel) (Loaded df) false) None
  = (prologue false ++ flat_map (row_events time_diffs) (iterrows df) ++ epilogue,
     Done tt).
Proof.
  intros Hwf Htd.
  assert (Hwf' : Forall (fun ir : nat * Row.t => well_formed (snd ir) = true)
                   (iterrows df)).
  { apply Forall_forall. intros [i row] Hin.
    apply in_combine_r in Hin. rewrite Forall_forall in Hwf. now apply Hwf. }
  destruct (replay_rows_quiet time_diffs (iterrows df) Hwf'
              [Bind "tcp://*:5555"; Print ReplayerRunning; Sleep 1;
               Print (ReplayerStarting false)] 1%nat) as [c Hrows].
  unfold run, replay, replay_try, replay_finally, try_finally, try_except, bind.
  cbn [read_csv emit print sleep blocking trace clock signal app Nat.eqb ret].
  rewrite Htd.
  cbn [lift ret emit print sleep blocking trace clock signal app Nat.eqb
       replay_passes negb].
  unfold bind. unfold quiet in Hrows. rewrite Hrows.
  cbn [lift ret emit print sleep send_multipart blocking trace clock signal
       Nat.eqb].
  unfold prologue, epilogue, release, sentinel.
  repeat rewrite <- app_assoc. reflexivity.
Qed.

(** ** The pacing and the messages of one pass *)

Lemma replay_once_paced (fuel : nat) (row : Row.t) (rest : list Row.t) :
  Forall (fun r => well_formed r = true) (row :: rest) ->
  Forall timestamp_ok (row :: rest) ->
  run (replay (S fuel) (Loaded (row :: rest)) false) None
  = (prologue false ++ paced_emissions (Row.time row) (row :: rest) ++ epilogue,
     Done tt).
Proof.
  intros Hwf Hts.
  rewrite (replay_once_trace fuel (row :: rest) _ Hwf (time_diffs_of_cons row rest)).
  do 3 f_equal.
  apply (rows_paced (row :: rest) Hts []).
  inversion Hts; assumption.
Qed.


Lemma sends_app (tr1 tr2 : list event) : sends (tr1 ++ tr2) = sends tr1 ++ sends tr2.
Proof.
  induction tr1 as [|ev tr1 IH]; [reflexivity|].
  destruct ev; cbn [app sends]; rewrite IH; reflexivity.
Qed.






(** ** The publisher under interruption *)

Lemma extends_refl (w : world) : extends w w [].
Proof. split; [now rewrite app_nil_r | reflexivity]. Qed.

Lemma extends_trans (w1 w2 w3 : world) (evs1 evs2 : list event) :
  extends w1 w2 evs1 -> extends w2 w3 evs2 -> extends w1 w3 (evs1 ++ evs2).
Proof.
  intros [H1 S1] [H2 S2]. split; [|congruence].
  now rewrite H2, H1, app_assoc.
Qed.

Lemma emit_extends (ev : event) (w : world) :
  exists w', emit ev w = (w', Done tt) /\ extends w w' [ev].
Proof. eexists. split; [reflexivity|]. split; reflexivity. Qed.

Lemma blocking_extends (ev : event) (w : world) :
  exists w',
    (blocking ev w = (w', Done tt) /\ extends w w' [ev]) \/
    (blocking ev w = (w', Raised KeyboardInterrupt) /\ extends w w' []).
Proof.
  unfold blocking. destruct (signal w) as [k|] eqn:Es.
  - destruct (Nat.eqb k (clock w)); eexists.
    + right. split; [reflexivity|]. split; cbn; [now rewrite app_nil_r | auto].
    + left. split; [reflexivity|]. split; cbn; auto.
  - eexists. left. split; [reflexivity|]. split; cbn; auto.
Qed.

Lemma sensor_topic_not_done (i : Z) : String.eqb (sensor_topic i) control_done = false.
Proof. reflexivity. Qed.

Lemma replay_rows_extends (time_diffs : list Q) (rows : list (nat * Row.t)) :
  forall w, exists w' evs out,
    replay_rows rows time_diffs w = (w', out) /\
    extends w w' evs /\ forallb loop_event evs = true /\ out <> Pending.
Proof.
  induction rows as [|[i row] rest IH]; intros w.
  - exists w, [], (Done tt). repeat split; try apply extends_refl; discriminate.
  - cbn [replay_rows].
    destruct (pack_sensor_data row) as [message|e] eqn:Ep; cbn [lift].
    2:{ exists w, [], (Raised e).
        repeat split; try apply extends_refl; discriminate. }
    rewrite (bind_Done _ _ w w message) by reflexivity.
    destruct (blocking_extends
                (Send (sensor_topic (Row.sensor_id row)) message) w)
      as [w1 [[Hs Hx1] | [Hs Hx1]]]; unfold send_multipart.
    2:{ rewrite (bind_Raised _ _ _ _ _ Hs).
        exists w1, [], (Raised KeyboardInterrupt).
        repeat split; try apply Hx1; discriminate. }
    rewrite (bind_Done _ _ _ _ _ Hs).
    destruct (emit_extends (Print (ReplayerSent (sensor_topic (Row.sensor_id row)))) w1)
      as [w2 [Hp Hx2]].
    unfold print. rewrite (bind_Done _ _ _ _ _ Hp).
    pose proof (extends_trans _ _ _ _ _ Hx1 Hx2) as Hx12.
    destruct (Nat.ltb i (List.length time_diffs)
              && Qpositive (nth i time_diffs 0%Q)).
    + destruct (blocking_extends (Sleep (nth i time_diffs 0%Q)) w2)
        as [w3 [[Hz Hx3] | [Hz Hx3]]]; unfold sleep.
      * rewrite (bind_Done _ _ _ _ _ Hz).
        destruct (IH w3) as [w4 [evs [out [Hr [Hx4 [Hev Hout]]]]]].
        exists w4, (([Send (sensor_topic (Row.sensor_id row)) message]
                     ++ [Print (ReplayerSent (sensor_topic (Row.sensor_id row)))])
                    ++ [Sleep (nth i time_diffs 0%Q)] ++ evs), out.
        split; [exact Hr|]. split.
        { eapply extends_trans; [exact Hx12|].
          eapply extends_trans; eassumption. }
        split; [|exact Hout].
        cbn [app forallb loop_event]. now rewrite sensor_topic_not_done.
      * rewrite (bind_Raised _ _ _ _ _ Hz).
        exists w3, (([Send (sensor_topic (Row.sensor_id row)) message]
                     ++ [Print (ReplayerSent (sensor_topic (Row.sensor_id row)))])
                    ++ []), (Raised KeyboardInterrupt).
        split; [reflexivity|]. split.
        { eapply extends_trans; eassumption. }
        split; [|discriminate].
        cbn [app forallb loop_event]. now rewrite sensor_topic_not_done.
    + rewrite (bind_Done _ _ w2 w2 tt) by reflexivity.
      destruct (IH w2) as [w4 [evs [out [Hr [Hx4 [Hev Hout]]]]]].
      exists w4, (([Send (sensor_topic (Row.sensor_id row)) message]
                   ++ [Print (ReplayerSent (sensor_topic (Row.sensor_id row)))])
                  ++ evs), out.
      split; [exact Hr|]. split.
      { eapply extends_trans; eassumption. }
      split; [|exact Hout].
      cbn [app forallb loop_event]. now rewrite sensor_topic_not_done.
Qed.

Lemma replay_passes_extends (df : list Row.t) (time_diffs : list Q)
    (loop_data : bool) (fuel : nat) :
  forall w, exists w' evs out,
    replay_passes fuel df time_diffs loop_data w = (w', out) /\
    extends w w' evs /\ forallb loop_event evs = true /\
    (out = Done tt -> loop_data = false) /\
    (out = Pending -> loop_data = true \/ fuel = O).
Proof.
  induction fuel as [|fuel IH]; intros w.
  - exists w, [], Pending.
    repeat split; try apply extends_refl; auto; discriminate.
  - cbn [replay_passes].
    destruct (replay_rows_extends time_diffs (iterrows df) w)
      as [w1 [evs1 [out1 [Hr [Hx1 [Hev1 Hout1]]]]]].
    destruct out1 as [[]|e|]; [| |congruence].
    2:{ rewrite (bind_Raised _ _ _ _ _ Hr).
        exists w1, evs1, (Raised e).
        repeat split; try apply Hx1; auto; discriminate. }
    rewrite (bind_Done _ _ _ _ _ Hr).
    destruct loop_data; cbn [negb].
    + destruct (emit_extends (Print ReplayerRestarting) w1) as [w2 [Hp Hx2]].
      unfold print. rewrite (bind_Done _ _ _ _ _ Hp).
      destruct (blocking_extends (Sleep 1) w2) as [w3 [[Hz Hx3] | [Hz Hx3]]];
        unfold sleep.
      * rewrite (bind_Done _ _ _ _ _ Hz).
        destruct (IH w3) as [w4 [evs [out [Hp4 [Hx4 [Hev [Hout _]]]]]]].
        exists w4, (evs1 ++ [Print ReplayerRestarting] ++ [Sleep 1] ++ evs), out.
        split; [exact Hp4|]. split.
        { eapply extends_trans; [exact Hx1|].
          eapply extends_trans; [exact Hx2|].
          eapply extends_trans; eassumption. }
        split; [|split; [exact Hout | auto]].
        rewrite forallb_app, Hev1. cbn. exact Hev.
      * rewrite (bind_Raised _ _ _ _ _ Hz).
        exists w3, (evs1 ++ [Print ReplayerRestarting] ++ []), (Raised KeyboardInterrupt).
        split; [reflexivity|]. split.
        { eapply extends_trans; [exact Hx1|].
          eapply extends_trans; eassumption. }
        split; [|split; [discriminate | auto]].
        rewrite forallb_app, Hev1. reflexivity.
    + exists w1, evs1, (Done tt).
      repeat split; try apply Hx1; auto; discriminate.
Qed.

Lemma replay_try_ends (fuel : nat) (src : source) (loop_data : bool) (w : world) :
  exists w' evs out,
    replay_try fuel src loop_data w = (w', out) /\
    extends w w' evs /\ try_ends loop_data evs out /\
    (out = Pending -> loop_data = true \/ fuel = O).
Proof.
  unfold replay_try.
  assert (Hfail : forall e, exists w' evs out,
             (w, @Raised unit e) = (w', out) /\
             extends w w' evs /\ try_ends loop_data evs out /\
             (out = Pending -> loop_data = true \/ fuel = O)).
  { intros e. exists w, [], (Raised e).
    split; [reflexivity|]. split; [apply extends_refl|].
    split; [now apply try_fails | discriminate]. }
  destruct src as [| |df]; cbn [read_csv];
    [rewrite (bind_Raised _ _ w w SourceError) by reflexivity; apply Hfail ..|].
  rewrite (bind_Done _ _ w w df) by reflexivity.
  destruct (time_diffs_of df) as [time_diffs|e]; cbn [lift];
    [|rewrite (bind_Raised _ _ w w e) by reflexivity; apply Hfail].
  rewrite (bind_Done _ _ w w time_diffs) by reflexivity.
  destruct (emit_extends (Print (ReplayerStarting loop_data)) w) as [w1 [Hp Hx1]].
  unfold print at 1. rewrite (bind_Done _ _ _ _ _ Hp).
  destruct (replay_passes_extends df time_diffs loop_data fuel w1)
    as [w2 [evs2 [out2 [Hr [Hx2 [Hev2 [Hout2 Hpend2]]]]]]].
  pose proof (extends_trans _ _ _ _ _ Hx1 Hx2) as Hx12.
  assert (Hearly : forallb early_event ([Print (ReplayerStarting loop_data)] ++ evs2)
                   = true).
  { cbn [app forallb early_event]. apply forallb_forall.
    intros ev Hin. rewrite forallb_forall in Hev2. specialize (Hev2 ev Hin).
    destruct ev as [| | | | |[]| |]; cbn in *; auto. }
  destruct out2 as [[]|e|].
  2:{ rewrite (bind_Raised _ _ _ _ _ Hr).
      exists w2, ([Print (ReplayerStarting loop_data)] ++ evs2), (Raised e).
      split; [reflexivity|]. split; [exact Hx12|].
      split; [now apply try_fails | discriminate]. }
  2:{ rewrite (bind_Pending _ _ _ _ Hr).
      exists w2, ([Print (ReplayerStarting loop_data)] ++ evs2), Pending.
      split; [reflexivity|]. split; [exact Hx12|].
      split; [apply try_pending | intros _; now apply Hpend2]. }
  specialize (Hout2 eq_refl).
  rewrite (bind_Done _ _ _ _ _ Hr).
  destruct (emit_extends (Print ReplayerFinished) w2) as [w3 [Hf Hx3]].
  unfold print. rewrite (bind_Done _ _ _ _ _ Hf).
  pose proof (extends_trans _ _ _ _ _ Hx12 Hx3) as Hx123.
  destruct (blocking_extends (Send control_done []) w3)
    as [w4 [[Hs Hx4] | [Hs Hx4]]]; unfold send_multipart.
  2:{ rewrite (bind_Raised _ _ _ _ _ Hs).
      exists w4, ((([Print (ReplayerStarting loop_data)] ++ evs2)
                    ++ [Print ReplayerFinished]) ++ []),
             (Raised KeyboardInterrupt).
      split; [reflexivity|]. split; [eapply extends_trans; eassumption|].
      rewrite app_nil_r.
      split; [now apply try_interrupted_at_sentinel | discriminate]. }
  rewrite (bind_Done _ _ _ _ _ Hs).
  pose proof (extends_trans _ _ _ _ _ Hx123 Hx4) as Hx1234.
  destruct (blocking_extends (Sleep 1) w4) as [w5 [[Hz Hx5] | [Hz Hx5]]];
    unfold sleep; rewrite Hz.
  - exists w5, (((([Print (ReplayerStarting loop_data)] ++ evs2)
                   ++ [Print ReplayerFinished]) ++ [Send control_done []])
                ++ [Sleep 1]), (Done tt).
    split; [reflexivity|]. split; [eapply extends_trans; eassumption|].
    repeat rewrite <- app_assoc.
    rewrite (app_assoc [Print (ReplayerStarting loop_data)] evs2).
    split; [now apply try_completes | discriminate].
  - exists w5, (((([Print (ReplayerStarting loop_data)] ++ evs2)
                   ++ [Print ReplayerFinished]) ++ [Send control_done []])
                ++ []), (Raised KeyboardInterrupt).
    split; [reflexivity|]. split; [eapply extends_trans; eassumption|].
    rewrite app_nil_r. repeat rewrite <- app_assoc.
    rewrite (app_assoc [Print (ReplayerStarting loop_data)] evs2).
    split; [now apply try_interrupted_after_sentinel | discriminate].
Qed.

Lemma replay_handler_cases (e : exn) :
  (replay_handler e = Some (print ReplayerInterrupted) /\ is_Exception e = false) \/
  (replay_handler e = Some (print (ReplayerError e)) /\ is_Exception e = true).
Proof. destruct e; cbn; auto. Qed.

(** Every run of [replay] that enters the [try] block and returns has one
    of the five shapes of [replay_ends]; in particular it ends with the
    release of the channel and returns normally. *)
Lemma replay_shape (fuel : nat) (src : source) (loop_data : bool)
    (sig : option nat) (tr : list event) (out : outcome unit) :
  src <> Missing -> sig <> Some 0%nat ->
  run (replay fuel src loop_data) sig = (tr, out) ->
  (out = Pending /\ (loop_data = true \/ fuel = O)) \/
  (out = Done tt /\
   exists body,
     tr = [Bind "tcp://*:5555"; Print ReplayerRunning; Sleep 1] ++ body /\
     replay_ends loop_data body).
Proof.
  intros Hsrc Hsig.
  set (w0 := mkWorld [Bind "tcp://*:5555"; Print ReplayerRunning; Sleep 1] 1 sig).
  assert (Hrun : run (replay fuel src loop_data) sig
                 = let (w, r) := try_finally
                                   (try_except (replay_try fuel src loop_data)
                                               replay_handler)
                                   replay_finally w0 in (trace w, r)).
  { unfold run, replay.
    destruct src as [| |df]; [congruence | |];
      unfold bind at 1 2 3;
      cbn [emit print sleep blocking trace clock signal app];
      destruct sig as [[|k]|]; try congruence; reflexivity. }
  rewrite Hrun. clear Hrun.
  destruct (replay_try_ends fuel src loop_data w0)
    as [w1 [evs [out1 [Htry [[Htr Hsg] [Hends Hpend]]]]]].
  unfold try_finally, try_except. rewrite Htry. cbn [trace] in Htr.
  assert (Hfin : forall w, replay_finally w
                 = (mkWorld (trace w ++ release) (clock w) (signal w), Done tt)).
  { intros w. unfold replay_finally, bind, print, emit. cbn [trace clock signal].
    unfold release. now rewrite <- !app_assoc. }
  assert (Hhandled : forall l, print l w1
                     = (mkWorld (trace w1 ++ [Print l]) (clock w1) (signal w1),
                        Done tt)) by reflexivity.
  inversion Hends as [early e Hearly | early Hearly Hloop | early Hearly Hloop
                      | early Hearly Hloop | evs' ]; subst.
  - destruct (replay_handler_cases e) as [[-> He] | [-> He]];
      rewrite Hhandled, Hfin; cbn [trace]; intros [= <- <-];
      right; (split; [reflexivity|]); rewrite Htr;
      eexists; (split; [rewrite <- !app_assoc; reflexivity|]).
    + now apply replay_interrupted.
    + now apply replay_failed.
  - cbn [replay_handler]. rewrite Hhandled, Hfin. cbn [trace]. intros [= <- <-].
    right. split; [reflexivity|]. rewrite Htr.
    eexists. split; [rewrite <- !app_assoc; reflexivity|].
    now apply replay_interrupted_at_sentinel.
  - cbn [replay_handler]. rewrite Hhandled, Hfin. cbn [trace]. intros [= <- <-].
    right. split; [reflexivity|]. rewrite Htr.
    eexists. split; [rewrite <- !app_assoc; reflexivity|].
    now apply replay_interrupted_after_sentinel.
  - rewrite Hfin. cbn [trace]. intros [= <- <-].
    right. split; [reflexivity|]. rewrite Htr.
    eexists. split; [rewrite <- !app_assoc; reflexivity|].
    now apply replay_completed.
  - intros [= <- <-]. left. auto.
Qed.

(** ** The sentinel and the release *)

Lemma not_early (early : list event) (ev : event) :
  forallb early_event early = true -> early_event ev = false -> ~ In ev early.
Proof.
  intros Hall Hev Hin. rewrite forallb_forall in Hall.
  specialize (Hall ev Hin). congruence.
Qed.

(** Membership in a trace of [replay_ends], event by event. *)
Ltac in_trace :=
  repeat match goal with
         | H : In _ (_ ++ _) |- _ => apply in_app_or in H; destruct H as [H | H]
         | H : In _ (_ :: _) |- _ => destruct H as [H | H]
         | H : In _ [] |- _ => destruct H
         | H : In ?ev ?early, Hall : forallb early_event ?early = true |- _ =>
             exfalso; exact (not_early early ev Hall eq_refl H)
         | H : _ = _ |- _ => discriminate H
         end.

Lemma replay_ends_release (loop_data : bool) (body : list event) :
  replay_ends loop_data body -> exists pre, body = pre ++ release.
Proof.
  intros [early e H _ | early H | early H _ | early H _ | early H _].
  - exists (early ++ [Print (ReplayerError e)]). now rewrite <- app_assoc.
  - exists (early ++ [Print ReplayerInterrupted]). now rewrite <- app_assoc.
  - exists (early ++ [Print ReplayerFinished; Print ReplayerInterrupted]).
    now rewrite <- app_assoc.
  - exists (early ++ [Print ReplayerFinished; sentinel; Print ReplayerInterrupted]).
    now rewrite <- app_assoc.
  - exists (early ++ [Print ReplayerFinished; sentinel; Sleep 1]).
    now rewrite <- app_assoc.
Qed.

Lemma replay_ends_sentinel (loop_data : bool) (body : list event) :
  replay_ends loop_data body ->
  In sentinel body ->
  loop_data = false /\ In (Print ReplayerFinished) body /\
  forall e, ~ In (Print (ReplayerError e)) body.
Proof.
  intros [early e H _ | early H | early H Hl | early H Hl | early H Hl] Hin;
    unfold release, sentinel in *; try solve [in_trace].
  - split; [exact Hl|]. split.
    + apply in_or_app. right. now left.
    + intros e He. in_trace.
  - split; [exact Hl|]. split.
    + apply in_or_app. right. now left.
    + intros e He. in_trace.
Qed.

Lemma replay_ends_finished (loop_data : bool) (body : list event) :
  replay_ends loop_data body ->
  In (Print ReplayerFinished) body -> ~ In (Print ReplayerInterrupted) body ->
  In sentinel body.
Proof.
  intros [early e H _ | early H | early H Hl | early H Hl | early H Hl] Hin Hno;
    unfold release, sentinel in *; try solve [in_trace].
  - exfalso. apply Hno. apply in_or_app. right. right. now left.
  - apply in_or_app. right. right. now left.
  - apply in_or_app. right. right. now left.
Qed.

(** C3 (as amended). Every run of [replay] that finds its source, is not
    interrupted during the pause before the [try] block, and returns, ends
    with the release of the channel (close, term). It emits the sentinel
    only when the loop ran to its end in a run that does not loop, and
    then never after a reported error; a run whose loop ran to its end and
    that was not interrupted does emit it. After a read failure, an
    encoding failure or an interruption of the loop the channel is
    released without a sentinel. *)
Theorem replay_sentinel_on_completion_only (fuel : nat) (src : source)
    (loop_data : bool) (sig : option nat) (tr : list event) (out : outcome unit) :
  src <> Missing -> sig <> Some 0%nat ->
  run (replay fuel src loop_data) sig = (tr, out) -> out <> Pending ->
  (exists pre, tr = pre ++ release) /\
  (In sentinel tr ->
   loop_data = false /\ In (Print ReplayerFinished) tr /\
   forall e, ~ In (Print (ReplayerError e)) tr) /\
  (In (Print ReplayerFinished) tr -> ~ In (Print ReplayerInterrupted) tr ->
   In sentinel tr).
Proof.
  intros Hsrc Hsig Hrun Hout.
  destruct (replay_shape fuel src loop_data sig tr out Hsrc Hsig Hrun)
    as [[Hp _] | [_ [body [-> Hends]]]]; [congruence|].
  assert (Hpro : forall ev, In ev [Bind "tcp://*:5555"; Print ReplayerRunning; Sleep 1]
                            -> ev <> sentinel /\ ev <> Print ReplayerFinished).
  { intros ev Hin. in_trace; subst; split; discriminate. }
  split; [|split].
  - destruct (replay_ends_release _ _ Hends) as [pre ->].
    eexists. now rewrite app_assoc.
  - intros Hin. apply in_app_or in Hin. destruct Hin as [Hin | Hin].
    { apply Hpro in Hin. tauto. }
    destruct (replay_ends_sentinel _ _ Hends Hin) as [Hl [Hf He]].
    split; [exact Hl|]. split; [apply in_or_app; now right|].
    intros e Hine. apply in_app_or in Hine. destruct Hine as [Hine | Hine].
    + in_trace.
    + exact (He e Hine).
  - intros Hf Hni. apply in_or_app. right.
    apply (replay_ends_finished _ _ Hends).
    + apply in_app_or in Hf. destruct Hf as [Hf | Hf]; [|exact Hf].
      apply Hpro in Hf. tauto.
    + intros Hi. apply Hni. apply in_or_app. now right.
Qed.

(** A run that does not loop returns, given fuel for one pass. *)
Lemma replay_once_returns (fuel : nat) (src : source) (sig : option nat) :
  src <> Missing -> sig <> Some 0%nat ->
  snd (run (replay (S fuel) src false) sig) <> Pending.
Proof.
  intros Hsrc Hsig.
  destruct (run (replay (S fuel) src false) sig) as [tr out] eqn:Hrun.
  destruct (replay_shape (S fuel) src false sig tr out Hsrc Hsig Hrun)
    as [[_ [H | H]] | [-> _]]; cbn; congruence.
Qed.

(** ** Decimal renderings *)




Lemma prefix_refl (s : string) : String.prefix s s = true.
Proof.
  induction s as [|c s IH]; [reflexivity|].
  cbn. destruct (ascii_dec c c); [exact IH | congruence].
Qed.




(** ** The subscriptions *)






(** ** The receive loop *)

Lemma subscribe_all_spec (subs : list string) (w : world) :
  subscribe_all subs w
  = (mkWorld (trace w ++ map Subscribe subs) (clock w) (signal w), Done tt).
Proof.
  revert w. induction subs as [|p subs IH]; intros w.
  - cbn. rewrite app_nil_r. now destruct w.
  - cbn [subscribe_all map]. unfold bind, emit. rewrite IH. cbn [trace clock signal].
    now rewrite <- app_assoc.
Qed.

(** The messages before a pending receive have all been handled: the loop
    on a longer stream goes on from there. *)
Lemma consume_loop_app (subs : list string) (pre rest : list arrival) :
  forall w w', consume_loop subs pre w = (w', Pending) ->
               consume_loop subs (pre ++ rest) w = consume_loop subs rest w'.
Proof.
  induction pre as [|[topic message_bytes|e] pre IH]; intros w w'.
  - cbn. now intros [= ->].
  - cbn [consume_loop app].
    destruct (zmq_matches subs topic); [|apply IH].
    destruct (String.eqb topic control_done); [discriminate|].
    unfold bind. destruct (unpack_sensor_data message_bytes) as [data|e];
      cbn [lift ret raise]; [|discriminate].
    cbn [print emit]. apply IH.
  - cbn. discriminate.
Qed.

Lemma consume_run (N : Z) (stream : list arrival) (sig : option nat) :
  run (consume N stream) sig
  = let (w, r) :=
      try_finally
        (try_except (consume_loop (subscriptions N) stream) consume_handler)
        (emit Close ;; emit Term ;; print ConsumerShutDown)
        (mkWorld ([Connect "tcp://localhost:5555"; Print (ConsumerSubscribing N)]
                    ++ map Subscribe (subscriptions N)) 0 sig)
    in (trace w, r).
Proof.
  unfold run, consume. unfold bind at 1 2 3. cbn [emit print trace clock signal app].
  now rewrite subscribe_all_spec.
Qed.

Lemma consumer_finally (w : world) :
  (emit Close ;; emit Term ;; print ConsumerShutDown) w
  = (mkWorld (trace w ++ consumer_release) (clock w) (signal w), Done tt).
Proof.
  unfold bind, print, emit. cbn [trace clock signal].
  unfold consumer_release. now rewrite <- !app_assoc.
Qed.

(** C1 (as amended). A payload on a subscribed per-sensor topic that fails
    to decode, its length not being 40, ends the receive loop of
    [consume]: after the messages handled before it (whose trace is [tr]),
    [consume] prints no report of the failure, reads none of the messages
    that follow ([rest] is arbitrary and leaves no event), releases the
    socket and the context, and [struct.error] propagates to the caller. *)
Theorem consume_stops_at_decode_failure (N : Z) (pre rest : list arrival)
    (topic : string) (message_bytes : list byte) (sig : option nat)
    (tr : list event) :
  run (consume N pre) sig = (tr, Pending) ->
  zmq_matches (subscriptions N) topic = true ->
  topic <> control_done ->
  List.length message_bytes <> frame_size ->
  run (consume N (pre ++ Message topic message_bytes :: rest)) sig
  = (tr ++ consumer_release, Raised StructError).
Proof.
  intros Hpre Hm Ht Hlen. rewrite consume_run in *.
  unfold try_finally, try_except in *.
  destruct (consume_loop (subscriptions N) pre _) as [w1 out1] eqn:Hloop.
  assert (out1 = Pending /\ trace w1 = tr) as [-> <-].
  { destruct out1 as [[]|e|].
    - rewrite consumer_finally in Hpre. discriminate.
    - destruct e; cbn [consume_handler print emit] in Hpre;
        rewrite consumer_finally in Hpre; discriminate.
    - now inversion Hpre. }
  rewrite (consume_loop_app _ _ _ _ _ Hloop).
  cbn [consume_loop]. rewrite Hm.
  apply String.eqb_neq in Ht. rewrite Ht.
  unfold unpack_sensor_data.
  apply Nat.eqb_neq in Hlen. rewrite Hlen.
  rewrite (bind_Raised _ _ w1 w1 StructError) by reflexivity.
  cbn [consume_handler]. now rewrite consumer_finally.
Qed.

(** ** What the subscriber subscribes to and receives *)







(** C1 as stated fails: after a 10-byte payload the loop does not go on to
    the next message. The valid frame that follows is never surfaced, the
    sentinel is never read, nothing is reported, and [consume] ends with
    [struct.error]. *)
Lemma consume_dies_on_truncated_payload :
  let stream := [Message (sensor_topic 1) truncated_payload;
                 Message (sensor_topic 1) (frame_of (sample 1 100));
                 Message control_done []] in
  List.length truncated_payload = 10%nat /\
  unpack_sensor_data (frame_of (sample 1 100))
  = Ok (1, 100, float_zero, float_zero, float_zero,
        float_one, float_zero, float_zero, float_zero) /\
  run (consume 1 stream) None
  = ([Connect "tcp://localhost:5555"; Print (ConsumerSubscribing 1);
      Subscribe "sensor/em/1"; Subscribe "control/done";
      Close; Term; Print ConsumerShutDown],
     Raised StructError).
Proof. cbv zeta. split; [reflexivity|]. split; vm_compute; reflexivity. Qed.

(** C1, at a concrete stream: a valid frame, a 10-byte payload, and the
    sentinel. *)
Lemma consume_stops_at_decode_failure_witness :
  run (consume 1 ([Message (sensor_topic 1) (frame_of (sample 1 100))]
                    ++ Message (sensor_topic 1) truncated_payload
                    :: [Message control_done []])) None
  = (fst (run (consume 1 [Message (sensor_topic 1) (frame_of (sample 1 100))]) None)
       ++ consumer_release,
     Raised StructError).
Proof.
  apply (consume_stops_at_decode_failure 1
           [Message (sensor_topic 1) (frame_of (sample 1 100))]
           [Message control_done []]
           (sensor_topic 1) truncated_payload None).
  - vm_compute. reflexivity.
  - reflexivity.
  - discriminate.
  - intros H. vm_compute in H. discriminate H.
Defined.

(** ** The frame codec: layout, round trip, failures *)







(** C9 (as amended). [pack_sensor_data] succeeds exactly on the well-formed
    samples. It raises [struct.error] exactly when the identifier is
    outside the signed 32-bit range or the timestamp outside the signed
    64-bit range, and [OverflowError] exactly when both integers are in
    range and some float field does not fit binary32; a binary64 value
    fits exactly when it is not finite or its magnitude is below
    [2^128 - 2^103]. *)
Theorem pack_sensor_data_fails_iff (row : Row.t) :
  (pack_sensor_data row = Ok (frame_of row) <-> well_formed row = true) /\
  (pack_sensor_data row = Raise StructError <->
   in_int32 (Row.sensor_id row) && in_int64 (Row.time row) = false) /\
  (pack_sensor_data row = Raise OverflowError <->
   in_int32 (Row.sensor_id row) && in_int64 (Row.time row) = true /\
   forallb fits_f32 (floats row) = false) /\
  (forall v, valid_binary 53 1024 v = true ->
             fits_f32 v = below_f32_overflow v).
Proof.
  assert (Hcases :
    well_formed row = true /\ pack_sensor_data row = Ok (frame_of row) \/
    in_int32 (Row.sensor_id row) && in_int64 (Row.time row) = false /\
      pack_sensor_data row = Raise StructError \/
    (in_int32 (Row.sensor_id row) && in_int64 (Row.time row) = true /\
     forallb fits_f32 (floats row) = false) /\
      pack_sensor_data row = Raise OverflowError).
  { destruct (in_int32 (Row.sensor_id row) && in_int64 (Row.time row)) eqn:Ei.
    - destruct (forallb fits_f32 (floats row)) eqn:Ef.
      + left. assert (Hwf : well_formed row = true)
          by (unfold well_formed; now rewrite Ei, Ef).
        split; [exact Hwf | now apply pack_sensor_data_well_formed].
      + right. right. split; [auto|]. now apply pack_sensor_data_floats.
    - right. left. split; [reflexivity|]. now apply pack_sensor_data_ints. }
  assert (Hwf : well_formed row
                = in_int32 (Row.sensor_id row) && in_int64 (Row.time row)
                  && forallb fits_f32 (floats row)) by reflexivity.
  split; [|split; [|split; [|apply fits_f32_spec]]].
  - destruct Hcases as [[H1 H2] | [[H1 H2] | [[H1 H1'] H2]]];
      rewrite H2; split; intros H; try discriminate; auto.
    + rewrite Hwf, H1 in H. discriminate.
    + rewrite Hwf, H1, H1' in H. discriminate.
  - destruct Hcases as [[H1 H2] | [[H1 H2] | [[H1 H1'] H2]]];
      rewrite H2; split; intros H; try discriminate; auto.
    + rewrite Hwf, H in H1. discriminate.
    + rewrite H in H1. discriminate.
  - destruct Hcases as [[H1 H2] | [[H1 H2] | [[H1 H1'] H2]]];
      rewrite H2; split; intros H; try discriminate; auto.
    + destruct H as [Ha Hb]. rewrite Hwf, Ha, Hb in H1. discriminate.
    + destruct H as [Ha _]. rewrite Ha in H1. discriminate.
Qed.

(** C9 as stated fails: a sample whose integer fields are in range and
    whose x is the float 2^128 does not encode; [struct.pack] raises
    [OverflowError] for the float field. *)
Lemma pack_sensor_data_float_overflow :
  let row := Row.mk 1 100 float_2_128 float_zero float_zero
                    float_one float_zero float_zero float_zero in
  in_int32 (Row.sensor_id row) = true /\
  in_int64 (Row.time row) = true /\
  valid_binary 53 1024 (Row.x row) = true /\
  pack_sensor_data row = Raise OverflowError.
Proof. cbv zeta. repeat split; vm_compute; reflexivity. Qed.


(** ** The publisher on concrete logs *)


(** C2 (as amended). For a log of three well-formed samples with the
    timestamps 100, 220 and 500 ms, [replay] does not suspend between the
    first and the second emission, suspends 0.12 s between the second and
    the third, and 0.28 s between the third emission and the sentinel. *)
Theorem replay_timing_100_220_500 (fuel : nat) (r1 r2 r3 : Row.t) :
  well_formed r1 = true -> well_formed r2 = true -> well_formed r3 = true ->
  Row.time r1 = 100 -> Row.time r2 = 220 -> Row.time r3 = 500 ->
  exists tr,
    run (replay (S fuel) (Loaded [r1; r2; r3]) false) None = (tr, Done tt) /\
    tr = prologue false ++
         [Send (sensor_topic (Row.sensor_id r1)) (frame_of r1);
          Print (ReplayerSent (sensor_topic (Row.sensor_id r1)));
          Send (sensor_topic (Row.sensor_id r2)) (frame_of r2);
          Print (ReplayerSent (sensor_topic (Row.sensor_id r2)));
          Sleep (120 # 1000);
          Send (sensor_topic (Row.sensor_id r3)) (frame_of r3);
          Print (ReplayerSent (sensor_topic (Row.sensor_id r3)));
          Sleep (280 # 1000)] ++
         epilogue /\
    pauses tr = [0; 3 # 25; 7 # 25]%Q.
Proof.
  intros W1 W2 W3 T1 T2 T3.
  eexists. split; [|split; [reflexivity|]].
  - rewrite replay_once_paced.
    + cbn [paced_emissions]. rewrite T1, T2, T3. cbn [Z.sub Z.ltb app].
      reflexivity.
    + repeat constructor; assumption.
    + repeat constructor; unfold timestamp_ok; rewrite ?T1, ?T2, ?T3; cbn; lia.
  - reflexivity.
Qed.

(** C2 (as amended), at a concrete log. *)
Lemma replay_timing_100_220_500_witness :
  exists tr,
    run (replay 1 (Loaded log_100_220_500) false) None = (tr, Done tt) /\
    tr = prologue false ++
         [Send (sensor_topic 1) (frame_of (sample 1 100));
          Print (ReplayerSent (sensor_topic 1));
          Send (sensor_topic 2) (frame_of (sample 2 220));
          Print (ReplayerSent (sensor_topic 2));
          Sleep (120 # 1000);
          Send (sensor_topic 3) (frame_of (sample 3 500));
          Print (ReplayerSent (sensor_topic 3));
          Sleep (280 # 1000)] ++
         epilogue /\
    pauses tr = [0; 3 # 25; 7 # 25]%Q.
Proof.
  apply (replay_timing_100_220_500 0 (sample 1 100) (sample 2 220) (sample 3 500));
    reflexivity.
Defined.

(** C2 as stated fails: with the timestamps 100, 220 and 500 the pause
    between the first and the second emission is 0 s, not about 0.12 s,
    and the pause between the second and the third is 0.12 s, not about
    0.28 s. *)
Lemma replay_timing_no_pause_after_first :
  let tr := fst (run (replay 1 (Loaded log_100_220_500) false) None) in
  map Row.time log_100_220_500 = [100; 220; 500] /\
  pauses tr = [0; 3 # 25; 7 # 25]%Q /\
  ~ (approximately (nth 0 (pauses tr) 0%Q) 0.12%Q /\
     approximately (nth 1 (pauses tr) 0%Q) 0.28%Q).
Proof.
  cbv zeta. split; [reflexivity|].
  assert (H : pauses (fst (run (replay 1 (Loaded log_100_220_500) false) None))
              = [0; 3 # 25; 7 # 25]%Q) by (vm_compute; reflexivity).
  split; [exact H|]. rewrite H. cbn [nth].
  intros [Habs _]. vm_compute in Habs. discriminate Habs.
Qed.

(** C3 as stated fails: with an unreadable source, and with an interruption
    that falls on the second emission, [replay] reports, releases the
    channel and returns without having emitted the sentinel. *)
Lemma replay_no_sentinel_on_failure_or_interrupt :
  run (replay 1 Unreadable false) None
  = ([Bind "tcp://*:5555"; Print ReplayerRunning; Sleep 1;
      Print (ReplayerError SourceError); Close; Term; Print ReplayerShutDown],
     Done tt) /\
  (let tr := fst (run (replay 1 (Loaded [sample 1 100; sample 2 220]) false)
                      (Some 2%nat)) in
   sends tr = [(sensor_topic 1, frame_of (sample 1 100))] /\
   In (Print ReplayerInterrupted) tr /\ In Close tr /\ ~ In sentinel tr).
Proof.
  split; [reflexivity|]. cbv zeta.
  assert (H : fst (run (replay 1 (Loaded [sample 1 100; sample 2 220]) false)
                       (Some 2%nat))
              = [Bind "tcp://*:5555"; Print ReplayerRunning; Sleep 1;
                 Print (ReplayerStarting false);
                 Send (sensor_topic 1) (frame_of (sample 1 100));
                 Print (ReplayerSent (sensor_topic 1));
                 Print ReplayerInterrupted; Close; Term; Print ReplayerShutDown])
    by (vm_compute; reflexivity).
  rewrite H. split; [reflexivity|].
  split; [cbn; tauto|]. split; [cbn; tauto|].
  unfold sentinel. cbn [In]. intros Hin.
  repeat (destruct Hin as [Hin | Hin]; [discriminate Hin|]). exact Hin.
Qed.

(** C3 (as amended), at a concrete log of one sample. *)
Lemma replay_sentinel_on_completion_only_witness :
  let tr := fst (run (replay 1 (Loaded [sample 1 100]) false) None) in
  (exists pre, tr = pre ++ release) /\
  (In sentinel tr ->
   false = false /\ In (Print ReplayerFinished) tr /\
   forall e, ~ In (Print (ReplayerError e)) tr) /\
  (In (Print ReplayerFinished) tr -> ~ In (Print ReplayerInterrupted) tr ->
   In sentinel tr).
Proof.
  cbv zeta.
  apply (replay_sentinel_on_completion_only 1 (Loaded [sample 1 100]) false None
           (fst (run (replay 1 (Loaded [sample 1 100]) false) None)) (Done tt)).
  - discriminate.
  - discriminate.
  - vm_compute. reflexivity.
  - discriminate.
Defined.


(** The log of [create_dummy_csv]'s shape, four rows: four per-sensor
    messages, then the sentinel. *)
Lemma replay_four_row_log :
  let log := [sample 1 100; sample 2 220; sample 1 350; sample 3 500] in
  sends (fst (run (replay 1 (Loaded log) false) None))
  = [(sensor_topic 1, frame_of (sample 1 100));
     (sensor_topic 2, frame_of (sample 2 220));
     (sensor_topic 1, frame_of (sample 1 350));
     (sensor_topic 3, frame_of (sample 3 500));
     (control_done, [])].
Proof. vm_compute. reflexivity. Qed.

Section Emits.

Variable P : event -> bool.

Lemma emits_ret {A : Type} (a : A) : emits P (ret a).
Proof. intros w. exists []. split; [apply extends_refl | reflexivity]. Qed.

Lemma emits_raise {A : Type} (e : exn) : emits P (@raise A e).
Proof. intros w. exists []. split; [apply extends_refl | reflexivity]. Qed.

Lemma emits_pending {A : Type} : emits P (@pending A).
Proof. intros w. exists []. split; [apply extends_refl | reflexivity]. Qed.

Lemma emits_lift {A : Type} (r : result A) : emits P (lift r).
Proof. destruct r; [apply emits_ret | apply emits_raise]. Qed.

Lemma emits_emit (ev : event) : P ev = true -> emits P (emit ev).
Proof.
  intros Hev w. exists [ev]. split; [split; reflexivity|].
  cbn. now rewrite Hev.
Qed.

Lemma emits_blocking (ev : event) : P ev = true -> emits P (blocking ev).
Proof.
  intros Hev w.
  destruct (blocking_extends ev w) as [w' [[-> Hx] | [-> Hx]]].
  - exists [ev]. split; [exact Hx|]. cbn. now rewrite Hev.
  - exists []. split; [exact Hx | reflexivity].
Qed.

Lemma emits_bind {A B : Type} (m : M A) (k : A -> M B) :
  emits P m -> (forall a, emits P (k a)) -> emits P (bind m k).
Proof.
  intros Hm Hk w. destruct (Hm w) as [evs1 [Hx1 Hp1]].
  unfold bind. destruct (m w) as [w1 [a|e|]]; cbn [fst] in *.
  - destruct (Hk a w1) as [evs2 [Hx2 Hp2]].
    exists (evs1 ++ evs2). split; [eapply extends_trans; eassumption|].
    now rewrite forallb_app, Hp1, Hp2.
  - now exists evs1.
  - now exists evs1.
Qed.

Lemma emits_try_except {A : Type} (body : M A) (handler : exn -> option (M A)) :
  emits P body ->
  (forall e h, handler e = Some h -> emits P h) ->
  emits P (try_except body handler).
Proof.
  intros Hb Hh w. destruct (Hb w) as [evs1 [Hx1 Hp1]].
  unfold try_except. destruct (body w) as [w1 [a|e|]]; cbn [fst] in *;
    try (now exists evs1).
  destruct (handler e) as [h|] eqn:Eh; [|now exists evs1].
  destruct (Hh e h Eh w1) as [evs2 [Hx2 Hp2]].
  exists (evs1 ++ evs2). split; [eapply extends_trans; eassumption|].
  now rewrite forallb_app, Hp1, Hp2.
Qed.

Lemma emits_try_finally {A : Type} (body : M A) (final : M unit) :
  emits P body -> emits P final -> emits P (try_finally body final).
Proof.
  intros Hb Hf w. destruct (Hb w) as [evs1 [Hx1 Hp1]].
  unfold try_finally.
  destruct (body w) as [w1 [a|e|]]; cbn [fst] in *; try (now exists evs1);
    destruct (Hf w1) as [evs2 [Hx2 Hp2]];
    (exists (evs1 ++ evs2); split;
     [|now rewrite forallb_app, Hp1, Hp2]);
    destruct (final w1) as [w2 [[]|e'|]]; cbn [fst] in *;
    eapply extends_trans; eassumption.
Qed.

End Emits.

(** ** The publisher keeps to the life of its socket *)

Lemma source_eq_Missing (src : source) : src = Missing \/ src <> Missing.
Proof. destruct src; [now left | right; discriminate ..]. Qed.

Lemma option_nat_eq_0 (sig : option nat) : sig = Some 0%nat \/ sig <> Some 0%nat.
Proof. destruct sig as [[|k]|]; [now left | right; discriminate ..]. Qed.

Lemma socket_run_app (st : socket_state) (tr1 tr2 : list event) :
  socket_run st (tr1 ++ tr2)
  = match socket_run st tr1 with
    | Some st' => socket_run st' tr2
    | None => None
    end.
Proof.
  revert st. induction tr1 as [|ev tr1 IH]; intros st; [reflexivity|].
  cbn [app socket_run]. destruct (socket_step st ev); [apply IH | reflexivity].
Qed.

Lemma socket_run_working (evs : list event) :
  forallb working_event evs = true -> socket_run Open evs = Some Open.
Proof.
  induction evs as [|ev evs IH]; [reflexivity|].
  cbn [forallb]. intros H. apply andb_prop in H. destruct H as [Hev Hevs].
  destruct ev; cbn in Hev |- *; try discriminate; now apply IH.
Qed.

Lemma working_sleeps_positive (evs : list event) :
  forallb working_event evs = true -> forallb sleeps_positive evs = true.
Proof.
  induction evs as [|ev evs IH]; [reflexivity|].
  cbn [forallb]. intros H. apply andb_prop in H. destruct H as [Hev Hevs].
  rewrite (IH Hevs), andb_true_r. destruct ev; cbn in *; congruence.
Qed.

Lemma replay_rows_emits (time_diffs : list Q) (rows : list (nat * Row.t)) :
  emits working_event (replay_rows rows time_diffs).
Proof.
  induction rows as [|[i row] rest IH]; [apply emits_ret|].
  cbn [replay_rows].
  apply emits_bind; [apply emits_lift|]. intros message.
  apply emits_bind; [now apply emits_blocking|]. intros _.
  apply emits_bind; [now apply emits_emit|]. intros _.
  apply emits_bind; [|intros _; exact IH].
  destruct (Nat.ltb i (List.length time_diffs)
            && Qpositive (nth i time_diffs 0%Q)) eqn:Hgo; [|apply emits_ret].
  apply andb_prop in Hgo. now apply emits_blocking.
Qed.

Lemma replay_passes_emits (fuel : nat) (df : list Row.t) (time_diffs : list Q)
    (loop_data : bool) :
  emits working_event (replay_passes fuel df time_diffs loop_data).
Proof.
  induction fuel as [|fuel IH]; [apply emits_pending|].
  cbn [replay_passes].
  apply emits_bind; [apply replay_rows_emits|]. intros _.
  destruct (negb loop_data); [apply emits_ret|].
  apply emits_bind; [now apply emits_emit|]. intros _.
  apply emits_bind; [now apply emits_blocking | intros _; exact IH].
Qed.

Lemma replay_try_emits (fuel : nat) (src : source) (loop_data : bool) :
  emits working_event (replay_try fuel src loop_data).
Proof.
  unfold replay_try.
  apply emits_bind; [destruct src; (apply emits_ret || apply emits_raise)|].
  intros df.
  apply emits_bind; [apply emits_lift|]. intros time_diffs.
  apply emits_bind; [now apply emits_emit|]. intros _.
  apply emits_bind; [apply replay_passes_emits|]. intros _.
  apply emits_bind; [now apply emits_emit|]. intros _.
  apply emits_bind; [now apply emits_blocking|]. intros _.
  now apply emits_blocking.
Qed.

Lemma replay_guarded_emits (fuel : nat) (src : source) (loop_data : bool) :
  emits working_event (try_except (replay_try fuel src loop_data) replay_handler).
Proof.
  apply emits_try_except; [apply replay_try_emits|].
  intros e h Hh.
  destruct (replay_handler_cases e) as [[He _] | [He _]];
    rewrite He in Hh; injection Hh as <-; now apply emits_emit.
Qed.

(** Every exception of the [try] block meets one of the [except] clauses. *)
Lemma replay_guarded_returns (fuel : nat) (src : source) (loop_data : bool)
    (w : world) (e : exn) :
  snd (try_except (replay_try fuel src loop_data) replay_handler w) <> Raised e.
Proof.
  unfold try_except.
  destruct (replay_try fuel src loop_data w) as [w1 [[]|e1|]]; cbn; try discriminate.
  destruct (replay_handler_cases e1) as [[-> _] | [-> _]]; cbn; discriminate.
Qed.

Lemma replay_finally_spec (w : world) :
  replay_finally w = (mkWorld (trace w ++ release) (clock w) (signal w), Done tt).
Proof.
  unfold replay_finally, bind, print, emit. cbn [trace clock signal].
  unfold release. now rewrite <- !app_assoc.
Qed.

(** [replay] from the [try] block on, after the three events before it. *)
Lemma replay_run_entered (fuel : nat) (src : source) (loop_data : bool)
    (sig : option nat) :
  src <> Missing -> sig <> Some 0%nat ->
  run (replay fuel src loop_data) sig
  = let (w, r) :=
      try_finally (try_except (replay_try fuel src loop_data) replay_handler)
        replay_finally
        (mkWorld [Bind "tcp://*:5555"; Print ReplayerRunning; Sleep 1] 1 sig)
    in (trace w, r).
Proof.
  intros Hsrc Hsig. unfold run, replay.
  destruct src as [| |df]; [congruence | |];
    unfold bind at 1 2 3;
    cbn [emit print sleep blocking trace clock signal app];
    destruct sig as [[|k]|]; try congruence; reflexivity.
Qed.

Lemma replay_run_interrupted_at_start (fuel : nat) (src : source) (loop_data : bool) :
  src <> Missing ->
  run (replay fuel src loop_data) (Some 0%nat)
  = ([Bind "tcp://*:5555"; Print ReplayerRunning], Raised KeyboardInterrupt).
Proof. intros Hsrc. destruct src; [congruence | reflexivity | reflexivity]. Qed.

(** The trace and the outcome of [replay] once the [try] block is entered:
    working events, then the release unless the run has not returned. *)
Lemma replay_entered_trace (fuel : nat) (src : source) (loop_data : bool)
    (sig : option nat) :
  src <> Missing -> sig <> Some 0%nat ->
  exists evs,
    forallb working_event evs = true /\
    (run (replay fuel src loop_data) sig
     = ([Bind "tcp://*:5555"; Print ReplayerRunning; Sleep 1] ++ evs, Pending) \/
     run (replay fuel src loop_data) sig
     = ([Bind "tcp://*:5555"; Print ReplayerRunning; Sleep 1] ++ evs ++ release,
        Done tt)).
Proof.
  intros Hsrc Hsig. rewrite (replay_run_entered _ _ _ _ Hsrc Hsig).
  set (w0 := mkWorld _ 1 sig).
  destruct (replay_guarded_emits fuel src loop_data w0) as [evs [[Htr _] Hev]].
  pose proof (replay_guarded_returns fuel src loop_data w0) as Hret.
  exists evs. split; [exact Hev|].
  unfold try_finally.
  destruct (try_except (replay_try fuel src loop_data) replay_handler w0)
    as [w1 [[]|e|]]; cbn [fst snd trace] in *.
  - right. rewrite replay_finally_spec. cbn [trace]. now rewrite Htr, <- app_assoc.
  - exfalso. now apply (Hret e).
  - left. now rewrite Htr.
Qed.

(** X1. [replay] uses its socket in order on every run, whatever the source,
    the number of passes followed and the moment of an interruption: it
    binds once before anything is sent, sends only while the socket is
    open, and closes the socket before it ends the context. A run that
    returns has released both; a run that found no file never opened a
    socket. Every pause it takes is of positive length. *)
Theorem replay_socket_discipline (fuel : nat) (src : source) (loop_data : bool)
    (sig : option nat) :
  let (tr, out) := run (replay fuel src loop_data) sig in
  socket_run Fresh tr
  = Some match src, out with
         | Missing, _ => Fresh
         | _, Done _ => Terminated
         | _, _ => Open
         end /\
  forallb sleeps_positive tr = true.
Proof.
  destruct (source_eq_Missing src) as [-> | Hsrc]; [now destruct fuel|].
  assert (Hst : forall out : outcome unit,
             match src, out with
             | Missing, _ => Fresh
             | _, Done _ => Terminated
             | _, _ => Open
             end = match out with Done _ => Terminated | _ => Open end).
  { intros out. destruct src; [congruence | reflexivity | reflexivity]. }
  destruct (run (replay fuel src loop_data) sig) as [tr out] eqn:Hrun.
  rewrite Hst. clear Hst.
  destruct (option_nat_eq_0 sig) as [-> | Hsig].
  { rewrite (replay_run_interrupted_at_start _ _ _ Hsrc) in Hrun.
    injection Hrun as <- <-. split; reflexivity. }
  destruct (replay_entered_trace fuel src loop_data sig Hsrc Hsig)
    as [evs [Hev [H | H]]]; rewrite H in Hrun; injection Hrun as <- <-.
  - split.
    + cbn [app socket_run socket_step]. now apply socket_run_working.
    + cbn [app forallb sleeps_positive]. now apply working_sleeps_positive.
  - split.
    + cbn [app socket_run socket_step]. rewrite socket_run_app.
      now rewrite (socket_run_working _ Hev).
    + cbn [app forallb sleeps_positive]. rewrite forallb_app.
      now rewrite (working_sleeps_positive _ Hev).
Qed.


(** ** What an interruption leaves of a run *)

Lemma cut_pure {A : Type} (m : M A) (o : outcome A) :
  (forall w, m w = (w, o)) -> cut m.
Proof.
  intros Hm tr. exists [], o. split.
  - intros c. exists c. rewrite Hm. unfold quiet. now rewrite app_nil_r.
  - intros w _. exists w, o, 0%nat. split; [apply Hm|].
    split; [apply extends_refl | now left].
Qed.

Lemma cut_ret {A : Type} (a : A) : cut (ret a).
Proof. now apply (cut_pure _ (Done a)). Qed.

Lemma cut_raise {A : Type} (e : exn) : cut (@raise A e).
Proof. now apply (cut_pure _ (Raised e)). Qed.

Lemma cut_pending {A : Type} : cut (@pending A).
Proof. now apply (cut_pure _ Pending). Qed.

Lemma cut_lift {A : Type} (r : result A) : cut (lift r).
Proof. destruct r; [apply cut_ret | apply cut_raise]. Qed.

Lemma cut_emit (ev : event) : cut (emit ev).
Proof.
  intros tr. exists [ev], (Done tt). split.
  - intros c. now exists c.
  - intros w <-. eexists _, _, 1%nat. split; [reflexivity|].
    split; [split; reflexivity | now left].
Qed.

Lemma cut_blocking (ev : event) : cut (blocking ev).
Proof.
  intros tr. exists [ev], (Done tt). split.
  - intros c. now exists (S c).
  - intros w <-.
    destruct (blocking_extends ev w) as [w' [[Hb Hx] | [Hb Hx]]].
    + exists w', (Done tt), 1%nat. split; [exact Hb|]. split; [exact Hx | now left].
    + exists w', (Raised KeyboardInterrupt), 0%nat.
      split; [exact Hb|]. split; [exact Hx | now right].
Qed.

Lemma firstn_app_left {A : Type} (n : nat) (l1 l2 : list A) :
  firstn n l1 = firstn (Nat.min n (List.length l1)) (l1 ++ l2).
Proof.
  rewrite firstn_app.
  replace (Nat.min n (List.length l1) - List.length l1)%nat with 0%nat by lia.
  cbn [firstn]. rewrite app_nil_r.
  destruct (Nat.le_ge_cases n (List.length l1)) as [H | H].
  - now rewrite Nat.min_l.
  - rewrite Nat.min_r by exact H. now rewrite firstn_all, firstn_all2.
Qed.

Lemma firstn_app_right {A : Type} (n : nat) (l1 l2 : list A) :
  l1 ++ firstn n l2 = firstn (List.length l1 + n) (l1 ++ l2).
Proof.
  rewrite firstn_app.
  replace (List.length l1 + n - List.length l1)%nat with n by lia.
  f_equal. symmetry. apply firstn_all2. lia.
Qed.

Lemma cut_bind {A B : Type} (m : M A) (k : A -> M B) :
  cut m -> (forall a, cut (k a)) -> cut (bind m k).
Proof.
  intros Hm Hk tr. destruct (Hm tr) as [evs1 [o1 [Hq1 Hi1]]].
  destruct o1 as [a|e1|].
  - destruct (Hk a (tr ++ evs1)) as [evs2 [o2 [Hq2 Hi2]]].
    exists (evs1 ++ evs2), o2. split.
    + intros c. destruct (Hq1 c) as [c1 H1]. destruct (Hq2 c1) as [c2 H2].
      exists c2. rewrite (bind_Done _ _ _ _ _ H1), H2. now rewrite app_assoc.
    + intros w Hw. destruct (Hi1 w Hw) as [w1 [o [n1 [H1 [Hx1 Ho]]]]].
      destruct Ho as [[-> Hfull] | ->].
      * rewrite Hfull in Hx1.
        assert (Hw1 : trace w1 = tr ++ evs1) by (destruct Hx1; congruence).
        destruct (Hi2 w1 Hw1) as [w2 [o [n2 [H2 [Hx2 Ho]]]]].
        exists w2, o, (List.length evs1 + n2)%nat.
        rewrite (bind_Done _ _ _ _ _ H1). split; [exact H2|].
        rewrite <- firstn_app_right.
        split; [eapply extends_trans; eassumption|].
        destruct Ho as [[-> Hfull2] | ->]; [left | now right].
        now rewrite Hfull2.
      * exists w1, (Raised KeyboardInterrupt), (Nat.min n1 (List.length evs1)).
        rewrite (bind_Raised _ _ _ _ _ H1). split; [reflexivity|].
        rewrite <- firstn_app_left. split; [exact Hx1 | now right].
  - exists evs1, (Raised e1). split.
    + intros c. destruct (Hq1 c) as [c1 H1]. exists c1.
      now rewrite (bind_Raised _ _ _ _ _ H1).
    + intros w Hw. destruct (Hi1 w Hw) as [w1 [o [n1 [H1 [Hx1 Ho]]]]].
      destruct Ho as [[-> Hfull] | ->];
        rewrite (bind_Raised _ _ _ _ _ H1); eexists _, _, n1;
        (split; [reflexivity|]); (split; [exact Hx1|]); auto.
  - exists evs1, Pending. split.
    + intros c. destruct (Hq1 c) as [c1 H1]. exists c1.
      now rewrite (bind_Pending _ _ _ _ H1).
    + intros w Hw. destruct (Hi1 w Hw) as [w1 [o [n1 [H1 [Hx1 Ho]]]]].
      destruct Ho as [[-> Hfull] | ->].
      * rewrite (bind_Pending _ _ _ _ H1). eexists _, _, n1.
        split; [reflexivity|]. split; [exact Hx1|]. auto.
      * rewrite (bind_Raised _ _ _ _ _ H1). eexists _, _, n1.
        split; [reflexivity|]. split; [exact Hx1|]. auto.
Qed.

Lemma replay_rows_cut (time_diffs : list Q) (rows : list (nat * Row.t)) :
  cut (replay_rows rows time_diffs).
Proof.
  induction rows as [|[i row] rest IH]; [apply cut_ret|].
  cbn [replay_rows].
  apply cut_bind; [apply cut_lift|]. intros message.
  apply cut_bind; [apply cut_blocking|]. intros _.
  apply cut_bind; [apply cut_emit|]. intros _.
  apply cut_bind; [|intros _; exact IH].
  destruct (Nat.ltb i (List.length time_diffs)
            && Qpositive (nth i time_diffs 0%Q));
    [apply cut_blocking | apply cut_ret].
Qed.

Lemma replay_passes_cut (fuel : nat) (df : list Row.t) (time_diffs : list Q)
    (loop_data : bool) :
  cut (replay_passes fuel df time_diffs loop_data).
Proof.
  induction fuel as [|fuel IH]; [apply cut_pending|].
  cbn [replay_passes].
  apply cut_bind; [apply replay_rows_cut|]. intros _.
  destruct (negb loop_data); [apply cut_ret|].
  apply cut_bind; [apply cut_emit|]. intros _.
  apply cut_bind; [apply cut_blocking | intros _; exact IH].
Qed.

Lemma replay_try_cut (fuel : nat) (src : source) (loop_data : bool) :
  cut (replay_try fuel src loop_data).
Proof.
  unfold replay_try.
  apply cut_bind; [destruct src; (apply cut_ret || apply cut_raise)|].
  intros df.
  apply cut_bind; [apply cut_lift|]. intros time_diffs.
  apply cut_bind; [apply cut_emit|]. intros _.
  apply cut_bind; [apply replay_passes_cut|]. intros _.
  apply cut_bind; [apply cut_emit|]. intros _.
  apply cut_bind; [apply cut_blocking|]. intros _.
  apply cut_blocking.
Qed.

Lemma sends_firstn (n : nat) (tr : list event) :
  exists n', sends (firstn n tr) = firstn n' (sends tr).
Proof.
  revert n. induction tr as [|ev tr IH]; intros n.
  - exists 0%nat. now rewrite firstn_nil.
  - destruct n as [|n]; [now exists 0%nat|].
    destruct (IH n) as [n' Hn']. cbn [firstn].
    destruct ev; cbn [sends]; try (now exists n').
    exists (S n'). cbn [firstn]. now rewrite Hn'.
Qed.

(** What the [except] and [finally] clauses of [replay] add to the trace
    of the [try] block sends nothing. *)
Lemma replay_clauses_send_nothing (body : M unit) (w : world) :
  exists tail,
    trace (fst (try_finally (try_except body replay_handler) replay_finally w))
    = trace (fst (body w)) ++ tail /\
    sends tail = [].
Proof.
  unfold try_finally, try_except.
  destruct (body w) as [w1 [[]|e|]]; cbn [fst].
  - rewrite replay_finally_spec. now exists release.
  - destruct (replay_handler_cases e) as [[-> _] | [-> _]];
      cbn [print emit]; rewrite replay_finally_spec; cbn [fst trace];
      rewrite <- app_assoc; eexists; (split; [reflexivity|]); reflexivity.
  - exists []. now rewrite app_nil_r.
Qed.

(** X3. An interruption never changes what [replay] sends before it: the
    messages of an interrupted run, in order, are an initial segment of
    the messages of the run on the same source that nobody interrupts. *)
Theorem replay_interrupted_sends_prefix (fuel : nat) (src : source)
    (loop_data : bool) (sig : option nat) :
  exists n,
    sends (fst (run (replay fuel src loop_data) sig))
    = firstn n (sends (fst (run (replay fuel src loop_data) None))).
Proof.
  destruct (source_eq_Missing src) as [-> | Hsrc]; [now exists 0%nat|].
  destruct (option_nat_eq_0 sig) as [-> | Hsig].
  { exists 0%nat. now rewrite (replay_run_interrupted_at_start _ _ _ Hsrc). }
  rewrite (replay_run_entered _ _ _ _ Hsrc Hsig).
  rewrite (replay_run_entered _ _ _ None Hsrc) by discriminate.
  set (pre := [Bind "tcp://*:5555"; Print ReplayerRunning; Sleep 1]).
  destruct (replay_try_cut fuel src loop_data pre) as [evsQ [oQ [Hq Hi]]].
  destruct (Hq 1%nat) as [c' HQ].
  destruct (Hi (mkWorld pre 1 sig) eq_refl) as [w' [o [n [HI [[Htr _] _]]]]].
  cbn [trace] in Htr.
  destruct (replay_clauses_send_nothing (replay_try fuel src loop_data)
              (mkWorld pre 1 sig)) as [tail1 [Ht1 Hs1]].
  destruct (replay_clauses_send_nothing (replay_try fuel src loop_data)
              (mkWorld pre 1 None)) as [tail2 [Ht2 Hs2]].
  unfold quiet in HQ. rewrite HI in Ht1. rewrite HQ in Ht2. cbn [fst trace] in Ht1, Ht2.
  destruct (try_finally _ _ (mkWorld pre 1 sig)) as [w1 o1].
  destruct (try_finally _ _ (mkWorld pre 1 None)) as [w2 o2].
  cbn [fst] in *. rewrite Ht1, Ht2, Htr, !sends_app, Hs1, Hs2, !app_nil_r.
  cbn [pre sends app]. apply sends_firstn.
Qed.

(** ** A looping replay *)

Lemma emits_weaken {A : Type} (P Q : event -> bool) (m : M A) :
  (forall ev, P ev = true -> Q ev = true) -> emits P m -> emits Q m.
Proof.
  intros HPQ Hm w. destruct (Hm w) as [evs [Hx Hp]]. exists evs.
  split; [exact Hx|]. rewrite forallb_forall in *. auto.
Qed.

(** A continuation that is never reached adds nothing. *)
Lemma emits_bind_unreached {A B : Type} (P : event -> bool) (m : M A) (k : A -> M B) :
  emits P m -> (forall w a, snd (m w) <> Done a) -> emits P (bind m k).
Proof.
  intros Hm Hnever w. destruct (Hm w) as [evs [Hx Hp]].
  specialize (Hnever w). unfold bind.
  destruct (m w) as [w1 [a|e|]]; cbn [fst snd] in *.
  - now destruct (Hnever a).
  - now exists evs.
  - now exists evs.
Qed.

Lemma replay_passes_loop_emits (fuel : nat) (df : list Row.t) (time_diffs : list Q)
    (loop_data : bool) :
  emits loop_event (replay_passes fuel df time_diffs loop_data).
Proof.
  intros w.
  destruct (replay_passes_extends df time_diffs loop_data fuel w)
    as [w' [evs [out [Hr [Hx [Hev _]]]]]].
  exists evs. now rewrite Hr.
Qed.

Lemma replay_passes_never_done (fuel : nat) (df : list Row.t) (time_diffs : list Q)
    (w : world) (a : unit) :
  snd (replay_passes fuel df time_diffs true w) <> Done a.
Proof.
  destruct (replay_passes_extends df time_diffs true fuel w)
    as [w' [evs [out [Hr [_ [_ [Hdone _]]]]]]].
  rewrite Hr. cbn [snd]. intros ->. destruct a.
  specialize (Hdone eq_refl). discriminate.
Qed.

Lemma loop_event_not_sentinel (ev : event) :
  loop_event ev = true -> not_sentinel ev = true.
Proof. destruct ev as [| | | | |[]| |]; cbn; congruence. Qed.

Lemma replay_try_loop_emits (fuel : nat) (src : source) :
  emits not_sentinel (replay_try fuel src true).
Proof.
  unfold replay_try.
  apply emits_bind; [destruct src; (apply emits_ret || apply emits_raise)|].
  intros df.
  apply emits_bind; [apply emits_lift|]. intros time_diffs.
  apply emits_bind; [now apply emits_emit|]. intros _.
  apply emits_bind_unreached.
  - apply (emits_weaken loop_event); [apply loop_event_not_sentinel|].
    apply replay_passes_loop_emits.
  - intros w a. apply replay_passes_never_done.
Qed.

Lemma not_sentinel_In (evs : list event) (ev : event) :
  forallb not_sentinel evs = true -> not_sentinel ev = false -> ~ In ev evs.
Proof.
  intros Hall Hev Hin. rewrite forallb_forall in Hall.
  specialize (Hall ev Hin). congruence.
Qed.

(** X4. A looping replay never announces the end of the data: whatever the
    source, the number of passes followed and the moment of an
    interruption, it neither prints that the replay finished nor sends
    the sentinel. When it returns, it has reported an interruption or an
    error, or it found no file. *)
Theorem replay_loop_never_done (fuel : nat) (src : source) (sig : option nat) :
  let (tr, out) := run (replay fuel src true) sig in
  ~ In sentinel tr /\ ~ In (Print ReplayerFinished) tr /\
  (out = Done tt ->
   src = Missing \/ In (Print ReplayerInterrupted) tr \/
   exists e, is_Exception e = true /\ In (Print (ReplayerError e)) tr).
Proof.
  destruct (source_eq_Missing src) as [-> | Hsrc].
  { destruct fuel; cbn; (split; [|split]); auto; intros [H | []]; discriminate H. }
  destruct (option_nat_eq_0 sig) as [-> | Hsig].
  { rewrite (replay_run_interrupted_at_start _ _ _ Hsrc).
    split; [|split]; try discriminate;
      intros [H | [H | []]]; discriminate H. }
  rewrite (replay_run_entered _ _ _ _ Hsrc Hsig).
  set (w0 := mkWorld _ 1 sig).
  destruct (replay_try_loop_emits fuel src w0) as [evs [[Htr _] Hev]].
  cbn [trace w0] in Htr.
  assert (Hpre : forall tail,
             ~ In sentinel tail -> ~ In (Print ReplayerFinished) tail ->
             ~ In sentinel
                 (([Bind "tcp://*:5555"; Print ReplayerRunning; Sleep 1] ++ evs) ++ tail)
             /\ ~ In (Print ReplayerFinished)
                  (([Bind "tcp://*:5555"; Print ReplayerRunning; Sleep 1] ++ evs) ++ tail)).
  { intros tail H1 H2. split; intros Hin;
      apply in_app_or in Hin; destruct Hin as [Hin | Hin]; auto;
      apply in_app_or in Hin; destruct Hin as [Hin | Hin];
      try (revert Hin; now apply not_sentinel_In);
      destruct Hin as [H | [H | [H | []]]]; discriminate H. }
  unfold try_finally, try_except.
  destruct (replay_try fuel src true w0) as [w1 [[]|e|]] eqn:Htry;
    cbn [fst] in Htr.
  - exfalso.
    destruct (replay_try_ends fuel src true w0)
      as [w' [evs' [out' [Htry' [_ [Hends _]]]]]].
    rewrite Htry in Htry'. injection Htry' as <- <-.
    inversion Hends; discriminate.
  - destruct (replay_handler_cases e) as [[-> He] | [-> He]];
      cbn [print emit]; rewrite replay_finally_spec; cbn [trace];
      rewrite Htr, <- app_assoc.
    + destruct (Hpre ([Print ReplayerInterrupted] ++ release)) as [H1 H2];
        try (intros [H | [H | [H | [H | []]]]]; discriminate H).
      split; [exact H1|]. split; [exact H2|]. intros _. right. left.
      apply in_or_app. right. now left.
    + destruct (Hpre ([Print (ReplayerError e)] ++ release)) as [H1 H2];
        try (intros [H | [H | [H | [H | []]]]]; discriminate H).
      split; [exact H1|]. split; [exact H2|]. intros _. right. right.
      exists e. split; [exact He|]. apply in_or_app. right. now left.
  - cbn [trace]. rewrite Htr.
    destruct (Hpre []) as [H1 H2]; try (intros []).
    rewrite app_nil_r in H1, H2. split; [exact H1|]. split; [exact H2|].
    discriminate.
Qed.





(** ** A sample that does not encode *)






(** The exceptions of the encoder. *)
Lemma pack_sensor_data_raises (row : Row.t) :
  well_formed row = false ->
  exists e, pack_sensor_data row = Raise e /\ is_Exception e = true.
Proof.
  intros Hwf. unfold well_formed in Hwf.
  destruct (in_int32 (Row.sensor_id row) && in_int64 (Row.time row)) eqn:Hints.
  - exists OverflowError. split; [|reflexivity].
    now apply pack_sensor_data_floats.
  - exists StructError. split; [|reflexivity].
    now apply pack_sensor_data_ints.
Qed.



(** ** The time a replay takes *)






(** ** How the subscriber ends *)

Lemma zmq_matches_done (N : Z) : zmq_matches (subscriptions N) control_done = true.
Proof.
  unfold zmq_matches, subscriptions. rewrite existsb_app. cbn [existsb].
  rewrite prefix_refl. now rewrite orb_true_r.
Qed.

(** A run of [consume] that still waits has only run its loop. *)
Lemma consume_pending (N : Z) (stream : list arrival) (sig : option nat)
    (tr : list event) :
  run (consume N stream) sig = (tr, Pending) ->
  exists w,
    consume_loop (subscriptions N) stream
      (mkWorld ([Connect "tcp://localhost:5555"; Print (ConsumerSubscribing N)]
                  ++ map Subscribe (subscriptions N)) 0 sig)
    = (w, Pending) /\ trace w = tr.
Proof.
  rewrite consume_run. unfold try_finally, try_except.
  destruct (consume_loop (subscriptions N) stream _) as [w1 out1].
  intros Hrun. exists w1. destruct out1 as [[]|e|].
  - rewrite consumer_finally in Hrun. discriminate.
  - destruct e; cbn [consume_handler print emit] in Hrun;
      rewrite consumer_finally in Hrun; discriminate.
  - now inversion Hrun.
Qed.

(** X8. The done signal ends [consume] in good order: after the messages
    handled before it, [consume] prints that it received the signal,
    releases the socket and the context, and returns. The payload of the
    signal is not looked at, and nothing that follows it is read. *)
Theorem consume_stops_at_done (N : Z) (pre rest : list arrival)
    (payload : list byte) (sig : option nat) (tr : list event) :
  run (consume N pre) sig = (tr, Pending) ->
  run (consume N (pre ++ Message control_done payload :: rest)) sig
  = (tr ++ [Print ConsumerDone] ++ consumer_release, Done tt).
Proof.
  intros Hpre. destruct (consume_pending _ _ _ _ Hpre) as [w1 [Hloop <-]].
  rewrite consume_run. unfold try_finally, try_except.
  rewrite (consume_loop_app _ _ _ _ _ Hloop).
  cbn [consume_loop]. rewrite zmq_matches_done. cbn [String.eqb].
  change (String.eqb control_done control_done) with true. cbn [print emit].
  rewrite consumer_finally. cbn [trace]. now rewrite <- app_assoc.
Qed.

Lemma consume_stops_at_done_witness :
  run (consume 1 ([Message (sensor_topic 1) (frame_of (sample 1 100))]
                    ++ Message control_done truncated_payload
                    :: [Message (sensor_topic 1) (frame_of (sample 1 220))])) None
  = (fst (run (consume 1 [Message (sensor_topic 1) (frame_of (sample 1 100))]) None)
       ++ [Print ConsumerDone] ++ consumer_release,
     Done tt).
Proof.
  apply (consume_stops_at_done 1 [Message (sensor_topic 1) (frame_of (sample 1 100))]).
  reflexivity.
Defined.

(** X9. An interruption of the pending receive ([KeyboardInterrupt] or
    [SystemExit]) ends [consume] in good order too: it prints that it
    shuts down, releases the socket and the context, and returns
    normally, the exception going no further. *)
Theorem consume_interrupted (N : Z) (pre rest : list arrival) (e : exn)
    (sig : option nat) (tr : list event) :
  run (consume N pre) sig = (tr, Pending) ->
  is_Exception e = false ->
  run (consume N (pre ++ Interrupt e :: rest)) sig
  = (tr ++ [Print ConsumerShuttingDown] ++ consumer_release, Done tt).
Proof.
  intros Hpre He. destruct (consume_pending _ _ _ _ Hpre) as [w1 [Hloop <-]].
  rewrite consume_run. unfold try_finally, try_except.
  rewrite (consume_loop_app _ _ _ _ _ Hloop).
  cbn [consume_loop raise].
  destruct e; try discriminate He; cbn [consume_handler print emit];
    rewrite consumer_finally; cbn [trace]; now rewrite <- app_assoc.
Qed.

Lemma consume_interrupted_witness :
  run (consume 1 ([Message (sensor_topic 1) (frame_of (sample 1 100))]
                    ++ Interrupt KeyboardInterrupt
                    :: [Message control_done []])) None
  = (fst (run (consume 1 [Message (sensor_topic 1) (frame_of (sample 1 100))]) None)
       ++ [Print ConsumerShuttingDown] ++ consumer_release,
     Done tt).
Proof.
  apply (consume_interrupted 1 [Message (sensor_topic 1) (frame_of (sample 1 100))]).
  - reflexivity.
  - reflexivity.
Defined.

(** ** The subscriber keeps to the life of its socket *)

Lemma consume_loop_emits (subs : list string) (stream : list arrival) :
  emits working_event (consume_loop subs stream).
Proof.
  induction stream as [|[topic message_bytes|e] stream IH];
    [apply emits_pending | | apply emits_raise].
  cbn [consume_loop].
  destruct (zmq_matches subs topic); [|exact IH].
  destruct (String.eqb topic control_done); [now apply emits_emit|].
  apply emits_bind; [apply emits_lift|]. intros data.
  apply emits_bind; [now apply emits_emit | intros _; exact IH].
Qed.

Lemma socket_run_subscribe (subs : list string) :
  socket_run Open (map Subscribe subs) = Some Open.
Proof. induction subs as [|p subs IH]; [reflexivity | exact IH]. Qed.

(** X10. [consume] uses its socket in order on every run: it connects, then
    subscribes, and receives only while the socket is open. Whenever it
    returns or lets an exception through (a payload that does not decode),
    it has closed the socket and ended the context, once each; while it
    waits for a message the socket is open. *)
Theorem consume_socket_discipline (N : Z) (stream : list arrival) (sig : option nat) :
  let (tr, out) := run (consume N stream) sig in
  socket_run Fresh tr
  = Some match out with
         | Pending => Open
         | _ => Terminated
         end.
Proof.
  rewrite consume_run. unfold try_finally.
  set (w0 := mkWorld _ 0 sig).
  assert (Hg : emits working_event
                 (try_except (consume_loop (subscriptions N) stream) consume_handler)).
  { apply emits_try_except; [apply consume_loop_emits|].
    intros e h Hh. destruct e; try discriminate Hh;
      injection Hh as <-; now apply emits_emit. }
  destruct (Hg w0) as [evs [[Htr _] Hev]]. cbn [trace w0] in Htr.
  assert (Hopen : socket_run Fresh
                    (([Connect "tcp://localhost:5555"; Print (ConsumerSubscribing N)]
                        ++ map Subscribe (subscriptions N)) ++ evs)
                  = Some Open).
  { cbn [app socket_run socket_step]. rewrite socket_run_app, socket_run_subscribe.
    now apply socket_run_working. }
  destruct (try_except _ _ w0) as [w1 [[]|e|]]; cbn [fst] in Htr;
    try rewrite consumer_finally; cbn [trace]; rewrite Htr;
    try rewrite (socket_run_app _ (_ ++ evs) consumer_release);
    rewrite Hopen; reflexivity.
Qed.

(** ** From the log to the display *)

Lemma well_formed_ints (row : Row.t) :
  well_formed row = true ->
  in_int32 (Row.sensor_id row) = true /\ in_int64 (Row.time row) = true.
Proof.
  unfold well_formed. intros H.
  apply andb_prop in H. destruct H as [H _].
  now apply andb_prop in H.
Qed.








(** ** From a frame back to the same frame *)

Lemma unpack_i_repack (bs : list byte) :
  List.length bs = 4%nat ->
  in_int32 (unpack_i bs) = true /\ le_bytes 4 (unpack_i bs mod 2 ^ 32) = bs.
Proof.
  intros Hlen. pose proof (le_value_range bs) as Hr. rewrite Hlen in Hr.
  pose proof (le_bytes_le_value bs) as Hb. rewrite Hlen in Hb.
  unfold unpack_i, in_int32.
  change (8 * Z.of_nat 4) with 32 in Hr.
  change (2 ^ 32) with 4294967296 in *. change (2 ^ 31) with 2147483648.
  destruct (Z.ltb_spec (le_value bs) 2147483648).
  - split.
    + apply andb_true_intro. split; [apply Z.leb_le | apply Z.ltb_lt]; lia.
    + rewrite Z.mod_small by lia. exact Hb.
  - split.
    + apply andb_true_intro. split; [apply Z.leb_le | apply Z.ltb_lt]; lia.
    + replace ((le_value bs - 4294967296) mod 4294967296) with (le_value bs);
        [exact Hb|].
      apply (Z.mod_unique _ _ (- 1)); lia.
Qed.

Lemma unpack_q_repack (bs : list byte) :
  List.length bs = 8%nat ->
  in_int64 (unpack_q bs) = true /\ le_bytes 8 (unpack_q bs mod 2 ^ 64) = bs.
Proof.
  intros Hlen. pose proof (le_value_range bs) as Hr. rewrite Hlen in Hr.
  pose proof (le_bytes_le_value bs) as Hb. rewrite Hlen in Hb.
  unfold unpack_q, in_int64.
  change (8 * Z.of_nat 8) with 64 in Hr.
  change (2 ^ 64) with 18446744073709551616 in *.
  change (2 ^ 63) with 9223372036854775808.
  destruct (Z.ltb_spec (le_value bs) 9223372036854775808).
  - split.
    + apply andb_true_intro. split; [apply Z.leb_le | apply Z.ltb_lt]; lia.
    + rewrite Z.mod_small by lia. exact Hb.
  - split.
    + apply andb_true_intro. split; [apply Z.leb_le | apply Z.ltb_lt]; lia.
    + replace ((le_value bs - 18446744073709551616) mod 18446744073709551616)
        with (le_value bs); [exact Hb|].
      apply (Z.mod_unique _ _ (- 1)); lia.
Qed.

Lemma bounded_b32_subnormal (fr : Z) :
  0 < fr < 2 ^ 23 -> bounded 24 128 (Z.to_pos fr) (- 149) = true.
Proof.
  intros Hfr. unfold bounded, canonical_mantissa, fexp, emin.
  apply andb_true_intro. split; [|reflexivity].
  apply Z.eqb_eq.
  pose proof (digits2_pos_bounds (Z.to_pos fr)) as Hd.
  rewrite Z2Pos.id in Hd by lia.
  set (d := Zpos (digits2_pos (Z.to_pos fr))) in *.
  assert (Hd0 : 0 < d) by (unfold d; lia).
  assert (d <= 23).
  { destruct (Z_le_gt_dec d 23) as [H | H]; [exact H|].
    assert (2 ^ 23 <= 2 ^ (d - 1)) by (apply Z.pow_le_mono_r; lia). lia. }
  lia.
Qed.

Lemma bounded_b32_normal (fr ex : Z) :
  0 <= fr < 2 ^ 23 -> 0 < ex < 255 ->
  bounded 24 128 (Z.to_pos (fr + 2 ^ 23)) (ex - 150) = true.
Proof.
  intros Hfr Hex. unfold bounded, canonical_mantissa, fexp, emin.
  assert (Hd : Zpos (digits2_pos (Z.to_pos (fr + 2 ^ 23))) = 24).
  { change (Zpos (digits2_pos (Z.to_pos (fr + 2 ^ 23))))
      with (Zdigits2 (Zpos (Z.to_pos (fr + 2 ^ 23)))).
    apply Zdigits2_unique; [lia|].
    rewrite Z2Pos.id by lia. change (24 - 1) with 23.
    change (2 ^ 24) with (2 * 2 ^ 23). lia. }
  rewrite Hd. apply andb_true_intro. split.
  - apply Z.eqb_eq. lia.
  - apply Z.leb_le. lia.
Qed.

Lemma bits_fields (b : Z) :
  0 <= b < 2 ^ 32 ->
  0 <= (b / 2 ^ 23) mod 256 < 256 /\ 0 <= b mod 2 ^ 23 < 2 ^ 23 /\
  b = sign_bit (2 ^ 31 <=? b) + ((b / 2 ^ 23) mod 256) * 2 ^ 23 + b mod 2 ^ 23.
Proof.
  intros Hb. change (2 ^ 23) with 8388608. change (2 ^ 32) with 4294967296 in Hb.
  unfold sign_bit. change (2 ^ 31) with 2147483648.
  destruct (Z.leb_spec 2147483648 b); Z.div_mod_to_equations; lia.
Qed.

Lemma b32_of_bits_valid (b : Z) :
  0 <= b < 2 ^ 32 -> valid_b32 (b32_of_bits b) = true.
Proof.
  intros Hb. destruct (bits_fields b Hb) as [Hex [Hfr _]].
  unfold b32_of_bits, valid_b32.
  destruct (Z.eqb_spec ((b / 2 ^ 23) mod 256) 0) as [E0 | E0].
  - destruct (Z.eqb_spec (b mod 2 ^ 23) 0); [reflexivity|].
    cbn [valid_binary]. apply bounded_b32_subnormal. lia.
  - destruct (Z.eqb_spec ((b / 2 ^ 23) mod 256) 255) as [E1 | E1].
    + destruct (Z.eqb_spec (b mod 2 ^ 23) 0); reflexivity.
    + cbn [valid_binary]. apply bounded_b32_normal; lia.
Qed.

(** The bit pattern of every binary32 value but a NaN is kept. *)
Lemma bits_of_b32_of_bits (b : Z) :
  0 <= b < 2 ^ 32 -> is_nan (b32_of_bits b) = false ->
  bits_of_b32 (b32_of_bits b) = b.
Proof.
  intros Hb. destruct (bits_fields b Hb) as [Hex [Hfr Hsum]].
  unfold b32_of_bits.
  remember (2 ^ 31 <=? b) as s eqn:Es. remember ((b / 2 ^ 23) mod 256) as ex eqn:Eex.
  remember (b mod 2 ^ 23) as fr eqn:Efr. clear Es Eex Efr.
  change (2 ^ 23) with 8388608 in *.
  destruct (Z.eqb_spec ex 0) as [E0 | E0].
  - destruct (Z.eqb_spec fr 0) as [F0 | F0]; intros _; cbn [bits_of_b32];
      change (2 ^ 23) with 8388608.
    + lia.
    + rewrite Z2Pos.id by lia.
      destruct (Z.ltb_spec fr 8388608); lia.
  - destruct (Z.eqb_spec ex 255) as [E1 | E1].
    + destruct (Z.eqb_spec fr 0) as [F0 | F0]; [intros _ | discriminate].
      cbn [bits_of_b32]. change (2 ^ 23) with 8388608. lia.
    + intros _. cbn [bits_of_b32]. change (2 ^ 23) with 8388608.
      rewrite Z2Pos.id by lia.
      destruct (Z.ltb_spec (fr + 8388608) 8388608); lia.
Qed.

Lemma is_nan_double_cast (y : spec_float) :
  valid_b32 y = true -> is_nan (double_cast y) = is_nan y.
Proof.
  destruct y as [s|s| |s m e]; try reflexivity.
  cbn [valid_b32 valid_binary]. intros Hb.
  destruct (double_cast_finite s m e Hb) as [p ->]. reflexivity.
Qed.

(** A decoded float encodes, and to the bytes it came from unless it is a
    NaN. *)
Lemma pack_f_unpack_f (bs : list byte) :
  List.length bs = 4%nat ->
  fits_f32 (unpack_f bs) = true /\
  (is_nan (unpack_f bs) = false -> pack_f (unpack_f bs) = Ok bs).
Proof.
  intros Hlen. pose proof (le_value_range bs) as Hr. rewrite Hlen in Hr.
  change (8 * Z.of_nat 4) with 32 in Hr.
  pose proof (b32_of_bits_valid _ Hr) as Hv.
  unfold unpack_f, PyFloat_Unpack4.
  assert (Hfits : fits_f32 (double_cast (b32_of_bits (le_value bs))) = true).
  { unfold fits_f32. rewrite (float_cast_double_cast _ Hv).
    rewrite (is_infinity_double_cast _ Hv).
    now destruct (is_infinity (b32_of_bits (le_value bs))). }
  split; [exact Hfits|]. intros Hnan.
  rewrite pack_f_fits, Hfits, (float_cast_double_cast _ Hv).
  rewrite (is_nan_double_cast _ Hv) in Hnan.
  rewrite (bits_of_b32_of_bits _ Hr Hnan).
  pose proof (le_bytes_le_value bs) as Hb. rewrite Hlen in Hb. now rewrite Hb.
Qed.

Lemma slice_length (lo hi : nat) (bs : list byte) :
  (hi <= List.length bs)%nat -> List.length (slice lo hi bs) = (hi - lo)%nat.
Proof.
  intros Hhi. unfold slice. rewrite length_firstn, length_skipn. lia.
Qed.

Lemma slice_split (lo mid hi : nat) (bs : list byte) :
  (lo <= mid)%nat -> (mid <= hi)%nat ->
  slice lo hi bs = slice lo mid bs ++ slice mid hi bs.
Proof.
  intros H1 H2. unfold slice.
  replace (hi - lo)%nat with ((mid - lo) + (hi - mid))%nat by lia.
  rewrite <- (firstn_skipn (mid - lo) (firstn _ (skipn lo bs))) at 1.
  rewrite firstn_firstn, Nat.min_l by lia. f_equal.
  rewrite skipn_firstn_comm.
  replace (mid - lo + (hi - mid) - (mid - lo))%nat with (hi - mid)%nat by lia.
  rewrite skipn_skipn. now replace (mid - lo + lo)%nat with mid by lia.
Qed.

Lemma frame_fields (bs : list byte) :
  List.length bs = 40%nat ->
  bs = slice 0 4 bs ++ slice 4 12 bs ++ slice 12 16 bs ++ slice 16 20 bs ++
       slice 20 24 bs ++ slice 24 28 bs ++ slice 28 32 bs ++ slice 32 36 bs ++
       slice 36 40 bs.
Proof.
  intros Hlen.
  rewrite <- (slice_split 32 36 40), <- (slice_split 28 32 40),
    <- (slice_split 24 28 40), <- (slice_split 20 24 40),
    <- (slice_split 16 20 40), <- (slice_split 12 16 40),
    <- (slice_split 4 12 40), <- (slice_split 0 4 40) by lia.
  unfold slice. cbn [skipn Nat.sub]. symmetry. apply firstn_all2. lia.
Qed.

(** X12. Decoding is undone by encoding: every message of 40 bytes decodes
    to a tuple whose fields all encode (its integers are within their
    widths and its floats within the single-precision range), and when
    none of the seven floats is a NaN, encoding that tuple gives back the
    very bytes of the message. *)
Theorem pack_unpack_roundtrip (message_bytes : list byte) :
  List.length message_bytes = 40%nat ->
  exists data,
    unpack_sensor_data message_bytes = Ok data /\
    well_formed (row_of data) = true /\
    (forallb (fun v => negb (is_nan v)) (floats (row_of data)) = true ->
     pack_sensor_data (row_of data) = Ok message_bytes).
Proof.
  intros Hlen. unfold unpack_sensor_data. rewrite Hlen. cbn [Nat.eqb frame_size].
  eexists. split; [reflexivity|].
  destruct (unpack_i_repack (slice 0 4 message_bytes)) as [Hi Hib];
    [rewrite slice_length; lia|].
  destruct (unpack_q_repack (slice 4 12 message_bytes)) as [Ht Htb];
    [rewrite slice_length; lia|].
  destruct (pack_f_unpack_f (slice 12 16 message_bytes)) as [H1 P1];
    [rewrite slice_length; lia|].
  destruct (pack_f_unpack_f (slice 16 20 message_bytes)) as [H2 P2];
    [rewrite slice_length; lia|].
  destruct (pack_f_unpack_f (slice 20 24 message_bytes)) as [H3 P3];
    [rewrite slice_length; lia|].
  destruct (pack_f_unpack_f (slice 24 28 message_bytes)) as [H4 P4];
    [rewrite slice_length; lia|].
  destruct (pack_f_unpack_f (slice 28 32 message_bytes)) as [H5 P5];
    [rewrite slice_length; lia|].
  destruct (pack_f_unpack_f (slice 32 36 message_bytes)) as [H6 P6];
    [rewrite slice_length; lia|].
  destruct (pack_f_unpack_f (slice 36 40 message_bytes)) as [H7 P7];
    [rewrite slice_length; lia|].
  split.
  - unfold well_formed, row_of, floats.
    cbn [Row.sensor_id Row.time Row.x Row.y Row.z Row.qw Row.qx Row.qy Row.qz forallb].
    now rewrite Hi, Ht, H1, H2, H3, H4, H5, H6, H7.
  - unfold row_of, floats.
    cbn [Row.sensor_id Row.time Row.x Row.y Row.z Row.qw Row.qx Row.qy Row.qz forallb].
    intros Hnan.
    repeat (apply andb_prop in Hnan; destruct Hnan as [?Hn Hnan]).
    repeat match goal with
           | H : negb _ = true |- _ => apply negb_true_iff in H
           end.
    unfold pack_sensor_data, pack_i, pack_q.
    cbn [Row.sensor_id Row.time Row.x Row.y Row.z Row.qw Row.qx Row.qy Row.qz].
    rewrite Hi, Ht, Hib, Htb.
    rewrite P1, P2, P3, P4, P5, P6, P7 by assumption.
    cbn [rbind]. f_equal. symmetry. now apply frame_fields.
Qed.

Lemma pack_unpack_roundtrip_witness :
  exists data,
    unpack_sensor_data (repeat Byte.xff 3 ++ repeat Byte.x7f 37) = Ok data /\
    well_formed (row_of data) = true /\
    (forallb (fun v => negb (is_nan v)) (floats (row_of data)) = true ->
     pack_sensor_data (row_of data) = Ok (repeat Byte.xff 3 ++ repeat Byte.x7f 37)).
Proof.
  apply (pack_unpack_roundtrip (repeat Byte.xff 3 ++ repeat Byte.x7f 37)).
  reflexivity.
Defined.

(** ** Frames tell samples apart *)

Lemma pack_sensor_data_Ok (row : Row.t) (frame : list byte) :
  pack_sensor_data row = Ok frame -> well_formed row = true /\ frame = frame_of row.
Proof.
  intros Hpack. destruct (well_formed row) eqn:Hwf.
  - rewrite (pack_sensor_data_well_formed row Hwf) in Hpack.
    injection Hpack as <-. auto.
  - destruct (pack_sensor_data_raises row Hwf) as [e [He _]]. congruence.
Qed.

(** X13. Two samples with the same frame are the same sample as far as a
    frame can tell: they have the same sensor identifier and the same
    timestamp, and their floats agree once rounded to single precision. *)
Theorem pack_sensor_data_injective (row1 row2 : Row.t) (frame : list byte) :
  pack_sensor_data row1 = Ok frame -> pack_sensor_data row2 = Ok frame ->
  Row.sensor_id row1 = Row.sensor_id row2 /\
  Row.time row1 = Row.time row2 /\
  map to_single (floats row1) = map to_single (floats row2).
Proof.
  intros H1 H2.
  destruct (pack_sensor_data_Ok _ _ H1) as [Hwf1 ->].
  destruct (pack_sensor_data_Ok _ _ H2) as [Hwf2 Heq].
  destruct (well_formed_ints _ Hwf1) as [Hi1 Ht1].
  destruct (well_formed_ints _ Hwf2) as [Hi2 Ht2].
  pose proof (unpack_sensor_data_frame_of row1 Hi1 Ht1) as U1.
  pose proof (unpack_sensor_data_frame_of row2 Hi2 Ht2) as U2.
  rewrite Heq, U2 in U1. injection U1 as E1 E2 E3 E4 E5 E6 E7 E8 E9.
  unfold floats. cbn [map]. repeat split; congruence.
Qed.

Lemma pack_sensor_data_injective_witness :
  Row.sensor_id (sample 1 100)
  = Row.sensor_id (Row.mk 1 100 float_zero float_zero float_zero
                          float_one_ulp float_zero float_zero float_zero) /\
  Row.time (sample 1 100)
  = Row.time (Row.mk 1 100 float_zero float_zero float_zero
                     float_one_ulp float_zero float_zero float_zero) /\
  map to_single (floats (sample 1 100))
  = map to_single (floats (Row.mk 1 100 float_zero float_zero float_zero
                                  float_one_ulp float_zero float_zero float_zero)).
Proof.
  apply (pack_sensor_data_injective
           (sample 1 100)
           (Row.mk 1 100 float_zero float_zero float_zero
                   float_one_ulp float_zero float_zero float_zero)
           (frame_of (sample 1 100))); reflexivity.
Defined.

(** ** How far a frame's float is from the sample's *)

Lemma shr_1_s (mrs : shr_record) :
  0 <= shr_m mrs -> shr_s (shr_1 mrs) = shr_r mrs || shr_s mrs.
Proof.
  destruct mrs as [m r s]. cbn [shr_m shr_r shr_s].
  destruct m as [|[p|p|]|p]; try reflexivity; lia.
Qed.

Lemma odd_mod_2 (a : Z) : Z.odd a = (a mod 2 =? 1).
Proof.
  pose proof (Z.mod_pos_bound a 2 ltac:(lia)) as Hb.
  rewrite (Z.div_mod a 2) at 1 by lia.
  rewrite Z.add_comm, Z.odd_add_mul_2.
  destruct (Z.eqb_spec (a mod 2) 1) as [-> | Hne]; [reflexivity|].
  now replace (a mod 2) with 0 by lia.
Qed.

(** The sticky bit: whether anything was lost below the round bit. *)
Lemma shr_s_iter (n : nat) (m : Z) :
  0 <= m ->
  shr_s (Nat.iter (S n) shr_1 (Build_shr_record m false false))
  = negb (m mod 2 ^ Z.of_nat n =? 0).
Proof.
  intros Hm. induction n as [|n IH].
  - cbn [Nat.iter]. rewrite shr_1_s by exact Hm. cbn [shr_r shr_s orb].
    change (2 ^ Z.of_nat 0) with 1. now rewrite Z.mod_1_r.
  - rewrite Nat.iter_succ, shr_1_s.
    2:{ rewrite shr_m_iter by exact Hm. cbn [shr_m].
        apply Z.div_pos; [lia | apply Z.pow_pos_nonneg; lia]. }
    rewrite IH, shr_r_iter by exact Hm.
    rewrite Nat2Z.inj_succ, Z.pow_succ_r by lia.
    assert (Hp : 0 < 2 ^ Z.of_nat n) by (apply Z.pow_pos_nonneg; lia).
    set (P := 2 ^ Z.of_nat n) in *.
    replace (2 * P) with (P * 2) by lia.
    rewrite Z.rem_mul_r by lia.
    pose proof (Z.mod_pos_bound m P Hp) as Ht.
    pose proof (Z.mod_pos_bound (m / P) 2 ltac:(lia)) as Hr.
    rewrite odd_mod_2.
    destruct (Z.eqb_spec (m mod P) 0) as [E0 | E0];
      destruct (Z.eqb_spec ((m / P) mod 2) 1) as [E1 | E1];
      destruct (Z.eqb_spec (m mod P + P * ((m / P) mod 2)) 0) as [E2 | E2];
      try reflexivity; nia.
Qed.

(** Shifting right by [n] and rounding to nearest leaves at most half a
    unit of the last place kept. *)
Lemma round_nearest_even_error (m e n : Z) :
  0 <= m -> 0 <= n ->
  let mrs := fst (shr (Build_shr_record m false false) e n) in
  2 * Z.abs (round_nearest_even (shr_m mrs) (loc_of_shr_record mrs) * 2 ^ n - m)
  <= 2 ^ n.
Proof.
  intros Hm Hn. destruct n as [|p|p]; [| |lia].
  - cbn [shr fst shr_m loc_of_shr_record round_nearest_even].
    change (2 ^ 0) with 1. rewrite Z.mul_1_r, Z.sub_diag. cbn. lia.
  - cbn [shr fst]. rewrite iter_pos_nat.
    destruct (Pos2Nat.is_succ p) as [k Hk]. rewrite Hk.
    pose proof (shr_m_iter (S k) (Build_shr_record m false false) Hm) as Hq.
    pose proof (shr_r_iter k m Hm) as Hr.
    pose proof (shr_s_iter k m Hm) as Hs.
    cbn [shr_m] in Hq.
    destruct (Nat.iter (S k) shr_1 (Build_shr_record m false false)) as [q r s].
    cbn [shr_m shr_r shr_s] in *.
    replace (Zpos p) with (Z.succ (Z.of_nat k)) by lia.
    rewrite Nat2Z.inj_succ in Hq. rewrite Z.pow_succ_r in Hq |- * by lia.
    assert (Hp : 0 < 2 ^ Z.of_nat k) by (apply Z.pow_pos_nonneg; lia).
    set (P := 2 ^ Z.of_nat k) in *.
    replace (2 * P) with (P * 2) in Hq by lia.
    rewrite <- Z.div_div in Hq by lia.
    pose proof (Z.mod_pos_bound m P Hp) as Ht.
    pose proof (Z.div_mod m P ltac:(lia)) as Hdm.
    pose proof (Z.div_mod (m / P) 2 ltac:(lia)) as Hdq.
    pose proof (Z.mod_pos_bound (m / P) 2 ltac:(lia)) as Hrb.
    rewrite odd_mod_2 in Hr. rewrite <- Hq in Hdq.
    destruct r, s; cbn [loc_of_shr_record round_nearest_even];
      symmetry in Hr, Hs;
      [apply Z.eqb_eq in Hr; apply negb_true_iff, Z.eqb_neq in Hs
      |apply Z.eqb_eq in Hr; apply negb_false_iff, Z.eqb_eq in Hs
      |apply Z.eqb_neq in Hr; apply negb_true_iff, Z.eqb_neq in Hs
      |apply Z.eqb_neq in Hr; apply negb_false_iff, Z.eqb_eq in Hs];
      try destruct (Z.even q); nia.
Qed.

Lemma Pos_iter_xO (m k : positive) : Zpos (Pos.iter xO m k) = Zpos m * 2 ^ Zpos k.
Proof.
  induction k as [|k IH] using Pos.peano_ind.
  - cbn. lia.
  - rewrite Pos.iter_succ, Pos2Z.inj_xO, IH, Pos2Z.inj_succ, Z.pow_succ_r; lia.
Qed.

(** The value of a float, counted in units of [2^k] below its exponent. *)
Lemma value_scaled (s : bool) (m : positive) (e k : Z) :
  k <= e ->
  (value (S754_finite s m e)
   == sign_Q s * inject_Z (Zpos m * 2 ^ (e - k)) * Qpower 2 k)%Q.
Proof.
  intros Hk. cbn [value].
  rewrite inject_Z_mult, Zpower_Qpower by lia.
  replace e with ((e - k) + k) at 1 by lia.
  rewrite Qpower_plus by discriminate.
  change (inject_Z 2) with 2%Q. ring.
Qed.

Lemma Qabs_sign_Q (s : bool) : (Qabs (sign_Q s) == 1)%Q.
Proof. destruct s; reflexivity. Qed.

(** A relative error of [2^-24], from its statement in integers. *)
Lemma relative_error_scaled (s : bool) (A B k : Z) :
  0 <= B -> 2 ^ 24 * Z.abs (A - B) <= B ->
  (Qabs (sign_Q s * inject_Z A * Qpower 2 k - sign_Q s * inject_Z B * Qpower 2 k)
   <= (1 # 16777216) * Qabs (sign_Q s * inject_Z B * Qpower 2 k))%Q.
Proof.
  intros HB Herr.
  assert (Hc : (0 < Qpower 2 k)%Q) by (apply Qpower_0_lt; reflexivity).
  setoid_replace (sign_Q s * inject_Z A * Qpower 2 k - sign_Q s * inject_Z B * Qpower 2 k)%Q
    with (sign_Q s * inject_Z (A - B) * Qpower 2 k)%Q
    by (unfold Z.sub; rewrite inject_Z_plus, inject_Z_opp; ring).
  rewrite !Qabs_Qmult, Qabs_sign_Q, !Qmult_1_l.
  rewrite (Qabs_pos (Qpower 2 k)) by now apply Qlt_le_weak.
  rewrite Qmult_assoc. apply Qmult_le_compat_r; [|now apply Qlt_le_weak].
  unfold Qle, Qmult, Qabs, inject_Z. cbn [Qnum Qden].
  change (2 ^ 24) with 16777216 in Herr. lia.
Qed.

Lemma shr_fexp_error (prec emax m e : Z) :
  0 <= m -> e <= fexp prec emax (Zdigits2 m + e) ->
  let mrs := fst (shr_fexp prec emax m e loc_Exact) in
  2 * Z.abs (round_nearest_even (shr_m mrs) (loc_of_shr_record mrs)
               * 2 ^ (fexp prec emax (Zdigits2 m + e) - e) - m)
  <= 2 ^ (fexp prec emax (Zdigits2 m + e) - e).
Proof.
  intros Hm He. unfold shr_fexp. cbn [shr_record_of_loc].
  apply round_nearest_even_error; lia.
Qed.

(** The conversion to binary32 of a binary64 value in the normal range of
    binary32: the mantissa is shifted by 29 bits and rounded to
    nearest. *)
Lemma float_cast_normal (s : bool) (m : positive) (e : Z) :
  bounded 53 1024 m e = true -> - 125 <= Zpos (digits2_pos m) + e ->
  2 ^ 52 <= Zpos m /\
  exists m1',
    2 * Z.abs (m1' * 2 ^ 29 - Zpos m) <= 2 ^ 29 /\
    (float_cast (S754_finite s m e) = S754_infinity s \/
     exists p e2,
       float_cast (S754_finite s m e) = S754_finite s p e2 /\
       e + 29 <= e2 /\ Zpos p * 2 ^ (e2 - (e + 29)) = m1').
Proof.
  intros Hb Hnormal.
  destruct (bounded_b64_inv m e Hb) as [He [Hd | [Hd He']]]; [|lia].
  pose proof (digits2_pos_bounds m) as Hm. rewrite Hd in Hm.
  change (53 - 1) with 52 in Hm.
  split; [lia|].
  assert (Hf : fexp 24 128 (Zdigits2 (Zpos m) + e) = e + 29).
  { cbn [Zdigits2]. rewrite Hd. unfold fexp, emin. lia. }
  pose proof (shr_fexp_error 24 128 (Zpos m) e ltac:(lia) ltac:(lia)) as Herr.
  cbv zeta in Herr. rewrite Hf in Herr.
  replace (e + 29 - e) with 29 in Herr by lia.
  cbn [float_cast]. unfold binary_round.
  change (Zpos (digits2_pos m)) with (Zdigits2 (Zpos m)). rewrite Hf.
  unfold shl_align. replace (e + 29 - e) with 29 by lia. cbv iota.
  unfold binary_round_aux.
  destruct (shr_fexp 24 128 (Zpos m) e loc_Exact) as [mrs1 e1] eqn:E1.
  cbn [fst] in Herr.
  exists (round_nearest_even (shr_m mrs1) (loc_of_shr_record mrs1)).
  split; [exact Herr|].
  destruct (shr_fexp 24 128
              (round_nearest_even (shr_m mrs1) (loc_of_shr_record mrs1))
              e1 loc_Exact) as [mrs2 e2] eqn:E2.
  destruct (binary_round_aux_shifts 24 128 ltac:(lia) (Zpos m) e loc_Exact
              ltac:(lia) ltac:(lia) _ _ _ _ E1 E2)
    as [He1 [Hm1 [Hpos _]]].
  rewrite Hf in He1. subst e1.
  assert (H1 : 2 ^ 23 <= shr_m mrs1).
  { rewrite Hm1. replace (e + 29 - e) with 29 by lia.
    apply Z.div_le_lower_bound; [lia|].
    change (2 ^ 29 * 2 ^ 23) with (2 ^ 52). lia. }
  destruct Hpos as [Hcase [Hpos2 _]].
  { destruct (round_nearest_even_cases (shr_m mrs1) (loc_of_shr_record mrs1)); lia. }
  destruct (shr_m mrs2) as [|p|p] eqn:Ep; try lia.
  destruct (Z.leb_spec e2 (128 - 24)); [right | now left].
  exists p, e2. split; [reflexivity|].
  destruct Hcase as [[-> ->] | [-> [-> Hp]]].
  - split; [lia|]. now rewrite Z.sub_diag, Z.mul_1_r.
  - split; [lia|]. injection Hp as ->.
    replace (e + 29 + 1 - (e + 29)) with 1 by lia. reflexivity.
Qed.

(** X14. A float in the normal range of single precision loses at most half
    a unit of the last place of that precision in a frame: the value
    decoded from its four bytes is within [2^-24] of it, relatively. *)
Theorem pack_f_relative_error (s : bool) (m : positive) (e : Z) (bs : list byte) :
  bounded 53 1024 m e = true ->
  - 125 <= Zpos (digits2_pos m) + e ->
  pack_f (S754_finite s m e) = Ok bs ->
  (Qabs (value (unpack_f bs) - value (S754_finite s m e))
   <= (1 # 16777216) * Qabs (value (S754_finite s m e)))%Q.
Proof.
  intros Hb Hnormal Hpack.
  rewrite pack_f_fits in Hpack.
  destruct (fits_f32 (S754_finite s m e)) eqn:Hfits; [|discriminate].
  assert (Hbs : bs = le_bytes 4 (bits_of_b32 (float_cast (S754_finite s m e))))
    by congruence.
  clear Hpack. subst bs. rewrite unpack_f_le_bytes. unfold to_single.
  destruct (float_cast_normal s m e Hb Hnormal)
    as [Hm [m1' [Herr [Hinf | [p [e2 [Hcast [He2 Hp]]]]]]]].
  { unfold fits_f32 in Hfits. rewrite Hinf in Hfits. discriminate. }
  pose proof (float_cast_valid (S754_finite s m e)) as Hv.
  rewrite Hcast in Hv |- *. cbn [valid_b32 valid_binary] in Hv.
  destruct (double_cast_finite s p e2 Hv) as [q ->].
  set (k := Z.min e (e2 - Zpos q)).
  rewrite (value_scaled s _ (e2 - Zpos q) k) by (unfold k; lia).
  rewrite (value_scaled s m e k) by (unfold k; lia).
  apply relative_error_scaled.
  { apply Z.mul_nonneg_nonneg; [lia | apply Z.pow_nonneg; lia]. }
  rewrite Pos_iter_xO.
  assert (Ha : 0 < 2 ^ (e - k)) by (apply Z.pow_pos_nonneg; unfold k; lia).
  assert (HM : Zpos p * 2 ^ Zpos q * 2 ^ (e2 - Zpos q - k)
               = m1' * 2 ^ 29 * 2 ^ (e - k)).
  { rewrite <- Hp, <- !Z.mul_assoc, <- !Z.pow_add_r by (unfold k; lia).
    f_equal. f_equal. lia. }
  rewrite HM, <- Z.mul_sub_distr_r, Z.abs_mul, (Z.abs_eq (2 ^ (e - k))) by lia.
  change (2 ^ 24) with 16777216. change (2 ^ 29) with 536870912 in *.
  change (2 ^ 52) with 4503599627370496 in Hm.
  nia.
Qed.

Lemma pack_f_relative_error_witness :
  (Qabs (value (unpack_f (le_bytes 4 (bits_of_b32 (float_cast float_one_ulp))))
         - value float_one_ulp)
   <= (1 # 16777216) * Qabs (value float_one_ulp))%Q.
Proof.
  apply (pack_f_relative_error false (2 ^ 52 + 1) (- 52)).
  - reflexivity.
  - cbn. lia.
  - reflexivity.
Defined.

(** ** The file explorer *)

Lemma In_insert_sorted (name x : string) (names : list string) :
  In x (insert_sorted name names) <-> x = name \/ In x names.
Proof.
  induction names as [|first rest IH]; cbn [insert_sorted].
  - cbn. intuition.
  - destruct (String.leb name first); cbn [In]; [intuition|].
    rewrite IH. intuition.
Qed.

Lemma In_sorted (x : string) (names : list string) : In x (sorted names) <-> In x names.
Proof.
  induction names as [|name rest IH]; [reflexivity|].
  cbn [sorted In]. rewrite In_insert_sorted, IH. intuition.
Qed.

(** An entry of the explorer is the parent directory, a directory of the
    listing or a file of the listing. *)
Lemma In_display_items (dirs files : list string) (name item_type : string) :
  In (name, item_type) (display_items dirs files) ->
  item_type = "[dir]"%string \/ (item_type = "[file]"%string /\ In name files).
Proof.
  unfold display_items. intros Hin.
  apply in_app_or in Hin. destruct Hin as [[H | []] | Hin].
  - left. congruence.
  - apply in_app_or in Hin. destruct Hin as [Hin | Hin];
      apply in_map_iff in Hin; destruct Hin as [x [Hx Hin]];
      injection Hx as <- <-; auto.
Qed.

(** What a turn of the explorer that returns a file has seen. *)
Lemma explorer_turn_selected {fs : Type} (sys : system fs) (current_path : string)
    (d d' : desk fs) (path next_path : string) :
  explorer_turn sys current_path d = (d', Returned (Some (Some path), next_path)) ->
  exists items name,
    listdir sys (disk d') current_path = Some items /\
    In name items /\
    isfile sys (disk d') (path_join current_path name) = true /\
    endswith name ".csv" = true /\
    path = path_join current_path name /\
    exists acts, done d' = done d ++ acts ++ [Say (SelectedFile path)].
Proof.
  unfold explorer_turn, cbind, os_read.
  destruct (listdir sys (disk d) current_path) as [items|] eqn:Hls; [|discriminate].
  cbn [disk done keyboard act].
  set (dirs := sorted (filter _ items)). set (files := sorted (filter _ items)).
  unfold console_input. cbn [disk done keyboard].
  destruct (keyboard d) as [|[answer| |] rest]; try discriminate.
  cbn [tl].
  destruct (String.eqb (strip (lower answer)) "q"); [discriminate|].
  destruct (String.eqb (strip (lower answer)) "g").
  { unfold create_dummy_csv. cbn [disk done keyboard].
    destruct (write_csv sys (disk d) _ _ _) as [disk' []]; discriminate. }
  destruct (String.eqb (strip (lower answer)) "h"); [discriminate|].
  destruct (isdigit (strip (lower answer))); cbn [negb]; [|discriminate].
  destruct (int_of_str (strip (lower answer))) as [idx|]; [|discriminate].
  destruct ((0 <=? idx) && (idx <? Z.of_nat (List.length (display_items dirs files))))
    eqn:Hidx; cbn [negb]; [|discriminate].
  destruct (nth (Z.to_nat idx) (display_items dirs files) (EmptyString, EmptyString))
    as [selected_name selected_type] eqn:Hnth.
  destruct (String.eqb selected_type "[dir]") eqn:Htype.
  { unfold os_abspath.
    destruct (String.prefix "/" (path_join current_path selected_name));
      [discriminate|].
    cbn [disk]. destruct (getcwd sys (disk d)); discriminate. }
  destruct (endswith selected_name ".csv") eqn:Hcsv; [|discriminate].
  unfold cret. cbn [disk done keyboard]. intros [= <- <- _].
  cbn [disk done].
  apply andb_prop in Hidx. destruct Hidx as [H0 Hlt].
  apply Z.leb_le in H0. apply Z.ltb_lt in Hlt.
  assert (Hin : In (selected_name, selected_type) (display_items dirs files)).
  { rewrite <- Hnth. apply nth_In. lia. }
  apply In_display_items in Hin. destruct Hin as [-> | [-> Hin]]; [discriminate Htype|].
  unfold files in Hin. apply (proj1 (In_sorted _ _)) in Hin.
  apply filter_In in Hin.
  destruct Hin as [Hin Hfile].
  exists items, selected_name.
  split; [exact Hls|]. split; [exact Hin|]. split; [exact Hfile|].
  split; [exact Hcsv|]. split; [reflexivity|].
  exists [Table current_path (table_rows (display_items dirs files)); Ask AskChoice].
  rewrite <- !app_assoc. reflexivity.
Qed.

(** What the explorer has seen when it returns a file. *)
Lemma file_explorer_selected {fs : Type} (sys : system fs)
    (start_path : string) (d d' : desk fs) (path : string) :
  file_explorer sys start_path d = (d', Returned (Some path)) ->
  exists current_path items name,
    path = path_join current_path name /\
    endswith name ".csv" = true /\
    listdir sys (disk d') current_path = Some items /\
    In name items /\
    isfile sys (disk d') path = true /\
    exists acts, done d' = acts ++ [Say (SelectedFile path)].
Proof.
  unfold file_explorer, cbind.
  destruct (os_abspath sys start_path d) as [d0 [p0|e|]]; try discriminate.
  generalize (S (List.length (keyboard d0))). intros fuel. revert p0 d0.
  induction fuel as [|fuel IH]; intros p0 d0; [discriminate|].
  cbn [explorer_loop]. unfold cbind, try_catch.
  destruct (explorer_turn sys p0 d0) as [d1 [[[result|] next_path]|e|]] eqn:Hturn.
  - unfold cret. intros [= <- ->].
    destruct (explorer_turn_selected _ _ _ _ _ _ Hturn)
      as [items [name [Hls [Hin [Hfile [Hcsv [-> [acts Hacts]]]]]]]].
    exists p0, items, name.
    split; [reflexivity|]. split; [exact Hcsv|]. split; [exact Hls|].
    split; [exact Hin|]. split; [exact Hfile|].
    exists (done d0 ++ acts). rewrite Hacts, app_assoc. reflexivity.
  - apply IH.
  - destruct (is_ordinary e); [|discriminate].
    unfold explorer_handler, cbind, act, cret. discriminate.
  - discriminate.
Qed.

(** X15. [file_explorer] only ever returns a file it has just been shown:
    the path it returns joins the directory on display and a name that
    [os.listdir] gave for that directory, that [os.path.isfile] accepts
    and that ends in [.csv]; and the last thing it does is to announce
    that file. *)
Theorem file_explorer_returns_listed_csv {fs : Type} (sys : system fs)
    (start_path : string) (d d' : desk fs) (path : string) :
  file_explorer sys start_path d = (d', Returned (Some path)) ->
  exists current_path items name,
    path = path_join current_path name /\
    endswith name ".csv" = true /\
    listdir sys (disk d') current_path = Some items /\
    In name items /\
    isfile sys (disk d') path = true /\
    exists acts, done d' = acts ++ [Say (SelectedFile path)].
Proof. apply file_explorer_selected. Qed.

(** The ways a turn of the explorer can end. *)
Lemma explorer_turn_cases {fs : Type} (sys : system fs) (current_path : string)
    (d d1 : desk fs) (v : verdict (option (option string) * string)) :
  explorer_turn sys current_path d = (d1, v) ->
  (exists acts, done d1 = done d ++ acts /\ started acts = []) /\
  (v = Waiting -> keyboard d1 = []) /\
  (forall e, v = Failed e -> is_ordinary e = false ->
             e = UserInterrupt /\ In CtrlC (keyboard d)) /\
  (forall r q, v = Returned (r, q) -> exists a, keyboard d = Line a :: keyboard d1) /\
  (forall q, v = Returned (Some None, q) ->
             exists acts, done d1 = done d ++ acts ++ [Ask AskChoice]).
Proof.
  unfold explorer_turn, cbind, os_read.
  destruct (listdir sys (disk d) current_path) as [items|] eqn:Hls.
  2:{ intros [= <- <-]. split; [exists []; now rewrite app_nil_r|].
      split; [discriminate|]. split; [intros e [= <-]; discriminate|].
      split; [discriminate | discriminate]. }
  cbn [disk done keyboard act].
  set (dirs := sorted (filter _ items)). set (files := sorted (filter _ items)).
  set (table := Table current_path (table_rows (display_items dirs files))).
  unfold console_input. cbn [disk done keyboard].
  destruct (keyboard d) as [|[answer| |] rest] eqn:Hkb; cbn [tl].
  { intros [= <- <-]. cbn [done keyboard]. rewrite <- app_assoc.
    split; [now exists ([table] ++ [Ask AskChoice])|].
    split; [reflexivity|]. split; [discriminate|].
    split; [discriminate | discriminate]. }
  2:{ intros [= <- <-]. cbn [done keyboard]. rewrite <- app_assoc.
      split; [now exists ([table] ++ [Ask AskChoice])|].
      split; [discriminate|].
      split; [intros e [= <-] _; split; [reflexivity | now left]|].
      split; [discriminate | discriminate]. }
  2:{ intros [= <- <-]. cbn [done keyboard]. rewrite <- app_assoc.
      split; [now exists ([table] ++ [Ask AskChoice])|].
      split; [discriminate|]. split; [intros e [= <-]; discriminate|].
      split; [discriminate | discriminate]. }
  assert (Hsay : forall (n : notice) (r : option (option string)) (q : string),
             r <> Some None ->
             (mkDesk (disk d) (((done d ++ [table]) ++ [Ask AskChoice]) ++ [Say n]) rest,
              Returned (r, q)) = (d1, v) ->
             (exists acts, done d1 = done d ++ acts /\ started acts = []) /\
             (v = Waiting -> keyboard d1 = []) /\
             (forall e, v = Failed e -> is_ordinary e = false ->
                        e = UserInterrupt /\ In CtrlC (Line answer :: rest)) /\
             (forall r q, v = Returned (r, q) ->
                          exists a, Line answer :: rest = Line a :: keyboard d1) /\
             (forall q, v = Returned (Some None, q) ->
                        exists acts, done d1 = done d ++ acts ++ [Ask AskChoice])).
  { intros n r q Hr [= <- <-]. cbn [done keyboard]. rewrite <- !app_assoc.
    split; [now exists ([table] ++ [Ask AskChoice] ++ [Say n])|].
    split; [discriminate|]. split; [discriminate|].
    split; [intros _ _ _; now exists answer|].
    intros q' [= -> _]. now destruct Hr. }
  assert (Hsilent : forall (r : option (option string)) (q : string),
             (mkDesk (disk d) ((done d ++ [table]) ++ [Ask AskChoice]) rest,
              Returned (r, q)) = (d1, v) ->
             (exists acts, done d1 = done d ++ acts /\ started acts = []) /\
             (v = Waiting -> keyboard d1 = []) /\
             (forall e, v = Failed e -> is_ordinary e = false ->
                        e = UserInterrupt /\ In CtrlC (Line answer :: rest)) /\
             (forall r q, v = Returned (r, q) ->
                          exists a, Line answer :: rest = Line a :: keyboard d1) /\
             (forall q, v = Returned (Some None, q) ->
                        exists acts, done d1 = done d ++ acts ++ [Ask AskChoice])).
  { intros r q [= <- <-]. cbn [done keyboard]. rewrite <- !app_assoc.
    split; [now exists ([table] ++ [Ask AskChoice])|].
    split; [discriminate|]. split; [discriminate|].
    split; [intros _ _ _; now exists answer|].
    intros _ _. now exists [table]. }
  assert (Hfails : forall (acts : list action) (e : failure) (disk' : fs),
             started acts = [] -> is_ordinary e = true ->
             (mkDesk disk' (((done d ++ [table]) ++ [Ask AskChoice]) ++ acts) rest,
              @Failed (option (option string) * string) e) = (d1, v) ->
             (exists acts, done d1 = done d ++ acts /\ started acts = []) /\
             (v = Waiting -> keyboard d1 = []) /\
             (forall e, v = Failed e -> is_ordinary e = false ->
                        e = UserInterrupt /\ In CtrlC (Line answer :: rest)) /\
             (forall r q, v = Returned (r, q) ->
                          exists a, Line answer :: rest = Line a :: keyboard d1) /\
             (forall q, v = Returned (Some None, q) ->
                        exists acts, done d1 = done d ++ acts ++ [Ask AskChoice])).
  { intros acts e disk' Hacts He [= <- <-]. cbn [done keyboard]. rewrite <- !app_assoc.
    split.
    { exists ([table] ++ [Ask AskChoice] ++ acts). split; [reflexivity|].
      cbn [app started]. exact Hacts. }
    split; [discriminate|]. split; [intros e' [= <-]; congruence|].
    split; [discriminate | discriminate]. }
  destruct (String.eqb (strip (lower answer)) "q"); [now apply Hsilent|].
  destruct (String.eqb (strip (lower answer)) "g").
  { unfold create_dummy_csv. cbn [disk done keyboard].
    destruct (write_csv sys (disk d) _ _ _) as [disk' []].
    - intros [= <- <-]. cbn [done keyboard]. rewrite <- !app_assoc.
      split.
      { exists ([table] ++ [Ask AskChoice]
                  ++ [WriteCsv "replay_data.csv"; Say (CreatedDummy "replay_data.csv")]).
        split; reflexivity. }
      split; [discriminate|]. split; [discriminate|].
      split; [intros _ _ _; now exists answer | discriminate].
    - now apply (Hfails [WriteCsv "replay_data.csv"]). }
  destruct (String.eqb (strip (lower answer)) "h");
    [apply (Hsay Help); discriminate|].
  destruct (isdigit (strip (lower answer))); cbn [negb];
    [|apply (Hsay InvalidInput); discriminate].
  destruct (int_of_str (strip (lower answer))) as [idx|].
  2:{ intros H. apply (Hfails [] ValueError (disk d)); try reflexivity.
      now rewrite app_nil_r. }
  destruct ((0 <=? idx) && (idx <? Z.of_nat (List.length (display_items dirs files))));
    cbn [negb]; [|apply (Hsay IndexOutOfRange); discriminate].
  destruct (nth (Z.to_nat idx) (display_items dirs files) (EmptyString, EmptyString))
    as [selected_name selected_type].
  destruct (String.eqb selected_type "[dir]").
  { unfold os_abspath.
    destruct (String.prefix "/" (path_join current_path selected_name));
      [now apply Hsilent|].
    cbn [disk]. destruct (getcwd sys (disk d)); [now apply Hsilent|].
    intros H. apply (Hfails [] OSError (disk d)); try reflexivity.
    now rewrite app_nil_r. }
  destruct (endswith selected_name ".csv");
    [apply (Hsay (SelectedFile _)) | apply (Hsay (NotCsv _))]; discriminate.
Qed.

Lemma started_app (acts1 acts2 : list action) :
  started (acts1 ++ acts2) = started acts1 ++ started acts2.
Proof.
  induction acts1 as [|a acts1 IH]; [reflexivity|].
  destruct a; cbn [app started]; rewrite IH; reflexivity.
Qed.

(** The ways the loop of the explorer can end, given a turn for every
    answer typed and one more. *)
Lemma explorer_loop_cases {fs : Type} (sys : system fs) (fuel : nat) :
  forall (current_path : string) (d d' : desk fs) (v : verdict (option string)),
    (List.length (keyboard d) < fuel)%nat ->
    explorer_loop sys fuel current_path d = (d', v) ->
    (exists acts, done d' = done d ++ acts /\ started acts = []) /\
    (v = Waiting -> keyboard d' = []) /\
    (forall e, v = Failed e -> e = UserInterrupt /\ In CtrlC (keyboard d)) /\
    (v = Returned None ->
     exists acts,
       done d' = acts ++ [Ask AskChoice] \/
       exists e, is_ordinary e = true /\ done d' = acts ++ [Say (ExplorerError e)]).
Proof.
  induction fuel as [|fuel IH]; intros current_path d d' v Hfuel; [lia|].
  cbn [explorer_loop]. unfold cbind, try_catch.
  destruct (explorer_turn sys current_path d) as [d1 v1] eqn:Hturn.
  destruct (explorer_turn_cases _ _ _ _ _ Hturn)
    as [[acts1 [Hacts1 Hst1]] [Hwait [Hfail [Hret Hquit]]]].
  destruct v1 as [[[result|] next_path]|e|].
  - unfold cret. intros [= <- <-].
    split; [now exists acts1|]. split; [discriminate|]. split; [discriminate|].
    intros [= ->]. destruct (Hquit _ eq_refl) as [acts Hacts].
    exists (done d ++ acts). left. now rewrite Hacts, app_assoc.
  - destruct (Hret _ _ eq_refl) as [a Ha]. intros Hloop.
    assert (Hfuel1 : (List.length (keyboard d1) < fuel)%nat).
    { rewrite Ha in Hfuel. cbn [List.length] in Hfuel. lia. }
    destruct (IH _ _ _ _ Hfuel1 Hloop) as [[acts2 [Hacts2 Hst2]] [Hw [Hf Hr]]].
    split.
    { exists (acts1 ++ acts2). rewrite Hacts2, Hacts1, app_assoc.
      split; [reflexivity|]. now rewrite started_app, Hst1, Hst2. }
    split; [exact Hw|]. split; [|exact Hr].
    intros e He. destruct (Hf e He) as [-> Hin].
    split; [reflexivity|]. rewrite Ha. now right.
  - destruct (is_ordinary e) eqn:He.
    + unfold explorer_handler, cbind, act, cret. cbn [disk done keyboard].
      intros [= <- <-]. cbn [done keyboard].
      split.
      { exists (acts1 ++ [Say (ExplorerError e)]).
        rewrite Hacts1, app_assoc. split; [reflexivity|].
        now rewrite started_app, Hst1. }
      split; [discriminate|]. split; [discriminate|].
      intros _. exists (done d1). right. now exists e.
    + intros [= <- <-].
      split; [now exists acts1|]. split; [discriminate|].
      split; [|discriminate].
      intros e' [= <-]. now apply Hfail.
  - intros [= <- <-].
    split; [now exists acts1|]. split; [intros _; now apply Hwait|].
    split; [discriminate | discriminate].
Qed.

Lemma os_abspath_cases {fs : Type} (sys : system fs) (path : string) (d : desk fs) :
  (exists p, os_abspath sys path d = (d, Returned p)) \/
  (os_abspath sys path d = (d, Failed OSError) /\
   String.prefix "/" path = false /\ getcwd sys (disk d) = None).
Proof.
  unfold os_abspath. destruct (String.prefix "/" path).
  - left. now eexists.
  - destruct (getcwd sys (disk d)); [left; now eexists | right; auto].
Qed.



Lemma file_explorer_returns_listed_csv_witness :
  let d' := fst (file_explorer toy_system "." (toy_desk [Line "2"; Line "1"])) in
  exists current_path items name,
    "/log.csv"%string = path_join current_path name /\
    endswith name ".csv" = true /\
    listdir toy_system (disk d') current_path = Some items /\
    In name items /\
    isfile toy_system (disk d') "/log.csv" = true /\
    exists acts, done d' = acts ++ [Say (SelectedFile "/log.csv")].
Proof.
  apply (file_explorer_returns_listed_csv toy_system "."
           (toy_desk [Line "2"; Line "1"])).
  reflexivity.
Defined.

(** ** The interactive command line *)

(** A turn of the question about the sensor topics on an answer. *)
Lemma sensors_turn_answer {fs : Type} (d : desk fs) (n_str : string)
    (rest : list keystroke) :
  keyboard d = Line n_str :: rest ->
  @sensors_turn fs d
  = match sensors_answer n_str with
    | Some n =>
        (mkDesk (disk d)
                (done d ++ [Ask AskSensors]
                   ++ (if String.eqb (strip n_str) EmptyString
                       then [Say (UsingDefault 4)] else []))
                rest,
         Returned (Some n))
    | None =>
        (mkDesk (disk d)
                (done d ++ [Ask AskSensors; Say (sensors_complaint n_str)]) rest,
         Returned None)
    end.
Proof.
  intros Hkb. unfold sensors_turn, try_catch, cbind, console_input, sensors_answer,
    sensors_complaint.
  rewrite Hkb. cbn [tl disk done keyboard].
  destruct (String.eqb (strip n_str) EmptyString).
  - unfold act, cret. cbn [disk done keyboard]. now rewrite <- app_assoc.
  - destruct (int_of_str n_str) as [n|].
    + destruct (0 <? n).
      * unfold cret. now rewrite app_nil_r.
      * unfold act, cret. cbn [disk done keyboard]. now rewrite <- app_assoc.
    + unfold cfail, act, cret. cbn [disk done keyboard]. now rewrite <- app_assoc.
Qed.

Lemma sensors_answer_positive (n_str : string) (n : Z) :
  sensors_answer n_str = Some n -> 0 < n.
Proof.
  unfold sensors_answer.
  destruct (String.eqb (strip n_str) EmptyString); [intros [= <-]; lia|].
  destruct (int_of_str n_str) as [m|]; [|discriminate].
  destruct (Z.ltb_spec 0 m); [|discriminate]. now intros [= <-].
Qed.

(** X17. The question about the number of sensor topics is asked again
    until an answer is accepted: a blank answer stands for 4, a decimal
    integer above zero for itself. Every answer before the first accepted
    one is turned down with a message ("enter an integer" when [int]
    rejects it, "enter a positive number" when the integer is not above
    zero) and has no other effect; what the user typed after the accepted
    answer is left unread. The number that comes out is always
    positive. *)
Theorem sensors_loop_first_accepted {fs : Type} (rejected : list string)
    (accepted : string) (n : Z) (rest : list keystroke) (fuel : nat) (d : desk fs) :
  Forall (fun n_str => sensors_answer n_str = None) rejected ->
  sensors_answer accepted = Some n ->
  keyboard d = map Line rejected ++ Line accepted :: rest ->
  (List.length rejected < fuel)%nat ->
  sensors_loop fuel d
  = (mkDesk (disk d)
            (done d
               ++ flat_map (fun n_str => [Ask AskSensors; Say (sensors_complaint n_str)])
                           rejected
               ++ [Ask AskSensors]
               ++ (if String.eqb (strip accepted) EmptyString
                   then [Say (UsingDefault 4)] else []))
            rest,
     Returned n) /\
  0 < n.
Proof.
  intros Hrej Hacc Hkb Hfuel. split; [|now apply (sensors_answer_positive accepted)].
  revert fuel d Hkb Hfuel.
  induction Hrej as [|n_str rejected Hn _ IH]; intros fuel d Hkb Hfuel.
  - destruct fuel as [|fuel]; [cbn in Hfuel; lia|].
    cbn [sensors_loop]. unfold cbind.
    rewrite (sensors_turn_answer d accepted rest Hkb), Hacc.
    unfold cret. reflexivity.
  - destruct fuel as [|fuel]; [cbn in Hfuel; lia|].
    cbn [sensors_loop]. unfold cbind. cbn [map app] in Hkb.
    rewrite (sensors_turn_answer d n_str _ Hkb), Hn.
    rewrite IH; [|reflexivity | cbn [List.length] in Hfuel; lia].
    cbn [disk done flat_map]. now rewrite <- !app_assoc.
Qed.

Lemma sensors_loop_first_accepted_witness :
  sensors_loop 3 (toy_desk (map Line ["zero"; "-2"]%string ++ Line " 12 " :: [Line "y"]))
  = (mkDesk (disk (toy_desk (map Line ["zero"; "-2"]%string ++ Line " 12 " :: [Line "y"])))
            (done (toy_desk (map Line ["zero"; "-2"]%string ++ Line " 12 " :: [Line "y"]))
               ++ flat_map (fun n_str => [Ask AskSensors; Say (sensors_complaint n_str)])
                           ["zero"; "-2"]%string
               ++ [Ask AskSensors]
               ++ (if String.eqb (strip " 12 ") EmptyString
                   then [Say (UsingDefault 4)] else []))
            [Line "y"],
     Returned 12) /\
  0 < 12.
Proof.
  apply (sensors_loop_first_accepted ["zero"; "-2"]%string " 12 " 12 [Line "y"] 3
           (toy_desk (map Line ["zero"; "-2"]%string ++ Line " 12 " :: [Line "y"]))).
  - repeat constructor.
  - reflexivity.
  - reflexivity.
  - cbn. lia.
Defined.

Lemma file_explorer_starts_nothing {fs : Type} (sys : system fs) (start_path : string)
    (d d' : desk fs) (v : verdict (option string)) :
  file_explorer sys start_path d = (d', v) ->
  exists acts, done d' = done d ++ acts /\ started acts = [].
Proof.
  unfold file_explorer, cbind.
  destruct (os_abspath_cases sys start_path d) as [[p ->] | [-> _]].
  - intros Hloop.
    now destruct (explorer_loop_cases sys _ _ _ _ _ (Nat.lt_succ_diag_r _) Hloop).
  - intros [= <- <-]. exists []. now rewrite app_nil_r.
Qed.

Lemma sensors_turn_cases {fs : Type} (d d' : desk fs) (v : verdict (option Z)) :
  sensors_turn d = (d', v) ->
  (exists acts, done d' = done d ++ acts /\ started acts = []) /\
  (forall n, v = Returned (Some n) -> 0 < n).
Proof.
  destruct (keyboard d) as [|[n_str| |] rest] eqn:Hkb.
  - unfold sensors_turn, try_catch, cbind, console_input. rewrite Hkb.
    intros [= <- <-]. split; [now exists [Ask AskSensors] | discriminate].
  - rewrite (sensors_turn_answer d n_str rest Hkb).
    destruct (sensors_answer n_str) as [n|] eqn:Hn; intros [= <- <-]; cbn [done].
    + split.
      * eexists. split; [reflexivity|].
        now destruct (String.eqb (strip n_str) EmptyString).
      * intros m [= <-]. now apply (sensors_answer_positive n_str).
    + split; [now eexists | discriminate].
  - unfold sensors_turn, try_catch, cbind, console_input. rewrite Hkb.
    cbn [tl]. intros [= <- <-]. split; [now exists [Ask AskSensors] | discriminate].
  - unfold sensors_turn, try_catch, cbind, console_input. rewrite Hkb.
    cbn [tl]. intros [= <- <-]. split; [now exists [Ask AskSensors] | discriminate].
Qed.

Lemma sensors_loop_cases {fs : Type} (fuel : nat) :
  forall (d d' : desk fs) (v : verdict Z),
    sensors_loop fuel d = (d', v) ->
    (exists acts, done d' = done d ++ acts /\ started acts = []) /\
    (forall n, v = Returned n -> 0 < n).
Proof.
  induction fuel as [|fuel IH]; intros d d' v.
  - intros [= <- <-]. split; [exists []; now rewrite app_nil_r | discriminate].
  - cbn [sensors_loop]. unfold cbind.
    destruct (sensors_turn d) as [d1 v1] eqn:Hturn.
    destruct (sensors_turn_cases _ _ _ Hturn) as [[acts1 [Hacts1 Hst1]] Hpos].
    destruct v1 as [[n|]|e|].
    + intros [= <- <-]. split; [now exists acts1|].
      intros m [= <-]. now apply Hpos.
    + intros Hloop. destruct (IH _ _ _ Hloop) as [[acts2 [Hacts2 Hst2]] Hpos2].
      split; [|exact Hpos2].
      exists (acts1 ++ acts2). rewrite Hacts2, Hacts1, app_assoc.
      split; [reflexivity|]. now rewrite started_app, Hst1, Hst2.
    + intros [= <- <-]. split; [now exists acts1 | discriminate].
    + intros [= <- <-]. split; [now exists acts1 | discriminate].
Qed.

(** Starting the threads starts the publisher, then the subscriber,
    whether the wait for them is interrupted or not. *)
Lemma run_threads_started {fs : Type} (rel_path : string) (loop_data : bool) (N : Z)
    (interrupted : notice) (d : desk fs) :
  exists acts,
    done (fst (run_threads rel_path loop_data N interrupted d)) = done d ++ acts /\
    started acts = [Publisher rel_path loop_data; Subscriber N] /\
    exists u, snd (run_threads rel_path loop_data N interrupted d) = Returned u.
Proof.
  unfold run_threads, cbind, act, try_catch, join. cbn [disk done keyboard].
  destruct (keyboard d) as [|[text| |] rest]; cbn [disk done keyboard fst snd is_ordinary negb];
    rewrite <- ?app_assoc; (eexists; split; [reflexivity|]; split; [reflexivity|]);
    now eexists.
Qed.

(** The threads [cli] starts. *)
Lemma cli_started {fs : Type} (sys : system fs) (d : desk fs) :
  exists tasks,
    started (done (fst (cli sys d))) = started (done d) ++ tasks /\
    (tasks = [] \/
     exists current_path name loop_data N,
       tasks = [Publisher (path_join current_path name) loop_data; Subscriber N] /\
       endswith name ".csv" = true /\ 0 < N).
Proof.
  unfold cli. unfold cbind at 1 2 3. unfold act at 1 2 3. cbn [disk done keyboard].
  set (d0 := mkDesk _ _ _).
  assert (Hd0 : started (done d0) = started (done d)).
  { unfold d0. cbn [done]. rewrite !started_app. cbn [started]. now rewrite !app_nil_r. }
  unfold cbind at 1.
  destruct (file_explorer sys "." d0) as [d1 v1] eqn:Hexp.
  destruct (file_explorer_starts_nothing _ _ _ _ _ Hexp) as [acts1 [Hacts1 Hst1]].
  assert (Hd1 : started (done d1) = started (done d)).
  { now rewrite Hacts1, started_app, Hst1, app_nil_r. }
  assert (Hnone : forall d2 : desk fs, done d2 = done d1 ->
            exists tasks,
              started (done d2) = started (done d) ++ tasks /\
              (tasks = [] \/
               exists current_path name loop_data N,
                 tasks = [Publisher (path_join current_path name) loop_data;
                          Subscriber N] /\
                 endswith name ".csv" = true /\ 0 < N)).
  { intros d2 Hd2. exists []. rewrite Hd2, Hd1, app_nil_r. auto. }
  assert (Hsaid : forall (acts : list action) (d2 : desk fs),
            started acts = [] -> done d2 = done d1 ++ acts ->
            exists tasks,
              started (done d2) = started (done d) ++ tasks /\
              (tasks = [] \/
               exists current_path name loop_data N,
                 tasks = [Publisher (path_join current_path name) loop_data;
                          Subscriber N] /\
                 endswith name ".csv" = true /\ 0 < N)).
  { intros acts d2 Hacts Hd2. exists [].
    rewrite Hd2, started_app, Hacts, Hd1, !app_nil_r. auto. }
  destruct v1 as [[path|]|e|]; cbn [fst].
  2:{ now apply (Hsaid [Say NoFileSelected]). }
  2:{ now apply Hnone. }
  2:{ now apply Hnone. }
  destruct (file_explorer_selected _ _ _ _ _ Hexp)
    as [current_path [items [name [-> [Hcsv _]]]]].
  destruct (String.eqb (path_join current_path name) EmptyString);
    [now apply (Hsaid [Say NoFileSelected])|].
  unfold cbind at 1. unfold console_input. cbn [disk done keyboard].
  destruct (keyboard d1) as [|[answer| |] rest]; cbn [tl fst];
    try (now apply (Hsaid [Ask AskLoop])).
  set (d2 := mkDesk _ _ _).
  assert (Hd2 : started (done d2) = started (done d)).
  { unfold d2. cbn [done]. rewrite started_app, Hd1. cbn [started]. now rewrite app_nil_r. }
  unfold cbind at 1.
  destruct (sensors_loop _ d2) as [d3 v3] eqn:Hloop.
  destruct (sensors_loop_cases _ _ _ _ Hloop) as [[acts3 [Hacts3 Hst3]] Hpos].
  assert (Hd3 : started (done d3) = started (done d)).
  { now rewrite Hacts3, started_app, Hst3, app_nil_r. }
  destruct v3 as [N|e|]; cbn [fst];
    try (exists []; rewrite Hd3, app_nil_r; auto; fail).
  specialize (Hpos N eq_refl).
  unfold cbind at 1. unfold act at 1. cbn [disk done keyboard].
  set (d4 := mkDesk _ _ _).
  assert (Hd4 : started (done d4) = started (done d)).
  { unfold d4. cbn [done]. rewrite started_app, Hd3. cbn [started]. now rewrite app_nil_r. }
  unfold cbind at 1.
  destruct (run_threads_started (path_join current_path name)
              (String.eqb (strip (lower answer)) "y") N CaughtInterrupt d4)
    as [acts5 [Hacts5 [Hst5 [u Hu]]]].
  destruct (run_threads _ _ N CaughtInterrupt d4) as [d5 v5].
  cbn [fst snd] in Hacts5, Hu. subst v5.
  unfold act. cbn [fst done].
  exists [Publisher (path_join current_path name)
                    (String.eqb (strip (lower answer)) "y");
          Subscriber N].
  split.
  - rewrite started_app, Hacts5, started_app, Hd4, Hst5. cbn [started].
    now rewrite app_nil_r.
  - right. exists current_path, name, (String.eqb (strip (lower answer)) "y"), N. auto.
Qed.

(** X18. The program starts at most one publisher and one subscriber, the
    publisher first. Headless (a file is given on the command line), they
    get the arguments of the command line as they are: the number of
    sensor topics is not checked. On the interactive command line nothing
    is started unless a file was chosen and the questions were answered;
    the publisher then gets a file of the explorer, whose name ends in
    [.csv], and the subscriber a number above zero. *)
Theorem main_starts_threads {fs : Type} (sys : system fs) (args : arguments)
    (d : desk fs) :
  exists tasks,
    started (done (fst (main sys args d))) = started (done d) ++ tasks /\
    (forall rel_path,
        file args = Some rel_path -> rel_path <> EmptyString ->
        tasks = [Publisher rel_path (loop args); Subscriber (sensors args)]) /\
    (headless args = false ->
     tasks = [] \/
     exists current_path name loop_data N,
       tasks = [Publisher (path_join current_path name) loop_data; Subscriber N] /\
       endswith name ".csv" = true /\ 0 < N).
Proof.
  unfold main, headless.
  destruct (file args) as [rel_path|].
  - destruct (String.eqb rel_path EmptyString) eqn:Hempty; cbn [negb].
    + destruct (cli_started sys d) as [tasks [H1 H2]].
      exists tasks. split; [exact H1|]. split; [|auto].
      intros rel_path' [= <-] Hne. apply String.eqb_eq in Hempty. congruence.
    + unfold cbind at 1. unfold act at 1. cbn [disk done keyboard].
      set (d1 := mkDesk _ _ _). unfold cbind at 1.
      destruct (run_threads_started rel_path (loop args) (sensors args)
                  HeadlessInterrupt d1) as [acts [Hacts [Hst [u Hu]]]].
      destruct (run_threads _ _ _ HeadlessInterrupt d1) as [d2 v2].
      cbn [fst snd] in Hacts, Hu. subst v2. unfold act. cbn [fst done].
      exists [Publisher rel_path (loop args); Subscriber (sensors args)].
      split; [|split; [|discriminate]].
      * rewrite started_app, Hacts, started_app, Hst. unfold d1. cbn [done started].
        rewrite started_app. cbn [started]. now rewrite !app_nil_r.
      * now intros rel_path' [= <-] _.
  - destruct (cli_started sys d) as [tasks [H1 H2]].
    exists tasks. split; [exact H1|]. split; [discriminate | auto].
Qed.

(** ** Paths *)





Lemma plain_name_parts (name : string) :
  plain_name name = true ->
  name <> EmptyString /\ name <> "."%string /\ name <> ".."%string /\
  slash_free name = true.
Proof.
  unfold plain_name. intros H.
  apply andb_prop in H. destruct H as [H Hs].
  apply andb_prop in H. destruct H as [H H2].
  apply andb_prop in H. destruct H as [H0 H1].
  apply negb_true_iff, String.eqb_neq in H0, H1, H2. auto.
Qed.

Lemma prefix_slash_String (c : ascii) (rest : string) :
  String.prefix "/" (String c rest) = Ascii.eqb c "/".
Proof.
  cbn [String.prefix].
  destruct (Ascii.ascii_dec "/" c) as [<- | Hne].
  - now destruct rest.
  - symmetry. apply Ascii.eqb_neq. congruence.
Qed.

Lemma slash_free_String (c : ascii) (rest : string) :
  slash_free (String c rest) = negb (Ascii.eqb c "/") && slash_free rest.
Proof.
  unfold slash_free. cbn [list_ascii_of_string existsb].
  now rewrite (Ascii.eqb_sym "/" c), negb_orb.
Qed.


Lemma prefix_slash_concat (comps : list string) :
  Forall (fun name => plain_name name = true) comps ->
  String.prefix "/" (String.concat "/" comps) = false.
Proof.
  intros Hall. destruct comps as [|first others]; [reflexivity|].
  inversion Hall as [|? ? Hfirst _]; subst.
  destruct (plain_name_parts _ Hfirst) as [Hne [_ [_ Hfree]]].
  destruct first as [|c first]; [congruence|].
  rewrite slash_free_String in Hfree. apply andb_prop in Hfree.
  destruct Hfree as [Hc _]. apply negb_true_iff in Hc.
  destruct others as [|second others]; cbn [String.concat String.append];
    now rewrite prefix_slash_String.
Qed.


Lemma append_nil_r (a : string) : (a ++ EmptyString)%string = a.
Proof. induction a as [|x a IH]; [reflexivity|]. cbn [String.append]. now rewrite IH. Qed.

Lemma length_append (a b : string) :
  String.length (a ++ b) = (String.length a + String.length b)%nat.
Proof. induction a as [|x a IH]; [reflexivity|]. cbn [String.append String.length]. now rewrite IH. Qed.


























(** ** What the front end writes *)

Lemma only_dummy_written_refl {fs : Type} (d : desk fs) : only_dummy_written d d.
Proof.
  exists []. rewrite app_nil_r. split; [reflexivity|]. split; [intros p []|reflexivity].
Qed.

Lemma only_dummy_written_trans {fs : Type} (d1 d2 d3 : desk fs) :
  only_dummy_written d1 d2 -> only_dummy_written d2 d3 -> only_dummy_written d1 d3.
Proof.
  intros [acts1 [H1 [P1 D1]]] [acts2 [H2 [P2 D2]]].
  exists (acts1 ++ acts2). rewrite H2, H1, app_assoc.
  split; [reflexivity|]. split.
  - intros p Hin. apply in_app_or in Hin. destruct Hin; [now apply P1 | now apply P2].
  - intros Hnot. rewrite D2, D1; [reflexivity| |];
      intros Hin; apply Hnot, in_or_app; auto.
Qed.

(** An action that is no write, with the file system left alone. *)
Lemma only_dummy_written_said {fs : Type} (d : desk fs) (acts : list action)
    (keys : list keystroke) :
  (forall file_path, ~ In (WriteCsv file_path) acts) ->
  only_dummy_written d (mkDesk (disk d) (done d ++ acts) keys).
Proof.
  intros Hacts. exists acts. cbn [done disk].
  split; [reflexivity|]. split; [|reflexivity].
  intros p Hin. now destruct (Hacts p).
Qed.

Lemma writes_cret {fs A : Type} (a : A) (d : desk fs) :
  only_dummy_written d (fst (cret a d)).
Proof. apply only_dummy_written_refl. Qed.

Lemma writes_cfail {fs A : Type} (e : failure) (d : desk fs) :
  only_dummy_written d (fst (@cfail fs A e d)).
Proof. apply only_dummy_written_refl. Qed.

Lemma writes_act {fs : Type} (a : action) (d : desk fs) :
  (forall file_path, a <> WriteCsv file_path) ->
  only_dummy_written d (fst (act a d)).
Proof.
  intros Ha. unfold act. cbn [fst]. apply only_dummy_written_said.
  intros p [H | []]. now apply (Ha p).
Qed.

Lemma writes_console_input {fs : Type} (p : prompt) (d : desk fs) :
  only_dummy_written d (fst (console_input p d)).
Proof.
  unfold console_input.
  destruct (keyboard d) as [|[text| |] rest]; cbn [fst];
    apply only_dummy_written_said; intros q [H | []]; discriminate.
Qed.

Lemma writes_os_read {fs A : Type} (call : fs -> option A) (d : desk fs) :
  only_dummy_written d (fst (os_read call d)).
Proof.
  unfold os_read. destruct (call (disk d)); apply only_dummy_written_refl.
Qed.

Lemma writes_os_abspath {fs : Type} (sys : system fs) (path : string) (d : desk fs) :
  only_dummy_written d (fst (os_abspath sys path d)).
Proof.
  destruct (os_abspath_cases sys path d) as [[p ->] | [-> _]];
    apply only_dummy_written_refl.
Qed.

Lemma writes_create_dummy_csv {fs : Type} (sys : system fs) (d : desk fs) :
  only_dummy_written d (fst (create_dummy_csv sys "replay_data.csv" d)).
Proof.
  unfold create_dummy_csv.
  destruct (write_csv sys (disk d) _ _ _) as [disk' []]; cbn [fst].
  - exists [WriteCsv "replay_data.csv"; Say (CreatedDummy "replay_data.csv")].
    cbn [done disk]. split; [reflexivity|]. split.
    + intros p [H | [H | []]]; [congruence | discriminate].
    + intros Hnot. destruct Hnot. now left.
  - exists [WriteCsv "replay_data.csv"].
    cbn [done disk]. split; [reflexivity|]. split.
    + intros p [H | []]. congruence.
    + intros Hnot. destruct Hnot. now left.
Qed.

Lemma writes_join {fs : Type} (t : task) (d : desk fs) :
  only_dummy_written d (fst (join t d)).
Proof.
  unfold join. destruct (keyboard d) as [|[text| |] rest]; cbn [fst];
    try (apply only_dummy_written_said; intros q [H | []]; discriminate).
  exists []. cbn [done disk]. rewrite app_nil_r.
  split; [reflexivity|]. split; [intros q [] | reflexivity].
Qed.

Lemma writes_cbind {fs A B : Type} (m : C fs A) (k : A -> C fs B) (d : desk fs) :
  writes_only_dummy m -> (forall a, writes_only_dummy (k a)) ->
  only_dummy_written d (fst (cbind m k d)).
Proof.
  intros Hm Hk. unfold cbind. specialize (Hm d).
  destruct (m d) as [d1 [a|e|]]; cbn [fst] in *; [|exact Hm|exact Hm].
  apply (only_dummy_written_trans _ _ _ Hm). apply Hk.
Qed.

Lemma writes_try_catch {fs A : Type} (caught : failure -> bool) (body : C fs A)
    (handler : failure -> C fs A) (d : desk fs) :
  writes_only_dummy body -> (forall e, writes_only_dummy (handler e)) ->
  only_dummy_written d (fst (try_catch caught body handler d)).
Proof.
  intros Hb Hh. unfold try_catch. specialize (Hb d).
  destruct (body d) as [d1 [a|e|]]; cbn [fst] in *; [exact Hb| |exact Hb].
  destruct (caught e); [|exact Hb].
  apply (only_dummy_written_trans _ _ _ Hb). apply Hh.
Qed.

Ltac writes_step :=
  match goal with
  | |- writes_only_dummy _ => intros ?d
  | |- forall _, writes_only_dummy _ => intros ? ?d
  | |- only_dummy_written _ (fst (cbind _ _ _)) => apply writes_cbind
  | |- only_dummy_written _ (fst (try_catch _ _ _ _)) => apply writes_try_catch
  | |- only_dummy_written _ (fst (cret _ _)) => apply writes_cret
  | |- only_dummy_written _ (fst (cfail _ _)) => apply writes_cfail
  | |- only_dummy_written _ (fst (console_input _ _)) => apply writes_console_input
  | |- only_dummy_written _ (fst (os_read _ _)) => apply writes_os_read
  | |- only_dummy_written _ (fst (os_abspath _ _ _)) => apply writes_os_abspath
  | |- only_dummy_written _ (fst (create_dummy_csv _ _ _)) => apply writes_create_dummy_csv
  | |- only_dummy_written _ (fst (join _ _)) => apply writes_join
  | |- only_dummy_written _ (fst (act _ _)) => apply writes_act; intros ?; discriminate
  end.

Lemma writes_explorer_turn {fs : Type} (sys : system fs) (current_path : string) :
  writes_only_dummy (explorer_turn sys current_path).
Proof.
  unfold explorer_turn. intros d.
  apply writes_cbind; [intros d0; apply writes_os_read|].
  intros items d0. cbv beta zeta. repeat writes_step.
  destruct (String.eqb _ "q"); [repeat writes_step|].
  destruct (String.eqb _ "g"); [repeat writes_step|].
  destruct (String.eqb _ "h"); [unfold print_help_message; repeat writes_step|].
  destruct (negb (isdigit _)); [repeat writes_step|].
  destruct (int_of_str _) as [idx|]; [|repeat writes_step].
  destruct (negb _); [repeat writes_step|].
  destruct (nth _ _ _) as [selected_name selected_type].
  destruct (String.eqb selected_type "[dir]"); [repeat writes_step|].
  destruct (endswith selected_name ".csv"); repeat writes_step.
Qed.

Lemma writes_explorer_loop {fs : Type} (sys : system fs) (fuel : nat) :
  forall current_path, writes_only_dummy (explorer_loop sys fuel current_path).
Proof.
  induction fuel as [|fuel IH]; intros current_path d; cbn [explorer_loop].
  - apply only_dummy_written_refl.
  - writes_step.
    + intros d'. writes_step.
      * apply writes_explorer_turn.
      * unfold explorer_handler. repeat writes_step.
    + intros [[result|] next_path] d'; [writes_step | apply IH].
Qed.

Lemma writes_file_explorer {fs : Type} (sys : system fs) (start_path : string) :
  writes_only_dummy (file_explorer sys start_path).
Proof.
  unfold file_explorer. intros d.
  apply writes_cbind; [intros d0; apply writes_os_abspath|].
  intros current_path d0. apply writes_explorer_loop.
Qed.

Lemma writes_sensors_loop {fs : Type} (fuel : nat) :
  writes_only_dummy (@sensors_loop fs fuel).
Proof.
  induction fuel as [|fuel IH]; intros d; cbn [sensors_loop].
  - apply only_dummy_written_refl.
  - writes_step.
    + unfold sensors_turn. repeat writes_step.
      destruct (String.eqb _ EmptyString); [repeat writes_step|].
      destruct (int_of_str _) as [n|]; [|repeat writes_step].
      destruct (0 <? n); repeat writes_step.
    + intros [n|] d'; [writes_step | apply IH].
Qed.

Lemma writes_run_threads {fs : Type} (rel_path : string) (loop_data : bool) (N : Z)
    (interrupted : notice) :
  writes_only_dummy (@run_threads fs rel_path loop_data N interrupted).
Proof. unfold run_threads. repeat writes_step. Qed.

Lemma writes_cli {fs : Type} (sys : system fs) : writes_only_dummy (cli sys).
Proof.
  unfold cli. intros d.
  apply writes_cbind; [repeat writes_step|]. intros _ d1.
  apply writes_cbind; [repeat writes_step|]. intros _ d2.
  apply writes_cbind; [repeat writes_step|]. intros _ d3.
  apply writes_cbind; [apply writes_file_explorer|].
  intros [path|] d4; [|repeat writes_step].
  destruct (String.eqb path EmptyString); [repeat writes_step|].
  apply writes_cbind; [repeat writes_step|]. intros answer d5. cbv zeta.
  apply writes_cbind; [intros d6; apply writes_sensors_loop|]. intros n_sensors d6.
  apply writes_cbind; [repeat writes_step|]. intros _ d7.
  apply writes_cbind; [apply writes_run_threads|]. intros _ d8.
  repeat writes_step.
Qed.

(** Headless, the main thread writes nothing at all. *)
Lemma headless_disk {fs : Type} (rel_path : string) (loop_data : bool) (N : Z)
    (d : desk fs) :
  disk (fst (cbind (act (Say HeadlessRunning))
               (fun _ => cbind (run_threads rel_path loop_data N HeadlessInterrupt)
                           (fun _ => act (Say HeadlessFinished))) d))
  = disk d.
Proof.
  unfold run_threads, cbind, act, try_catch, join. cbn [disk done keyboard].
  destruct (keyboard d) as [|[text| |] rest]; reflexivity.
Qed.

(** X20. The main thread of the program writes one file at most,
    [replay_data.csv], by that relative name (so in the working directory
    of the process, whatever directory the explorer shows), and only
    through the option [g] of the explorer: when it has not written it,
    the file system is as it found it. Headless, it writes nothing. *)
Theorem main_writes_only_dummy {fs : Type} (sys : system fs) (args : arguments)
    (d : desk fs) :
  (exists acts,
      done (fst (main sys args d)) = done d ++ acts /\
      (forall file_path,
          In (WriteCsv file_path) acts -> file_path = "replay_data.csv"%string) /\
      (~ In (WriteCsv "replay_data.csv") acts -> disk (fst (main sys args d)) = disk d)) /\
  (headless args = true -> disk (fst (main sys args d)) = disk d).
Proof.
  split.
  - change (only_dummy_written d (fst (main sys args d))).
    unfold main. destruct (file args) as [rel_path|]; [|apply writes_cli].
    destruct (String.eqb rel_path EmptyString); [apply writes_cli|].
    apply writes_cbind; [repeat writes_step|]. intros _ d1.
    apply writes_cbind; [apply writes_run_threads|]. intros _ d2.
    repeat writes_step.
  - unfold main, headless. destruct (file args) as [rel_path|]; [|discriminate].
    destruct (String.eqb rel_path EmptyString); [discriminate|].
    intros _. apply headless_disk.
Qed.

(** ** An index that is no number *)



